(** * Tactical rescue simulation ([app.py])

    A shallow embedding of the simulation engine of [app.py]: the entity
    classes, the [RescueModel] world (grid, per-cell wall flags, the
    multi-occupancy registry [cell_contents]), the [TacticalAgent.step]
    decision loop, the hazard engine, the outcome evaluator and the
    snapshot function [get_grid_state].

    Python objects are mutable and compared by identity, so they live in a
    heap ([gmap] from addresses to objects) and every container holds
    addresses.  [cell_contents] is a [defaultdict(list)] whose iteration
    order matters to [advance_disturbances]; it is an association list in
    insertion order.  [walls] is a dict that is only looked up by key; it is
    a [gmap].  Python integers are unbounded: [Z]. *)

From stdpp Require Import gmap list strings pretty.

Local Open Scope Z_scope.

Abbreviation Pos := (Z * Z)%type (only parsing).
Abbreviation loc := nat (only parsing).

(** ** Results of running Python code *)

(** [Raise]: an exception propagates.  [OutOfFuel]: a [while] loop was cut
    after the number of iterations given as fuel. *)
Inductive outcome (A : Type) : Type :=
| Done (a : A)
| Raise
| OutOfFuel.
Arguments Done {A} a.
Arguments Raise {A}.
Arguments OutOfFuel {A}.

#[global] Instance outcome_ret : MRet outcome := λ A a, Done a.
#[global] Instance outcome_bind : MBind outcome := λ A B f x,
  match x with
  | Done a => f a
  | Raise => Raise
  | OutOfFuel => OutOfFuel
  end.

(** ** Ordered dictionaries (insertion order, keys compared with [==]) *)

Section odict.
Context {K V : Type} `{EqDecision K}.

(** [d.get(k)] *)
Fixpoint od_lookup (k : K) (d : list (K * V)) : option V :=
  match d with
  | [] => None
  | (k', v) :: d' => if decide (k' = k) then Some v else od_lookup k d'
  end.

(** [d[k] = v]: an existing key keeps its place, a new key goes last. *)
Fixpoint od_store (k : K) (v : V) (d : list (K * V)) : list (K * V) :=
  match d with
  | [] => [(k, v)]
  | (k', v') :: d' =>
      if decide (k' = k) then (k, v) :: d' else (k', v') :: od_store k v d'
  end.

(** [list(d.keys())] *)
Definition od_keys (d : list (K * V)) : list K := d.*1.
End odict.

(** [l.remove(x)]: drops the first element equal to [x]. *)
Fixpoint list_remove_first (x : loc) (l : list loc) : list loc :=
  match l with
  | [] => []
  | y :: l' => if decide (y = x) then l' else y :: list_remove_first x l'
  end.

(** ** Entities *)

Inductive Severity := mild | active | grave.

#[global] Instance Severity_eq_dec : EqDecision Severity.
Proof. solve_decision. Defined.

(** The classes [Hostage], [FalseAlarm], [Gate], [Disturbance] and
    [TacticalAgent] with their attributes.  [pos] is the attribute mesa's
    grid maintains on a placed agent. *)
Inductive Object :=
| Hostage (unique_id : Z)
| FalseAlarm (unique_id : Z)
| Gate (unique_id : Z) (is_open : bool)
| Disturbance (unique_id : Z) (severity : Severity) (turns_in_current_state : Z)
| TacticalAgent (unique_id : Z) (pos : Pos) (action_points : Z)
    (carrying_hostage : bool).

Inductive Class := CHostage | CFalseAlarm | CGate | CDisturbance | CTacticalAgent.

#[global] Instance Class_eq_dec : EqDecision Class.
Proof. solve_decision. Defined.

Definition class_of (o : Object) : Class :=
  match o with
  | Hostage _ => CHostage
  | FalseAlarm _ => CFalseAlarm
  | Gate _ _ => CGate
  | Disturbance _ _ _ => CDisturbance
  | TacticalAgent _ _ _ _ => CTacticalAgent
  end.

(** [isinstance(c, k)] for the object at address [c]. *)
Definition isinstance (h : gmap loc Object) (k : Class) (c : loc) : bool :=
  match h !! c with
  | Some o => bool_decide (class_of o = k)
  | None => false
  end.

(** [g.is_open] *)
Definition is_open_of (h : gmap loc Object) (g : loc) : bool :=
  match h !! g with
  | Some (Gate _ o) => o
  | _ => false
  end.

(** [d.severity] *)
Definition severity_of (h : gmap loc Object) (d : loc) : option Severity :=
  match h !! d with
  | Some (Disturbance _ s _) => Some s
  | _ => None
  end.

(** [a.pos] *)
Definition pos_of (h : gmap loc Object) (a : loc) : option Pos :=
  match h !! a with
  | Some (TacticalAgent _ p _ _) => Some p
  | _ => None
  end.

(** ** Wall flags: the inner dicts of [self.walls] *)

Inductive Side := Top | Left | Bottom | Right.

#[global] Instance Side_eq_dec : EqDecision Side.
Proof. solve_decision. Defined.

Module Wall.
Record flags := Flags { top : bool; left : bool; bottom : bool; right : bool }.

(** [w[side]] *)
Definition get (s : Side) (w : flags) : bool :=
  match s with
  | Top => top w
  | Left => left w
  | Bottom => bottom w
  | Right => right w
  end.

(** [w[side] = b] *)
Definition set (s : Side) (b : bool) (w : flags) : flags :=
  match s with
  | Top => Flags b (left w) (bottom w) (right w)
  | Left => Flags (top w) b (bottom w) (right w)
  | Bottom => Flags (top w) (left w) b (right w)
  | Right => Flags (top w) (left w) (bottom w) b
  end.
End Wall.

(** [walls.get(pos, {}).get(side)] read as a truth value: a cell without an
    entry has no flag set. *)
Definition wall_flag (ws : gmap Pos Wall.flags) (p : Pos) (s : Side) : bool :=
  match ws !! p with
  | Some w => Wall.get s w
  | None => false
  end.

(** ** Snapshots and final statistics *)

Record GridState := {
  gs_grid : list (list Z);
  gs_walls : gmap string Wall.flags
}.

Record FinalStats := {
  fs_result : string;
  fs_total_steps : Z;
  fs_hostages_rescued : Z;
  fs_hostages_lost : Z;
  fs_structural_damage : Z;
  fs_false_alarms_investigated : Z
}.

(** ** The random number generator

    [random.Random] as an interface.  [rnd_random] is [random()], returned
    as the integer [k] of the double [k / 2^53] it produces;
    [rnd_randbelow n] is the draw behind [randrange(n)] and [choice];
    [rnd_shuffle] is the permutation drawn by the scheduler. *)
Class RandomSource (R : Type) := {
  rnd_random : R → Z * R;
  rnd_randbelow : Z → R → Z * R;
  rnd_shuffle : list loc → R → list loc * R;
  rnd_randbelow_range : ∀ n r, 0 < n → 0 ≤ (rnd_randbelow n r).1 < n;
  rnd_shuffle_perm : ∀ l r, (rnd_shuffle l r).1 ≡ₚ l
}.

(** [x < 0.05] for [x = k / 2^53]: the literal [0.05] is the double
    [3602879701896397 / 2^56]. *)
Definition lt_0_05 (k : Z) : bool := 8 * k <? 3602879701896397.

(** ** The model *)

Section State.
Context {R : Type}.

Record RescueModel := {
  grid_width : Z;
  grid_height : Z;
  schedule : list loc;
  heap : gmap loc Object;
  cell_contents : list (Pos * list loc);
  running : bool;
  hostages_rescued : Z;
  hostages_lost : Z;
  structural_damage : Z;
  false_alarms_investigated : Z;
  next_entity_id : Z;
  turn_counter : Z;
  min_hidden_markers : Z;
  walls : gmap Pos Wall.flags;
  entry_points : list Pos;
  random : R;
  datacollector : list GridState
}.

Definition set_schedule (v : list loc) (m : RescueModel) : RescueModel :=
  {| grid_width := grid_width m; grid_height := grid_height m;
     schedule := v; heap := heap m;
     cell_contents := cell_contents m; running := running m;
     hostages_rescued := hostages_rescued m; hostages_lost := hostages_lost m;
     structural_damage := structural_damage m;
     false_alarms_investigated := false_alarms_investigated m;
     next_entity_id := next_entity_id m; turn_counter := turn_counter m;
     min_hidden_markers := min_hidden_markers m; walls := walls m;
     entry_points := entry_points m; random := random m;
     datacollector := datacollector m |}.

Definition set_heap (v : gmap loc Object) (m : RescueModel) : RescueModel :=
  {| grid_width := grid_width m; grid_height := grid_height m;
     schedule := schedule m; heap := v;
     cell_contents := cell_contents m; running := running m;
     hostages_rescued := hostages_rescued m; hostages_lost := hostages_lost m;
     structural_damage := structural_damage m;
     false_alarms_investigated := false_alarms_investigated m;
     next_entity_id := next_entity_id m; turn_counter := turn_counter m;
     min_hidden_markers := min_hidden_markers m; walls := walls m;
     entry_points := entry_points m; random := random m;
     datacollector := datacollector m |}.

Definition set_cell_contents (v : list (Pos * list loc)) (m : RescueModel)
  : RescueModel :=
  {| grid_width := grid_width m; grid_height := grid_height m;
     schedule := schedule m; heap := heap m;
     cell_contents := v; running := running m;
     hostages_rescued := hostages_rescued m; hostages_lost := hostages_lost m;
     structural_damage := structural_damage m;
     false_alarms_investigated := false_alarms_investigated m;
     next_entity_id := next_entity_id m; turn_counter := turn_counter m;
     min_hidden_markers := min_hidden_markers m; walls := walls m;
     entry_points := entry_points m; random := random m;
     datacollector := datacollector m |}.

Definition set_running (v : bool) (m : RescueModel) : RescueModel :=
  {| grid_width := grid_width m; grid_height := grid_height m;
     schedule := schedule m; heap := heap m;
     cell_contents := cell_contents m; running := v;
     hostages_rescued := hostages_rescued m; hostages_lost := hostages_lost m;
     structural_damage := structural_damage m;
     false_alarms_investigated := false_alarms_investigated m;
     next_entity_id := next_entity_id m; turn_counter := turn_counter m;
     min_hidden_markers := min_hidden_markers m; walls := walls m;
     entry_points := entry_points m; random := random m;
     datacollector := datacollector m |}.

Definition set_hostages_rescued (v : Z) (m : RescueModel) : RescueModel :=
  {| grid_width := grid_width m; grid_height := grid_height m;
     schedule := schedule m; heap := heap m;
     cell_contents := cell_contents m; running := running m;
     hostages_rescued := v; hostages_lost := hostages_lost m;
     structural_damage := structural_damage m;
     false_alarms_investigated := false_alarms_investigated m;
     next_entity_id := next_entity_id m; turn_counter := turn_counter m;
     min_hidden_markers := min_hidden_markers m; walls := walls m;
     entry_points := entry_points m; random := random m;
     datacollector := datacollector m |}.

Definition set_hostages_lost (v : Z) (m : RescueModel) : RescueModel :=
  {| grid_width := grid_width m; grid_height := grid_height m;
     schedule := schedule m; heap := heap m;
     cell_contents := cell_contents m; running := running m;
     hostages_rescued := hostages_rescued m; hostages_lost := v;
     structural_damage := structural_damage m;
     false_alarms_investigated := false_alarms_investigated m;
     next_entity_id := next_entity_id m; turn_counter := turn_counter m;
     min_hidden_markers := min_hidden_markers m; walls := walls m;
     entry_points := entry_points m; random := random m;
     datacollector := datacollector m |}.

Definition set_structural_damage (v : Z) (m : RescueModel) : RescueModel :=
  {| grid_width := grid_width m; grid_height := grid_height m;
     schedule := schedule m; heap := heap m;
     cell_contents := cell_contents m; running := running m;
     hostages_rescued := hostages_rescued m; hostages_lost := hostages_lost m;
     structural_damage := v;
     false_alarms_investigated := false_alarms_investigated m;
     next_entity_id := next_entity_id m; turn_counter := turn_counter m;
     min_hidden_markers := min_hidden_markers m; walls := walls m;
     entry_points := entry_points m; random := random m;
     datacollector := datacollector m |}.

Definition set_false_alarms_investigated (v : Z) (m : RescueModel)
  : RescueModel :=
  {| grid_width := grid_width m; grid_height := grid_height m;
     schedule := schedule m; heap := heap m;
     cell_contents := cell_contents m; running := running m;
     hostages_rescued := hostages_rescued m; hostages_lost := hostages_lost m;
     structural_damage := structural_damage m;
     false_alarms_investigated := v;
     next_entity_id := next_entity_id m; turn_counter := turn_counter m;
     min_hidden_markers := min_hidden_markers m; walls := walls m;
     entry_points := entry_points m; random := random m;
     datacollector := datacollector m |}.

Definition set_next_entity_id (v : Z) (m : RescueModel) : RescueModel :=
  {| grid_width := grid_width m; grid_height := grid_height m;
     schedule := schedule m; heap := heap m;
     cell_contents := cell_contents m; running := running m;
     hostages_rescued := hostages_rescued m; hostages_lost := hostages_lost m;
     structural_damage := structural_damage m;
     false_alarms_investigated := false_alarms_investigated m;
     next_entity_id := v; turn_counter := turn_counter m;
     min_hidden_markers := min_hidden_markers m; walls := walls m;
     entry_points := entry_points m; random := random m;
     datacollector := datacollector m |}.

Definition set_turn_counter (v : Z) (m : RescueModel) : RescueModel :=
  {| grid_width := grid_width m; grid_height := grid_height m;
     schedule := schedule m; heap := heap m;
     cell_contents := cell_contents m; running := running m;
     hostages_rescued := hostages_rescued m; hostages_lost := hostages_lost m;
     structural_damage := structural_damage m;
     false_alarms_investigated := false_alarms_investigated m;
     next_entity_id := next_entity_id m; turn_counter := v;
     min_hidden_markers := min_hidden_markers m; walls := walls m;
     entry_points := entry_points m; random := random m;
     datacollector := datacollector m |}.

Definition set_walls (v : gmap Pos Wall.flags) (m : RescueModel) : RescueModel :=
  {| grid_width := grid_width m; grid_height := grid_height m;
     schedule := schedule m; heap := heap m;
     cell_contents := cell_contents m; running := running m;
     hostages_rescued := hostages_rescued m; hostages_lost := hostages_lost m;
     structural_damage := structural_damage m;
     false_alarms_investigated := false_alarms_investigated m;
     next_entity_id := next_entity_id m; turn_counter := turn_counter m;
     min_hidden_markers := min_hidden_markers m; walls := v;
     entry_points := entry_points m; random := random m;
     datacollector := datacollector m |}.

Definition set_entry_points (v : list Pos) (m : RescueModel) : RescueModel :=
  {| grid_width := grid_width m; grid_height := grid_height m;
     schedule := schedule m; heap := heap m;
     cell_contents := cell_contents m; running := running m;
     hostages_rescued := hostages_rescued m; hostages_lost := hostages_lost m;
     structural_damage := structural_damage m;
     false_alarms_investigated := false_alarms_investigated m;
     next_entity_id := next_entity_id m; turn_counter := turn_counter m;
     min_hidden_markers := min_hidden_markers m; walls := walls m;
     entry_points := v; random := random m;
     datacollector := datacollector m |}.

Definition set_random (v : R) (m : RescueModel) : RescueModel :=
  {| grid_width := grid_width m; grid_height := grid_height m;
     schedule := schedule m; heap := heap m;
     cell_contents := cell_contents m; running := running m;
     hostages_rescued := hostages_rescued m; hostages_lost := hostages_lost m;
     structural_damage := structural_damage m;
     false_alarms_investigated := false_alarms_investigated m;
     next_entity_id := next_entity_id m; turn_counter := turn_counter m;
     min_hidden_markers := min_hidden_markers m; walls := walls m;
     entry_points := entry_points m; random := v;
     datacollector := datacollector m |}.

Definition set_datacollector (v : list GridState) (m : RescueModel)
  : RescueModel :=
  {| grid_width := grid_width m; grid_height := grid_height m;
     schedule := schedule m; heap := heap m;
     cell_contents := cell_contents m; running := running m;
     hostages_rescued := hostages_rescued m; hostages_lost := hostages_lost m;
     structural_damage := structural_damage m;
     false_alarms_investigated := false_alarms_investigated m;
     next_entity_id := next_entity_id m; turn_counter := turn_counter m;
     min_hidden_markers := min_hidden_markers m; walls := walls m;
     entry_points := entry_points m; random := random m;
     datacollector := v |}.

End State.

Arguments RescueModel R : clear implicits.

Section Model.
Context {R : Type}.

(** *** Contents of a cell *)

(** [self.grid.get_cell_list_contents([pos])]: the agents placed on
    [pos].  mesa's grid keeps them per cell; here they are found through
    their [pos] attribute. *)
Definition get_cell_list_contents (m : RescueModel R) (p : Pos) : list loc :=
  List.filter (λ a, bool_decide (pos_of (heap m) a = Some p)) (schedule m).

(** [get_contents_at]: agents first, then the registry's entities. *)
Definition get_contents_at (m : RescueModel R) (p : Pos) : list loc :=
  get_cell_list_contents m p ++ default [] (od_lookup p (cell_contents m)).

(** [remove_entity] *)
Definition remove_entity (entity : loc) (p : Pos) (m : RescueModel R)
  : RescueModel R :=
  match od_lookup p (cell_contents m) with
  | Some l =>
      if bool_decide (entity ∈ l)
      then set_cell_contents
             (od_store p (list_remove_first entity l) (cell_contents m)) m
      else m
  | None => m
  end.

(** *** Walls and movement *)

Definition can_move_to (m : RescueModel R) (from_pos to_pos : Pos) : bool :=
  let '(from_x, from_y) := from_pos in
  let '(to_x, to_y) := to_pos in
  if negb ((0 <=? to_x) && (to_x <? grid_width m)
           && (0 <=? to_y) && (to_y <? grid_height m))
  then false
  else
    let dx := to_x - from_x in
    let dy := to_y - from_y in
    if ((dx =? 1) && wall_flag (walls m) from_pos Right)
       || ((dx =? -1) && wall_flag (walls m) from_pos Left)
       || ((dy =? 1) && wall_flag (walls m) from_pos Bottom)
       || ((dy =? -1) && wall_flag (walls m) from_pos Top)
    then false
    else
      let gates := List.filter (isinstance (heap m) CGate)
                     (get_contents_at m to_pos) in
      match gates with
      | g :: _ => if negb (is_open_of (heap m) g) then false else true
      | [] => true
      end.

Definition has_wall_between (m : RescueModel R) (pos1 pos2 : Pos) : bool :=
  let dx := pos2.1 - pos1.1 in
  let dy := pos2.2 - pos1.2 in
  ((dx =? 1) && wall_flag (walls m) pos1 Right)
  || ((dx =? -1) && wall_flag (walls m) pos1 Left)
  || ((dy =? 1) && wall_flag (walls m) pos1 Bottom)
  || ((dy =? -1) && wall_flag (walls m) pos1 Top).

(** [self.walls[p][s] = False], under the guard [if p in self.walls]. *)
Definition clear_flag (p : Pos) (s : Side) (m : RescueModel R) : RescueModel R :=
  set_walls (alter (Wall.set s false) p (walls m)) m.

Definition break_wall_between (pos1 pos2 : Pos) (m : RescueModel R)
  : RescueModel R :=
  let dx := pos2.1 - pos1.1 in
  let dy := pos2.2 - pos1.2 in
  let m1 :=
    if dx =? 1 then clear_flag pos1 Right m
    else if dx =? -1 then clear_flag pos1 Left m
    else if dy =? 1 then clear_flag pos1 Bottom m
    else if dy =? -1 then clear_flag pos1 Top m
    else m in
  if dx =? 1 then clear_flag pos2 Left m1
  else if dx =? -1 then clear_flag pos2 Right m1
  else if dy =? 1 then clear_flag pos2 Top m1
  else if dy =? -1 then clear_flag pos2 Bottom m1
  else m1.

(** *** Outcome evaluator *)

Definition check_game_over (m : RescueModel R) : RescueModel R :=
  if (7 <=? hostages_rescued m) || (4 <=? hostages_lost m)
     || (25 <=? structural_damage m)
  then set_running false m
  else m.

Definition get_final_stats (m : RescueModel R) : FinalStats :=
  let result :=
    if 7 <=? hostages_rescued m then "VICTORIA"
    else if 4 <=? hostages_lost m then "DERROTA (Muchas víctimas perdidas)"
    else if 25 <=? structural_damage m then "DERROTA (Colapso estructural)"
    else "TIEMPO AGOTADO" in
  {| fs_result := result;
     fs_total_steps := turn_counter m;
     fs_hostages_rescued := hostages_rescued m;
     fs_hostages_lost := hostages_lost m;
     fs_structural_damage := structural_damage m;
     fs_false_alarms_investigated := false_alarms_investigated m |}.

(** *** Snapshot *)

(** The body of the double loop of [get_grid_state]: the code written to
    [grid_data[x, y]] (0 when no branch applies). *)
Definition cell_code (m : RescueModel R) (p : Pos) : Z :=
  let contents := get_contents_at m p in
  if existsb (isinstance (heap m) CTacticalAgent) contents then 2
  else if existsb (isinstance (heap m) CHostage) contents then 3
  else if existsb (isinstance (heap m) CDisturbance) contents then
    match List.filter (isinstance (heap m) CDisturbance) contents with
    | d :: _ =>
        match severity_of (heap m) d with
        | Some grave => 8
        | Some active => 5
        | _ => 4
        end
    | [] => 0
    end
  else if existsb (isinstance (heap m) CFalseAlarm) contents then 7
  else if existsb (isinstance (heap m) CGate) contents then
    match List.filter (isinstance (heap m) CGate) contents with
    | g :: _ => if is_open_of (heap m) g then 9 else 10
    | [] => 0
    end
  else if bool_decide (p ∈ entry_points m) then 6
  else 0.

(** [f"{x},{y}"] *)
Definition wall_key (p : Pos) : string := pretty p.1 +:+ "," +:+ pretty p.2.

(** [grid_data.T.tolist()] is indexed [[y][x]]. *)
Definition get_grid_state (m : RescueModel R) : GridState :=
  {| gs_grid :=
       (λ y, (λ x, cell_code m (x, y)) <$> seqZ 0 (grid_width m))
         <$> seqZ 0 (grid_height m);
     gs_walls :=
       list_to_map (prod_map wall_key id <$> map_to_list (walls m)) |}.

(** *** Agent decision procedure *)

Context `{!RandomSource R}.

(** [self.random.randrange(n)]: [ValueError] on an empty range. *)
Definition randrange (n : Z) (r : R) : outcome (Z * R) :=
  if 0 <? n then Done (rnd_randbelow n r) else Raise.

(** [random.choice(seq)] is [seq[_randbelow(len(seq))]]: [IndexError] on
    an empty sequence. *)
Definition choice {A : Type} (l : list A) (r : R) : outcome (A * R) :=
  match l with
  | [] => Raise
  | _ =>
      let '(i, r') := rnd_randbelow (Z.of_nat (length l)) r in
      match l !! Z.to_nat i with
      | Some x => Done (x, r')
      | None => Raise
      end
  end.

(** [self.grid.get_neighborhood(pos, moore=False, include_center=False)]
    on a grid that is not a torus: the orthogonal neighbours that lie on
    the grid. *)
Definition get_neighborhood (m : RescueModel R) (p : Pos) : list Pos :=
  List.filter
    (λ q, (0 <=? q.1) && (q.1 <? grid_width m)
          && (0 <=? q.2) && (q.2 <? grid_height m))
    [(p.1 - 1, p.2); (p.1, p.2 - 1); (p.1, p.2 + 1); (p.1 + 1, p.2)].

(** Attribute assignments on heap objects. *)
Definition set_pos (self : loc) (p : Pos) (m : RescueModel R)
  : outcome (RescueModel R) :=
  match heap m !! self with
  | Some (TacticalAgent u _ ap c) =>
      Done (set_heap (<[self := TacticalAgent u p ap c]> (heap m)) m)
  | _ => Raise
  end.

Definition set_action_points (self : loc) (ap : Z) (m : RescueModel R)
  : outcome (RescueModel R) :=
  match heap m !! self with
  | Some (TacticalAgent u p _ c) =>
      Done (set_heap (<[self := TacticalAgent u p ap c]> (heap m)) m)
  | _ => Raise
  end.

Definition set_carrying_hostage (self : loc) (c : bool) (m : RescueModel R)
  : outcome (RescueModel R) :=
  match heap m !! self with
  | Some (TacticalAgent u p ap _) =>
      Done (set_heap (<[self := TacticalAgent u p ap c]> (heap m)) m)
  | _ => Raise
  end.

Definition set_is_open (g : loc) (b : bool) (m : RescueModel R)
  : outcome (RescueModel R) :=
  match heap m !! g with
  | Some (Gate u _) => Done (set_heap (<[g := Gate u b]> (heap m)) m)
  | _ => Raise
  end.

Inductive Action :=
| move (target : Pos)
| rescue (target : loc)
| investigate (target : loc)
| dropoff
| contain (target : loc)
| open_gate (target : loc)
| close_gate (target : loc)
| break_wall (target : Pos).

(** [next((c for c in contents if isinstance(c, k)), None)] *)
Definition find_instance (m : RescueModel R) (k : Class) (contents : list loc)
  : option loc :=
  head (List.filter (isinstance (heap m) k) contents).

(** The candidate list built by one iteration of the [while] loop of
    [TacticalAgent.step], for an agent on [p] with [ap] action points. *)
Definition possible_actions (m : RescueModel R) (p : Pos) (ap : Z)
    (carrying : bool) : list (Action * Z) :=
  let current_pos_contents := get_contents_at m p in
  let neighbors := get_neighborhood m p in
  (* 1. move *)
  flat_map
    (λ neighbor_pos,
       if can_move_to m p neighbor_pos then
         let neighbor_contents := get_contents_at m neighbor_pos in
         let cost :=
           if existsb (isinstance (heap m) CDisturbance) neighbor_contents
           then 2 else 1 in
         if cost <=? ap then [(move neighbor_pos, cost)] else []
       else [])
    neighbors
  (* 2. rescue *)
  ++ (if negb carrying then
        match find_instance m CHostage current_pos_contents with
        | Some hostage_found =>
            if 2 <=? ap then [(rescue hostage_found, 2)] else []
        | None => []
        end
      else [])
  (* 3. investigate *)
  ++ match find_instance m CFalseAlarm current_pos_contents with
     | Some alarm_found =>
         if 1 <=? ap then [(investigate alarm_found, 1)] else []
     | None => []
     end
  (* 4. dropoff *)
  ++ (if carrying && bool_decide (p ∈ entry_points m) && (1 <=? ap)
      then [(dropoff, 1)] else [])
  (* 5. contain *)
  ++ match find_instance m CDisturbance current_pos_contents with
     | Some disturbance_found =>
         if bool_decide (severity_of (heap m) disturbance_found = Some mild)
            && (1 <=? ap)
         then [(contain disturbance_found, 1)]
         else if bool_decide
                   (severity_of (heap m) disturbance_found = Some active)
                 && (2 <=? ap)
         then [(contain disturbance_found, 2)]
         else []
     | None => []
     end
  (* 6. open or close a gate *)
  ++ match find_instance m CGate current_pos_contents with
     | Some gate_found =>
         if 1 <=? ap then
           [(if is_open_of (heap m) gate_found
             then close_gate gate_found else open_gate gate_found, 1)]
         else []
     | None => []
     end
  (* 7. break a wall *)
  ++ (if 2 <=? ap then
        flat_map
          (λ neighbor_pos,
             if has_wall_between m p neighbor_pos
             then [(break_wall neighbor_pos, 2)] else [])
          neighbors
      else []).

(** The effect of the chosen action; [p] is [self.pos] when it is chosen. *)
Definition apply_action (self : loc) (p : Pos) (action : Action)
    (m : RescueModel R) : outcome (RescueModel R) :=
  match action with
  | move target => set_pos self target m
  | rescue target =>
      m ← set_carrying_hostage self true m;
      Done (remove_entity target p m)
  | investigate target =>
      Done (remove_entity target p
              (set_false_alarms_investigated
                 (false_alarms_investigated m + 1) m))
  | dropoff =>
      m ← set_carrying_hostage self false m;
      Done (set_hostages_rescued (hostages_rescued m + 1) m)
  | contain target => Done (remove_entity target p m)
  | open_gate target => set_is_open target true m
  | close_gate target => set_is_open target false m
  | break_wall target =>
      let m := break_wall_between p target m in
      Done (set_structural_damage (structural_damage m + 1) m)
  end.

(** [self.action_points -= cost] *)
Definition spend (self : loc) (cost : Z) (m : RescueModel R)
  : outcome (RescueModel R) :=
  match heap m !! self with
  | Some (TacticalAgent _ _ ap _) => set_action_points self (ap - cost) m
  | _ => Raise
  end.

(** The [while self.action_points > 0] loop.  Next to the model it
    returns a log of the iterations that applied an action: the action
    points when the action was chosen, the action and its cost. *)
Fixpoint step_loop (fuel : nat) (self : loc) (m : RescueModel R)
  : outcome (list (Z * Action * Z) * RescueModel R) :=
  match fuel with
  | O => OutOfFuel
  | S fuel' =>
      match heap m !! self with
      | Some (TacticalAgent _ p ap carrying) =>
          if negb (0 <? ap) then Done ([], m)
          else
            let acts := possible_actions m p ap carrying in
            match acts with
            | [] => Done ([], m)
            | _ =>
                '(chosen, r') ← choice acts (random m);
                let m := set_random r' m in
                m ← apply_action self p chosen.1 m;
                m ← spend self chosen.2 m;
                '(log, m) ← step_loop fuel' self m;
                Done ((ap, chosen.1, chosen.2) :: log, m)
            end
      | _ => Raise
      end
  end.

(** [TacticalAgent.step] *)
Definition TacticalAgent_step (fuel : nat) (self : loc) (m : RescueModel R)
  : outcome (list (Z * Action * Z) * RescueModel R) :=
  m ← set_action_points self 4 m;
  step_loop fuel self m.

(** *** Turn scheduler: [RandomActivation.step]

    [self._agents.shuffle(inplace=True).do("step")]: the scheduler keeps
    the order it has drawn, and the agents act in that order. *)

Fixpoint activate (fuel : nat) (order : list loc) (m : RescueModel R)
  : outcome (RescueModel R) :=
  match order with
  | [] => Done m
  | a :: rest =>
      '(_, m) ← TacticalAgent_step fuel a m;
      activate fuel rest m
  end.

Definition schedule_step (fuel : nat) (m : RescueModel R)
  : outcome (RescueModel R) :=
  let '(order, r') := rnd_shuffle (schedule m) (random m) in
  activate fuel order (set_schedule order (set_random r' m)).

(** *** Hazard engine *)

Definition handle_explosion (p : Pos) (contents : list loc)
    (m : RescueModel R) : RescueModel R :=
  let m := set_structural_damage (structural_damage m + 1) m in
  let m :=
    fold_left
      (λ m hostage,
         remove_entity hostage p (set_hostages_lost (hostages_lost m + 1) m))
      (List.filter (isinstance (heap m) CHostage) contents) m in
  fold_left (λ m disturbance, remove_entity disturbance p m)
    (List.filter (isinstance (heap m) CDisturbance) contents) m.

(** The body of the inner loop of [advance_disturbances] for the
    disturbance [d] met in the cell [p].  [contents] of the source is the
    live list [cell_contents[p]]; [list(contents)] copies it as it is
    when the explosion starts. *)
Definition advance_disturbance (p : Pos) (d : loc) (m : RescueModel R)
  : RescueModel R :=
  match heap m !! d with
  | Some (Disturbance u sev t) =>
      let t := t + 1 in
      if bool_decide (sev = mild) && (4 <=? t) then
        set_heap (<[d := Disturbance u active 0]> (heap m)) m
      else if bool_decide (sev = active) && (6 <=? t) then
        let m := set_heap (<[d := Disturbance u grave t]> (heap m)) m in
        handle_explosion p (default [] (od_lookup p (cell_contents m))) m
      else set_heap (<[d := Disturbance u sev t]> (heap m)) m
  | _ => m
  end.

(** One cell of the outer loop: the disturbances are listed once, before
    any of them is advanced. *)
Definition advance_cell (m : RescueModel R) (p : Pos) : RescueModel R :=
  let contents := default [] (od_lookup p (cell_contents m)) in
  fold_left (λ m d, advance_disturbance p d m)
    (List.filter (isinstance (heap m) CDisturbance) contents) m.

(** The escalation pass: the loop over [list(self.cell_contents.items())]. *)
Definition escalate (m : RescueModel R) : RescueModel R :=
  fold_left advance_cell (od_keys (cell_contents m)) m.

Definition get_next_id (m : RescueModel R) : Z * RescueModel R :=
  let m := set_next_entity_id (next_entity_id m + 1) m in
  (next_entity_id m, m).

(** Object creation: the new object gets an address not in use. *)
Definition alloc (o : Object) (m : RescueModel R) : loc * RescueModel R :=
  let l := fresh (dom (heap m)) in
  (l, set_heap (<[l := o]> (heap m)) m).

(** [self.cell_contents[p].append(x)] on the [defaultdict(list)] *)
Definition cell_append (p : Pos) (x : loc) (m : RescueModel R)
  : RescueModel R :=
  set_cell_contents
    (od_store p (default [] (od_lookup p (cell_contents m)) ++ [x])
       (cell_contents m)) m.

(** [any(isinstance(c, Gate) and not c.is_open for c in contents)] *)
Definition has_closed_gate (m : RescueModel R) (contents : list loc) : bool :=
  existsb (λ c, isinstance (heap m) CGate c && negb (is_open_of (heap m) c))
    contents.

(** [get_available_cell]: the [while True] loop, cut after [fuel] draws
    of a cell. *)
Fixpoint get_available_cell (fuel : nat) (m : RescueModel R)
  : outcome (Pos * RescueModel R) :=
  match fuel with
  | O => OutOfFuel
  | S fuel' =>
      '(x, r1) ← randrange (grid_width m) (random m);
      '(y, r2) ← randrange (grid_height m) r1;
      let m := set_random r2 m in
      if negb (has_closed_gate m (get_contents_at m (x, y)))
      then Done ((x, y), m)
      else get_available_cell fuel' m
  end.

(** The spawn draw that ends [advance_disturbances]. *)
Definition spawn (fuel : nat) (m : RescueModel R) : outcome (RescueModel R) :=
  let '(k, r') := rnd_random (random m) in
  let m := set_random r' m in
  if lt_0_05 k then
    '(p, m) ← get_available_cell fuel m;
    if negb (existsb (isinstance (heap m) CDisturbance) (get_contents_at m p))
    then
      let '(uid, m) := get_next_id m in
      let '(d, m) := alloc (Disturbance uid mild 0) m in
      Done (cell_append p d m)
    else Done m
  else Done m.

Definition advance_disturbances (fuel : nat) (m : RescueModel R)
  : outcome (RescueModel R) :=
  spawn fuel (escalate m).

(** *** One turn and the driver loop *)

Definition step (fuel : nat) (m : RescueModel R) : outcome (RescueModel R) :=
  let m := set_turn_counter (turn_counter m + 1) m in
  m ← schedule_step fuel m;
  m ← advance_disturbances fuel m;
  let m := check_game_over m in
  Done (set_datacollector (datacollector m ++ [get_grid_state m]) m).

(** The loop of [run_simulation]: at most [max_steps] turns, stopping
    when [running] is false. *)
Fixpoint run (max_steps : nat) (fuel : nat) (m : RescueModel R)
  : outcome (RescueModel R) :=
  match max_steps with
  | O => Done m
  | S n =>
      if negb (running m) then Done m
      else m ← step fuel m; run n fuel m
  end.

End Model.


(** ** Scenario setup: [RescueModel.__init__] and [setup_fixed_grid] *)

Section Setup.
Context {R : Type} `{!RandomSource R}.

Definition grid_walls : list (list string) :=
  [ ["1100"; "1000"; "1001"; "1100"; "1001"; "1100"; "1000"; "1001"];
    ["0100"; "0000"; "0011"; "0110"; "0011"; "0110"; "0010"; "0011"];
    ["0100"; "0001"; "1100"; "1000"; "1000"; "1001"; "1100"; "1001"];
    ["0110"; "0011"; "0110"; "0010"; "0010"; "0011"; "0110"; "0011"];
    ["1100"; "1000"; "1000"; "1000"; "1001"; "1100"; "1001"; "1101"];
    ["0110"; "0010"; "0010"; "0010"; "0011"; "0110"; "0011"; "0111"] ]%string.

(** The kinds ['v'] and ['f'] of a point of interest. *)
Inductive poi_type := poi_v | poi_f.

Definition points_of_interest : list (Z * Z * poi_type) :=
  [(2, 5, poi_v); (5, 2, poi_f); (5, 8, poi_v)].

Definition fire_markers : list (Z * Z) :=
  [(2, 2); (2, 3); (3, 2); (3, 3); (3, 4); (3, 5); (4, 4); (5, 6); (5, 7); (6, 6)].

Definition doors : list (Z * Z * Z * Z) :=
  [(1, 3, 1, 4); (2, 5, 2, 6); (2, 8, 3, 8); (3, 2, 3, 3);
   (4, 4, 5, 4); (4, 6, 4, 7); (6, 5, 6, 6); (6, 7, 6, 8)].

Definition entry_points_data : list (Z * Z) := [(1, 6); (3, 1); (4, 8); (6, 3)].

Definition num_agents : nat := 6.

(** [s[i] == '1'], with the [IndexError] of a short string. *)
Definition char_is_1 (s : string) (i : nat) : outcome bool :=
  match String.get i s with
  | Some c => Done (String.eqb (String c EmptyString) "1")
  | None => Raise
  end.

(** The dict literal built from one wall string. *)
Definition flags_of_string (s : string) : outcome Wall.flags :=
  t ← char_is_1 s 0; l ← char_is_1 s 1;
  b ← char_is_1 s 2; r ← char_is_1 s 3;
  Done (Wall.Flags t l b r).

(** A [for] loop whose body may raise. *)
Fixpoint for_each {A S : Type} (body : S → A → outcome S) (l : list A) (s : S)
  : outcome S :=
  match l with
  | [] => Done s
  | x :: l' => s ← body s x; for_each body l' s
  end.

(** The double loop that fills [self.walls]. *)
Definition setup_walls (m : RescueModel R) : outcome (RescueModel R) :=
  for_each
    (λ m row,
       for_each
         (λ m col,
            match grid_walls !! Z.to_nat row ≫= (.!! Z.to_nat col) with
            | Some cell_walls_str =>
                w ← flags_of_string cell_walls_str;
                Done (set_walls (<[(col, row) := w]> (walls m)) m)
            | None => Raise
            end)
         (seqZ 0 (grid_width m)) m)
    (seqZ 0 (grid_height m)) (set_walls ∅ m).

(** One iteration of the agent loop.  The entry point is drawn from the
    module-level generator [random], whose state [g] is threaded next to
    the model; mesa's [place_agent] raises for a cell outside the grid. *)
Definition setup_agent (st : RescueModel R * R) (_ : nat)
  : outcome (RescueModel R * R) :=
  let '(m, g) := st in
  let '(uid, m) := get_next_id m in
  '(p, g) ← choice (entry_points m) g;
  if (0 <=? p.1) && (p.1 <? grid_width m)
     && (0 <=? p.2) && (p.2 <? grid_height m)
  then
    let '(agent, m) := alloc (TacticalAgent uid p 4 false) m in
    Done (set_schedule (schedule m ++ [agent]) m, g)
  else Raise.

Definition setup_poi (m : RescueModel R) (poi : Z * Z * poi_type)
  : RescueModel R :=
  let '(r, c, kind) := poi in
  let p := (c - 1, r - 1) in
  let '(uid, m) := get_next_id m in
  let '(o, m) :=
    alloc (match kind with poi_v => Hostage uid | poi_f => FalseAlarm uid end) m in
  cell_append p o m.

Definition setup_fire (m : RescueModel R) (rc : Z * Z) : RescueModel R :=
  let '(r, c) := rc in
  let '(uid, m) := get_next_id m in
  let '(o, m) := alloc (Disturbance uid mild 0) m in
  cell_append (c - 1, r - 1) o m.

(** The initial state of a gate is drawn from the module-level generator
    as well. *)
Definition setup_door (st : RescueModel R * R) (door : Z * Z * Z * Z)
  : outcome (RescueModel R * R) :=
  let '(m, g) := st in
  let '(r1, c1, _, _) := door in
  let '(uid, m) := get_next_id m in
  '(is_open, g) ← choice [true; false] g;
  let '(o, m) := alloc (Gate uid is_open) m in
  Done (cell_append (c1 - 1, r1 - 1) o m, g).

Definition setup_fixed_grid (m : RescueModel R) (g : R)
  : outcome (RescueModel R * R) :=
  m ← setup_walls m;
  let m :=
    set_entry_points ((λ '(r, c), (c - 1, r - 1)) <$> entry_points_data) m in
  '(m, g) ← for_each setup_agent (seq 0 num_agents) (m, g);
  let m := fold_left setup_poi points_of_interest m in
  let m := fold_left setup_fire fire_markers m in
  for_each setup_door doors (m, g).

(** [RescueModel(width, height)].  [seed] is the state in which mesa's
    [Model.__init__] leaves [self.random]; [g] is the state of the
    module-level generator [random] of the process. *)
Definition blank_model (seed : R) (width height : Z) : RescueModel R :=
  {| grid_width := width; grid_height := height;
     schedule := []; heap := ∅; cell_contents := [];
     running := true;
     hostages_rescued := 0; hostages_lost := 0; structural_damage := 0;
     false_alarms_investigated := 0; next_entity_id := 0;
     turn_counter := 0; min_hidden_markers := 3;
     walls := ∅; entry_points := []; random := seed;
     datacollector := [] |}.

Definition RescueModel_init (seed : R) (width height : Z) (g : R)
  : outcome (RescueModel R * R) :=
  setup_fixed_grid (blank_model seed width height) g.

End Setup.

(** ** A scripted random source

    A generator that replays a tape of draws (and draws 0 once the tape is
    used up).  It gives the abstract interface a concrete inhabitant, on
    which the model can be run. *)

Definition tape_random (r : list Z) : Z * list Z :=
  match r with
  | [] => (0, [])
  | k :: r' => (k `mod` 2 ^ 53, r')
  end.

Definition tape_randbelow (n : Z) (r : list Z) : Z * list Z :=
  match r with
  | [] => (0, [])
  | k :: r' => (k `mod` n, r')
  end.

Definition tape_shuffle (l : list loc) (r : list Z) : list loc * list Z :=
  match r with
  | [] => (l, [])
  | k :: r' => (if Z.even k then l else reverse l, r')
  end.

#[global] Instance tape_source : RandomSource (list Z).
Proof.
  refine {| rnd_random := tape_random;
            rnd_randbelow := tape_randbelow;
            rnd_shuffle := tape_shuffle |}.
  - intros n [|k r'] Hn; simpl; [lia|]. apply Z.mod_pos_bound; lia.
  - intros l [|k r']; simpl; [done|].
    destruct (Z.even k); [done|]. apply reverse_Permutation.
Defined.

(** ** Vocabulary of the statements *)

Section Vocabulary.
Context {R : Type}.

(** The cell next to [p] on side [s]; [y] grows towards the bottom. *)
Definition neighbor (p : Pos) (s : Side) : Pos :=
  match s with
  | Top => (p.1, p.2 - 1)
  | Left => (p.1 - 1, p.2)
  | Bottom => (p.1, p.2 + 1)
  | Right => (p.1 + 1, p.2)
  end.

Definition opposite (s : Side) : Side :=
  match s with
  | Top => Bottom
  | Left => Right
  | Bottom => Top
  | Right => Left
  end.

Definition in_grid (m : RescueModel R) (p : Pos) : Prop :=
  0 ≤ p.1 < grid_width m ∧ 0 ≤ p.2 < grid_height m.

(** The gates among the contents of a cell, in order. *)
Definition gates_at (m : RescueModel R) (p : Pos) : list loc :=
  List.filter (isinstance (heap m) CGate) (get_contents_at m p).

(** Some object of class [k] is in the cell. *)
Definition holds (m : RescueModel R) (k : Class) (p : Pos) : bool :=
  existsb (isinstance (heap m) k) (get_contents_at m p).

(** The attributes that neither an agent's turn nor the hazard engine
    assigns. *)
Definition same_frame (m m' : RescueModel R) : Prop :=
  running m' = running m
  ∧ grid_width m' = grid_width m
  ∧ grid_height m' = grid_height m
  ∧ entry_points m' = entry_points m
  ∧ schedule m' = schedule m
  ∧ turn_counter m' = turn_counter m
  ∧ datacollector m' = datacollector m.

(** A log of applied actions that respects a budget of [ap] points: every
    entry was chosen with the points left by the entries before it, and
    costs at least 1 and at most those points. *)
Fixpoint budget_log (ap : Z) (log : list (Z * Action * Z)) : Prop :=
  match log with
  | [] => True
  | (ap0, _, cost) :: rest =>
      ap0 = ap ∧ 1 ≤ cost ≤ ap0 ∧ budget_log (ap - cost) rest
  end.

(** The points left after a log. *)
Fixpoint final_ap (ap : Z) (log : list (Z * Action * Z)) : Z :=
  match log with
  | [] => ap
  | (_, _, cost) :: rest => final_ap (ap - cost) rest
  end.

(** The target of a gate action is a gate. *)
Definition action_ok (m : RescueModel R) (a : Action) : Prop :=
  match a with
  | open_gate g | close_gate g => isinstance (heap m) CGate g = true
  | _ => True
  end.

(** The two heaps hold objects of the same classes at the same addresses. *)
Definition same_classes (h h' : gmap loc Object) : Prop :=
  ∀ x, class_of <$> h' !! x = class_of <$> h !! x.

(** What an explosion leaves of the list of a cell: everything but the
    hostages and the disturbances, in order. *)
Definition cleared (h : gmap loc Object) (l : list loc) : list loc :=
  List.filter
    (λ x, negb (isinstance h CHostage x) && negb (isinstance h CDisturbance x))
    l.

(** The object a disturbance becomes when it is advanced by one turn. *)
Definition advance_obj (o : Object) : Object :=
  match o with
  | Disturbance u sev t =>
      if bool_decide (sev = mild) && (4 <=? t + 1) then Disturbance u active 0
      else if bool_decide (sev = active) && (6 <=? t + 1)
           then Disturbance u grave (t + 1)
      else Disturbance u sev (t + 1)
  | _ => o
  end.

(** The disturbance at [x] is active and its counter reaches 6 when it is
    advanced. *)
Definition explodes (h : gmap loc Object) (x : loc) : bool :=
  match h !! x with
  | Some (Disturbance _ active t) => 6 <=? t + 1
  | _ => false
  end.

Definition advance_heap (ds : list loc) (h : gmap loc Object) : gmap loc Object :=
  fold_left (λ h d, alter advance_obj d h) ds h.

Definition hostages_in (h : gmap loc Object) (L : list loc) : Z :=
  Z.of_nat (length (List.filter (isinstance h CHostage) L)).

(** The list of a cell after the pass, the damage and the losses the cell
    contributes: one point of damage for each disturbance that explodes,
    and, when one does, every hostage of the cell. *)
Definition escalated_cell (h : gmap loc Object) (L : list loc) : list loc :=
  if existsb (explodes h) L then cleared h L else L.

Definition cell_damage (h : gmap loc Object) (L : list loc) : Z :=
  Z.of_nat (length (List.filter (explodes h) L)).

Definition cell_lost (h : gmap loc Object) (L : list loc) : Z :=
  if existsb (explodes h) L then hostages_in h L else 0.

Definition sumZ (l : list Z) : Z := foldr Z.add 0 l.

(** The escalation pass, told cell by cell: the model it must produce from
    [m] once the cells [done] are behind and the cells [todo] ahead. *)
(** The four attributes the hazard engine assigns, set at once. *)
Definition with_hazard (c : list (Pos * list loc)) (lost damage : Z)
    (h : gmap loc Object) (m : RescueModel R) : RescueModel R :=
  set_cell_contents c
    (set_hostages_lost lost (set_structural_damage damage (set_heap h m))).

Definition escalated (m : RescueModel R) (done todo : list (Pos * list loc))
  : RescueModel R :=
  with_hazard
    ((prod_map id (escalated_cell (heap m)) <$> done) ++ todo)
    (hostages_lost m + sumZ (cell_lost (heap m) <$> done.*2))
    (structural_damage m + sumZ (cell_damage (heap m) <$> done.*2))
    (advance_heap
       (List.filter (isinstance (heap m) CDisturbance) (concat done.*2))
       (heap m))
    m.

(** The registry is a dict (its keys are distinct) and no object is
    registered twice. *)
Definition wf_cells (m : RescueModel R) : Prop :=
  NoDup (od_keys (cell_contents m)) ∧ NoDup (concat (cell_contents m).*2).

(** The invariant of the world: the registry is a dict, no object is
    registered twice, what is registered is an entity that exists, what is
    scheduled is an agent, and a cell holds at most one gate and at most
    one disturbance. *)
Definition world_ok (m : RescueModel R) : Prop :=
  NoDup (od_keys (cell_contents m))
  ∧ NoDup (concat (cell_contents m).*2)
  ∧ (∀ x, x ∈ concat (cell_contents m).*2 →
          is_Some (heap m !! x)
          ∧ isinstance (heap m) CTacticalAgent x = false)
  ∧ (∀ a, a ∈ schedule m → isinstance (heap m) CTacticalAgent a = true)
  ∧ (∀ L, L ∈ (cell_contents m).*2 →
          (length (List.filter (isinstance (heap m) CGate) L) ≤ 1)%nat
          ∧ (length (List.filter (isinstance (heap m) CDisturbance) L) ≤ 1)%nat).

(** [m'] has the schedule of [m], objects of the same classes, and a
    registry with the same keys whose lists have only lost elements. *)
Definition shrinks (m m' : RescueModel R) : Prop :=
  schedule m' = schedule m
  ∧ same_classes (heap m) (heap m')
  ∧ Forall2 (λ a b, b.1 = a.1 ∧ b.2 `sublist_of` a.2)
      (cell_contents m) (cell_contents m').

(** The list of the cell [p] holds no object of class [k]. *)
Definition no_instance (m : RescueModel R) (k : Class) (p : Pos) : Prop :=
  existsb (isinstance (heap m) k)
    (default [] (od_lookup p (cell_contents m))) = false.

(** The invariant while the scenario is set up: disturbances are
    registered in the cells [fires] only, gates in the cells [gates]
    only. *)
Definition setup_ok (fires gates : list Pos) (m : RescueModel R) : Prop :=
  world_ok m
  ∧ (∀ p, p ∉ fires → no_instance m CDisturbance p)
  ∧ (∀ p, p ∉ gates → no_instance m CGate p).

End Vocabulary.

Section Draws.
Context {R : Type} `{!RandomSource R}.


(** The cell drawn by one iteration of [get_available_cell], and the
    generator after it. *)
Definition draw_cell (m : RescueModel R) : Pos * R :=
  let '(x, r1) := rnd_randbelow (grid_width m) (random m) in
  let '(y, r2) := rnd_randbelow (grid_height m) r1 in
  ((x, y), r2).



(** The states of a run: what the constructor builds, and what a turn
    makes of such a state. *)
Inductive reachable : RescueModel R → Prop :=
| reachable_init seed width height g m g' :
    RescueModel_init seed width height g = Done (m, g') → reachable m
| reachable_step fuel m m' :
    reachable m → step fuel m = Done m' → reachable m'.

End Draws.

(** ** The events of a run

    A turn is a sequence of elementary events, each with the guard under
    which the code performs it.  The invariants of the simulation are
    proved event by event. *)

Section Play.
Context {R : Type} `{!RandomSource R}.

(** [o.unique_id] *)
Definition unique_id_of (o : Object) : Z :=
  match o with
  | Hostage u | FalseAlarm u | Gate u _ | Disturbance u _ _
  | TacticalAgent u _ _ _ => u
  end.

(** [a.carrying_hostage] *)
Definition carrying_of (h : gmap loc Object) (a : loc) : bool :=
  match h !! a with
  | Some (TacticalAgent _ _ _ c) => c
  | _ => false
  end.

(** The number of agents that carry a hostage. *)
Definition carriers (m : RescueModel R) : Z :=
  Z.of_nat (length (List.filter (carrying_of (heap m)) (schedule m))).

(** The number of registered entities of class [k]. *)
Definition registered (m : RescueModel R) (k : Class) : Z :=
  Z.of_nat (length (List.filter (isinstance (heap m) k)
                      (concat (cell_contents m).*2))).

(** The hostages of the world, wherever they are: brought out, carried,
    waiting in a cell, or lost. *)
Definition census (m : RescueModel R) : Z :=
  hostages_rescued m + carriers m + registered m CHostage + hostages_lost m.

(** The rule under which the decision loop of an agent on [p], with [ap]
    points and [carrying_hostage = c], offers the action [a] at cost
    [cost]. *)
Definition legal (m : RescueModel R) (p : Pos) (ap : Z) (c : bool)
    (a : Action) (cost : Z) : Prop :=
  match a with
  | move t =>
      t ∈ get_neighborhood m p ∧ can_move_to m p t = true
      ∧ cost = (if holds m CDisturbance t then 2 else 1) ∧ cost ≤ ap
  | rescue x =>
      c = false
      ∧ find_instance m CHostage (get_contents_at m p) = Some x
      ∧ cost = 2 ∧ 2 ≤ ap
  | investigate x =>
      find_instance m CFalseAlarm (get_contents_at m p) = Some x
      ∧ cost = 1 ∧ 1 ≤ ap
  | dropoff => c = true ∧ p ∈ entry_points m ∧ cost = 1 ∧ 1 ≤ ap
  | contain x =>
      find_instance m CDisturbance (get_contents_at m p) = Some x
      ∧ ((severity_of (heap m) x = Some mild ∧ cost = 1)
         ∨ (severity_of (heap m) x = Some active ∧ cost = 2))
      ∧ cost ≤ ap
  | open_gate g =>
      find_instance m CGate (get_contents_at m p) = Some g
      ∧ is_open_of (heap m) g = false ∧ cost = 1 ∧ 1 ≤ ap
  | close_gate g =>
      find_instance m CGate (get_contents_at m p) = Some g
      ∧ is_open_of (heap m) g = true ∧ cost = 1 ∧ 1 ≤ ap
  | break_wall t =>
      t ∈ get_neighborhood m p ∧ has_wall_between m p t = true
      ∧ cost = 2 ∧ 2 ≤ ap
  end.

(** Book-keeping: the entities, the registry, the grid, the hostage
    counters and the investigated alarms are untouched; the damage does
    not decrease; wall flags are cleared at most. *)
Definition bookkeeping (m m' : RescueModel R) : Prop :=
  schedule m' = schedule m
  ∧ heap m' = heap m
  ∧ cell_contents m' = cell_contents m
  ∧ grid_width m' = grid_width m
  ∧ grid_height m' = grid_height m
  ∧ entry_points m' = entry_points m
  ∧ hostages_rescued m' = hostages_rescued m
  ∧ hostages_lost m' = hostages_lost m
  ∧ next_entity_id m' = next_entity_id m
  ∧ structural_damage m ≤ structural_damage m'
  ∧ false_alarms_investigated m' = false_alarms_investigated m
  ∧ dom (walls m') = dom (walls m)
  ∧ ∀ p s, wall_flag (walls m') p s = true → wall_flag (walls m) p s = true.

(** One event of a turn. *)
Inductive occurs (m : RescueModel R) : RescueModel R → Prop :=
| occ_ledger m' : bookkeeping m m' → occurs m m'
| occ_points self u p ap c ap' :
    heap m !! self = Some (TacticalAgent u p ap c) →
    self ∈ schedule m →
    ap' = 4 ∨ 0 ≤ ap' < ap →
    occurs m (set_heap (<[self := TacticalAgent u p ap' c]> (heap m)) m)
| occ_move self u p ap c t :
    heap m !! self = Some (TacticalAgent u p ap c) →
    self ∈ schedule m →
    t ∈ get_neighborhood m p →
    can_move_to m p t = true →
    occurs m (set_heap (<[self := TacticalAgent u t ap c]> (heap m)) m)
| occ_rescue self u p ap x :
    heap m !! self = Some (TacticalAgent u p ap false) →
    self ∈ schedule m →
    x ∈ get_contents_at m p →
    isinstance (heap m) CHostage x = true →
    occurs m
      (remove_entity x p
         (set_heap (<[self := TacticalAgent u p ap true]> (heap m)) m))
| occ_dropoff self u p ap :
    heap m !! self = Some (TacticalAgent u p ap true) →
    self ∈ schedule m →
    p ∈ entry_points m →
    occurs m
      (set_hostages_rescued (hostages_rescued m + 1)
         (set_heap (<[self := TacticalAgent u p ap false]> (heap m)) m))
| occ_investigate p x :
    x ∈ get_contents_at m p →
    isinstance (heap m) CFalseAlarm x = true →
    occurs m
      (remove_entity x p
         (set_false_alarms_investigated (false_alarms_investigated m + 1) m))
| occ_contain p x :
    x ∈ get_contents_at m p →
    isinstance (heap m) CDisturbance x = true →
    occurs m (remove_entity x p m)
| occ_gate g u o :
    heap m !! g = Some (Gate u o) →
    occurs m (set_heap (<[g := Gate u (negb o)]> (heap m)) m)
| occ_escalate : occurs m (escalate m)
| occ_spawn p :
    in_grid m p →
    has_closed_gate m (get_contents_at m p) = false →
    holds m CDisturbance p = false →
    occurs m
      (cell_append p (fresh (dom (heap m)))
         (set_heap
            (<[fresh (dom (heap m))
               := Disturbance (next_entity_id m + 1) mild 0]> (heap m))
            (set_next_entity_id (next_entity_id m + 1) m)))
| occ_shuffle order :
    order ≡ₚ schedule m → occurs m (set_schedule order m).

(** The steps of [setup_fixed_grid] once their draws are made:
    [setup_agent] with the entry point [p] drawn, [setup_door] with the
    state [b] drawn. *)
Definition enlist (m : RescueModel R) (p : Pos) : RescueModel R :=
  let '(uid, m) := get_next_id m in
  let '(agent, m) := alloc (TacticalAgent uid p 4 false) m in
  set_schedule (schedule m ++ [agent]) m.

Definition install_door (m : RescueModel R) (db : Z * Z * Z * Z * bool)
  : RescueModel R :=
  let '(r1, c1, _, _, is_open) := db in
  let '(uid, m) := get_next_id m in
  let '(o, m) := alloc (Gate uid is_open) m in
  cell_append (c1 - 1, r1 - 1) o m.

(** What [RescueModel(width, height)] builds from the wall flags [ws],
    the entry points [ps] drawn for the agents and the states [bs] drawn
    for the gates. *)
Definition built (seed : R) (width height : Z) (ws : gmap Pos Wall.flags)
    (ps : list Pos) (bs : list bool) : RescueModel R :=
  fold_left install_door (zip doors bs)
    (fold_left setup_fire fire_markers
       (fold_left setup_poi points_of_interest
          (fold_left enlist ps
             (set_entry_points
                ((λ '(r, c), (c - 1, r - 1)) <$> entry_points_data)
                (set_walls ws (blank_model seed width height)))))).

(** The states a run goes through, those in the middle of a turn
    included. *)
Inductive playable : RescueModel R → Prop :=
| playable_init seed width height g m g' :
    RescueModel_init seed width height g = Done (m, g') → playable m
| playable_occurs m m' : playable m → occurs m m' → playable m'.

(** The crew: the scheduled agents are distinct, six in number, and each
    stands on a cell of the grid with between 0 and 4 action points. *)
Definition crew_ok (m : RescueModel R) : Prop :=
  NoDup (schedule m)
  ∧ length (schedule m) = 6%nat
  ∧ ∀ a, a ∈ schedule m →
      ∃ u p ap c, heap m !! a = Some (TacticalAgent u p ap c)
                  ∧ in_grid m p ∧ 0 ≤ ap ≤ 4.

(** Entity ids: every object carries an id between 1 and the last id
    handed out, and no two objects carry the same id. *)
Definition ids_ok (m : RescueModel R) : Prop :=
  0 ≤ next_entity_id m
  ∧ (∀ x o, heap m !! x = Some o → 1 ≤ unique_id_of o ≤ next_entity_id m)
  ∧ ∀ x y ox oy,
      heap m !! x = Some ox → heap m !! y = Some oy →
      unique_id_of ox = unique_id_of oy → x = y.

(** The registered disturbances are mild with a counter of at most 3 or
    active with a counter of at most 5: none is grave. *)
Definition calm (m : RescueModel R) : Prop :=
  ∀ x u sev t,
    x ∈ concat (cell_contents m).*2 →
    heap m !! x = Some (Disturbance u sev t) →
    (sev = mild ∧ 0 ≤ t ≤ 3) ∨ (sev = active ∧ 0 ≤ t ≤ 5).

(** The two hostages, the false alarm and the eight gates of the scenario
    are all accounted for, and the counters are not negative. *)
Definition census_ok (m : RescueModel R) : Prop :=
  census m = 2
  ∧ 0 ≤ hostages_rescued m ∧ 0 ≤ hostages_lost m
  ∧ false_alarms_investigated m + registered m CFalseAlarm = 1
  ∧ 0 ≤ false_alarms_investigated m
  ∧ registered m CGate = 8.

(** The counters of [m'] are at least those of [m], and its wall flags
    are those of [m] with some of them cleared. *)
Definition ledger_le (m m' : RescueModel R) : Prop :=
  hostages_rescued m ≤ hostages_rescued m'
  ∧ hostages_lost m ≤ hostages_lost m'
  ∧ structural_damage m ≤ structural_damage m'
  ∧ false_alarms_investigated m ≤ false_alarms_investigated m'
  ∧ next_entity_id m ≤ next_entity_id m'
  ∧ dom (walls m') = dom (walls m)
  ∧ ∀ p s, wall_flag (walls m') p s = true → wall_flag (walls m) p s = true.

End Play.

(** A string without a comma. *)
Fixpoint comma_free (s : string) : Prop :=
  match s with
  | EmptyString => True
  | String c s' => String c EmptyString ≠ "," ∧ comma_free s'
  end.

Arguments cleared : simpl never.
Arguments advance_heap : simpl never.

(** ** Concrete worlds *)

(** The scenario of [setup_fixed_grid] on the default 8 x 6 grid, with
    both generators replaying the empty tape. *)
Definition initial_model : RescueModel (list Z) :=
  match RescueModel_init [] 8 6 [] with
  | Done (m, _) => m
  | _ => blank_model [] 8 6
  end.

(** The same scenario when the seventh draw of the module-level generator
    is 1: the gate of the first door, on cell (2, 0), starts closed. *)
Definition gated_model : RescueModel (list Z) :=
  match RescueModel_init [] 8 6 [0; 0; 0; 0; 0; 0; 1] with
  | Done (m, _) => m
  | _ => blank_model [] 8 6
  end.

(** A 1 x 1 world whose only cell is an entry point and holds an open
    gate. *)
Definition gate_on_entry_model : RescueModel (list Z) :=
  cell_append (0, 0) 0%nat
    (set_heap {[ 0%nat := Gate 1 true ]}
       (set_entry_points [(0, 0)] (blank_model [] 1 1))).

(** The one-cell rescue scenario: a 1 x 1 grid whose cell is the only
    entry point, one agent (address 0) on it, one hostage (address 1)
    registered in it unless already picked up, no gate, no hazard.  The
    parameters are the wall flags of the cell, the state of [self.random],
    the action points and [carrying_hostage] of the agent, the list the
    registry holds for the cell, [hostages_rescued] and [turn_counter]. *)
Definition rescue_world {R : Type} (w : Wall.flags) (r : R) (ap : Z)
    (carrying : bool) (cell : list loc) (rescued turns : Z) : RescueModel R :=
  {| grid_width := 1; grid_height := 1;
     schedule := [0%nat];
     heap := {[ 0%nat := TacticalAgent 1 (0, 0) ap carrying;
                1%nat := Hostage 2 ]};
     cell_contents := [((0, 0), cell)];
     running := true;
     hostages_rescued := rescued; hostages_lost := 0; structural_damage := 0;
     false_alarms_investigated := 0; next_entity_id := 2;
     turn_counter := turns; min_hidden_markers := 3;
     walls := {[ (0, 0) := w ]}; entry_points := [(0, 0)]; random := r;
     datacollector := [] |}.

(** The same scenario on a 2 x 1 grid without walls: the agent and the
    hostage are on the entry point (0, 0) and the cell (1, 0) is free. *)
Definition corridor_world : RescueModel (list Z) :=
  {| grid_width := 2; grid_height := 1;
     schedule := [0%nat];
     heap := {[ 0%nat := TacticalAgent 1 (0, 0) 4 false;
                1%nat := Hostage 2 ]};
     cell_contents := [((0, 0), [1%nat])];
     running := true;
     hostages_rescued := 0; hostages_lost := 0; structural_damage := 0;
     false_alarms_investigated := 0; next_entity_id := 2;
     turn_counter := 0; min_hidden_markers := 3;
     walls := {[ (0, 0) := Wall.Flags false false false false;
                 (1, 0) := Wall.Flags false false false false ]};
     entry_points := [(0, 0)]; random := [];
     datacollector := [] |}.




(** The scenario of [setup_fixed_grid] after one turn. *)
Definition after_first_turn : RescueModel (list Z) :=
  match step 10 initial_model with
  | Done m => m
  | _ => initial_model
  end.

(** ** Proof automation *)

(** Case analysis on every match of a goal about unchanged attributes. *)
Ltac frame_cases :=
  repeat first
    [ progress simplify_eq/=
    | case_match ];
  try (by repeat split).

(** A decidable proposition, by evaluation. *)
Ltac decide_tac :=
  match goal with
  | |- ?P => apply (bool_decide_unpack P); vm_compute; exact I
  end.

(** A cell given by numerals lies on a concrete grid. *)
Ltac in_grid_tac :=
  unfold in_grid; repeat split;
  first [apply Z.leb_le | apply Z.ltb_lt]; vm_compute; reflexivity.

(** Projections of [with_hazard] and nested uses of it. *)
Create Rewrite HintDb hazard.
Ltac hazard_norm := autorewrite with hazard.

(** * Properties *)

Section Properties.
Context {R : Type} `{!RandomSource R}.
Implicit Types (m : RescueModel R) (p : Pos) (s : Side).

(** ** Movement legality *)

Lemma can_move_to_unfold m from_pos to_pos :
  can_move_to m from_pos to_pos =
    (0 <=? to_pos.1) && (to_pos.1 <? grid_width m)
    && (0 <=? to_pos.2) && (to_pos.2 <? grid_height m)
    && negb (has_wall_between m from_pos to_pos)
    && match gates_at m to_pos with
       | g :: _ => is_open_of (heap m) g
       | [] => true
       end.
Proof.
  destruct from_pos as [fx fy], to_pos as [tx ty].
  unfold can_move_to, has_wall_between, gates_at. simpl.
  destruct ((0 <=? tx) && (tx <? grid_width m)
            && (0 <=? ty) && (ty <? grid_height m)); simpl; [|done].
  match goal with |- context [negb ?b] => destruct b end; simpl; [done|].
  destruct (List.filter _ _) as [|g gs]; [done|].
  by destruct (is_open_of (heap m) g).
Qed.

Lemma has_wall_between_neighbor m p s :
  has_wall_between m p (neighbor p s) = wall_flag (walls m) p s.
Proof.
  destruct p as [x y]. unfold has_wall_between.
  destruct s; simpl;
    repeat match goal with
      | |- context [?a =? ?b] =>
          first [ replace (a =? b) with true by (symmetry; apply Z.eqb_eq; lia)
                | replace (a =? b) with false by (symmetry; apply Z.eqb_neq; lia) ]
      end; simpl;
    rewrite ?orb_false_r; done.
Qed.


Lemma open_gate_head m (l : list loc) :
  has_closed_gate m l = false →
  match List.filter (isinstance (heap m) CGate) l with
  | g :: _ => is_open_of (heap m) g
  | [] => true
  end = true.
Proof.
  unfold has_closed_gate. intros Hex.
  destruct (List.filter _ l) as [|g gs] eqn:Hf; [done|].
  assert (Hin : In g (List.filter (isinstance (heap m) CGate) l))
    by (rewrite Hf; left; done).
  apply filter_In in Hin as [Hin Hgate].
  destruct (is_open_of (heap m) g) eqn:Hopen; [done|].
  assert (existsb
            (λ c, isinstance (heap m) CGate c && negb (is_open_of (heap m) c))
            l = true) as Hyes; [|congruence].
  apply existsb_exists. exists g. by rewrite Hgate, Hopen.
Qed.

(** C10 as amended.  [can_move_to] has no adjacency test: on an in-grid
    destination without a closed gate it is false exactly when one of the
    four direction tests matches a set flag of the source cell.  It is
    therefore true when neither difference is 1 or -1 (the source cell
    itself, a cell two or more away on both axes), while a diagonal cell is
    still subject to the flags its differences select. *)
Theorem can_move_to_no_adjacency_check m from_pos to_pos :
  in_grid m to_pos →
  has_closed_gate m (get_contents_at m to_pos) = false →
  let dx := to_pos.1 - from_pos.1 in
  let dy := to_pos.2 - from_pos.2 in
  (can_move_to m from_pos to_pos = false ↔
     (dx = 1 ∧ wall_flag (walls m) from_pos Right = true)
     ∨ (dx = -1 ∧ wall_flag (walls m) from_pos Left = true)
     ∨ (dy = 1 ∧ wall_flag (walls m) from_pos Bottom = true)
     ∨ (dy = -1 ∧ wall_flag (walls m) from_pos Top = true))
  ∧ (dx ≠ 1 → dx ≠ -1 → dy ≠ 1 → dy ≠ -1 →
     can_move_to m from_pos to_pos = true).
Proof.
  intros [[? ?] [? ?]] Hclosed dx dy.
  assert (Hcm : can_move_to m from_pos to_pos
                = negb (has_wall_between m from_pos to_pos)).
  { rewrite can_move_to_unfold. unfold gates_at.
    rewrite (open_gate_head _ _ Hclosed), andb_true_r.
    replace ((0 <=? to_pos.1) && (to_pos.1 <? grid_width m)
             && (0 <=? to_pos.2) && (to_pos.2 <? grid_height m)) with true;
      [done|].
    symmetry. repeat (apply andb_true_iff; split); lia. }
  rewrite Hcm. unfold has_wall_between. fold dx dy. split.
  - rewrite negb_false_iff, !orb_true_iff, !andb_true_iff, !Z.eqb_eq.
    tauto.
  - intros. apply negb_true_iff.
    rewrite !orb_false_iff, !andb_false_iff, !Z.eqb_neq. tauto.
Qed.

(** ** Breaking walls *)

Lemma wall_flag_clear_flag m p s q t :
  wall_flag (walls (clear_flag p s m)) q t =
    if decide ((q, t) = (p, s)) then false else wall_flag (walls m) q t.
Proof.
  unfold clear_flag, wall_flag. simpl. rewrite lookup_alter.
  destruct (decide (p = q)) as [->|Hpq].
  - destruct (walls m !! q) as [w|]; simpl.
    + destruct (decide (t = s)) as [->|Hts].
      * rewrite decide_True by done. by destruct s.
      * rewrite decide_False by congruence. by destruct s, t.
    + by case_decide.
  - rewrite decide_False by congruence. done.
Qed.

Lemma break_wall_between_neighbor m p s :
  break_wall_between p (neighbor p s) m =
    clear_flag (neighbor p s) (opposite s) (clear_flag p s m).
Proof.
  destruct p as [x y]. unfold break_wall_between.
  destruct s; simpl;
    repeat match goal with
      | |- context [?a =? ?b] =>
          first [ replace (a =? b) with true by (symmetry; apply Z.eqb_eq; lia)
                | replace (a =? b) with false by (symmetry; apply Z.eqb_neq; lia) ]
      end; done.
Qed.

Lemma neighbor_opposite p s : neighbor (neighbor p s) (opposite s) = p.
Proof. destruct p as [x y], s; simpl; f_equal; lia. Qed.

Lemma clear_flag_idemp2 m p s q t :
  clear_flag q t (clear_flag p s (clear_flag q t (clear_flag p s m)))
  = clear_flag q t (clear_flag p s m).
Proof.
  unfold clear_flag. simpl. unfold set_walls. simpl. f_equal.
  apply map_eq. intros i. rewrite !lookup_alter.
  repeat case_decide; subst; destruct (walls m !! i) as [w|]; simpl; try done;
    f_equal; destruct s, t, w; done.
Qed.

(** C7. For orthogonal neighbours [posA] and [posB], [break_wall_between]
    clears the flag of [posA] on the side of [posB] and the flag of [posB]
    on the side of [posA]; every other flag of every cell, the set of cells
    with an entry and the rest of the model are unchanged; afterwards
    [has_wall_between] is false in both directions, and breaking the same
    wall again changes nothing. *)
Theorem break_wall_between_symmetric m posA posB s :
  posB = neighbor posA s →
  let m' := break_wall_between posA posB m in
  wall_flag (walls m') posA s = false
  ∧ wall_flag (walls m') posB (opposite s) = false
  ∧ (∀ p t, (p, t) ≠ (posA, s) → (p, t) ≠ (posB, opposite s) →
            wall_flag (walls m') p t = wall_flag (walls m) p t)
  ∧ dom (walls m') = dom (walls m)
  ∧ m' = set_walls (walls m') m
  ∧ has_wall_between m' posA posB = false
  ∧ has_wall_between m' posB posA = false
  ∧ break_wall_between posA posB m' = m'.
Proof.
  intros -> m'. subst m'. rewrite !break_wall_between_neighbor.
  assert (HA : ∀ m0 : RescueModel R,
             wall_flag
               (walls (clear_flag (neighbor posA s) (opposite s)
                         (clear_flag posA s m0))) posA s = false).
  { intros m0. rewrite !wall_flag_clear_flag.
    case_decide; [done|]. by rewrite decide_True. }
  assert (HB : ∀ m0 : RescueModel R,
             wall_flag
               (walls (clear_flag (neighbor posA s) (opposite s)
                         (clear_flag posA s m0)))
               (neighbor posA s) (opposite s) = false).
  { intros m0. rewrite !wall_flag_clear_flag. by rewrite decide_True. }
  split; [apply HA|]. split; [apply HB|]. split.
  { intros p t H1 H2. rewrite !wall_flag_clear_flag.
    by rewrite !decide_False. }
  split.
  { unfold clear_flag. simpl. apply set_eq. intros i.
    by rewrite !dom_alter. }
  split; [done|]. split.
  { rewrite has_wall_between_neighbor. apply HA. }
  split.
  { match goal with
    | |- has_wall_between ?m1 _ _ = _ =>
        pose proof (has_wall_between_neighbor m1 (neighbor posA s)
                      (opposite s)) as Hn
    end.
    rewrite neighbor_opposite in Hn. rewrite Hn. apply HB. }
  apply clear_flag_idemp2.
Qed.

(** ** Outcome evaluator *)

(** [check_game_over] and [get_final_stats] apply the tests to the
    counters in the order rescued, lost, damage; when none holds the model
    is left as it is and the tag is the time-out one. *)
Lemma outcome_priority_counters m :
  (7 ≤ hostages_rescued m →
   fs_result (get_final_stats m) = "VICTORIA"
   ∧ running (check_game_over m) = false)
  ∧ (hostages_rescued m < 7 → 4 ≤ hostages_lost m →
     fs_result (get_final_stats m) = "DERROTA (Muchas víctimas perdidas)"
     ∧ running (check_game_over m) = false)
  ∧ (hostages_rescued m < 7 → hostages_lost m < 4 →
     25 ≤ structural_damage m →
     fs_result (get_final_stats m) = "DERROTA (Colapso estructural)"
     ∧ running (check_game_over m) = false)
  ∧ (hostages_rescued m < 7 → hostages_lost m < 4 →
     structural_damage m < 25 →
     fs_result (get_final_stats m) = "TIEMPO AGOTADO"
     ∧ check_game_over m = m).
Proof.
  unfold get_final_stats, check_game_over. simpl.
  repeat split; intros;
    repeat match goal with
      | |- context [?a <=? ?b] =>
          first [ replace (a <=? b) with true by (symmetry; apply Z.leb_le; lia)
                | replace (a <=? b) with false by (symmetry; apply Z.leb_gt; lia) ]
      end; simpl; rewrite ?orb_true_r; done.
Qed.

(** ** Snapshot *)

Lemma filter_head_existsb {A} (f : A → bool) (l : list A) x :
  head (List.filter f l) = Some x → existsb f l = true ∧ f x = true.
Proof.
  induction l as [|y l IH]; simpl; [done|].
  destruct (f y) eqn:Hy; simpl; [|done].
  intros [= ->]. done.
Qed.

Lemma gs_grid_lookup m x y :
  in_grid m (x, y) →
  gs_grid (get_grid_state m) !! Z.to_nat y ≫= (.!! Z.to_nat x)
  = Some (cell_code m (x, y)).
Proof.
  intros [[? ?] [? ?]]. simpl in *.
  rewrite list_lookup_fmap, lookup_seqZ_lt by lia. simpl.
  rewrite list_lookup_fmap, lookup_seqZ_lt by lia. simpl.
  do 3 f_equal; lia.
Qed.

(** C4 as amended.  The code written for a cell follows the order agent,
    hostage, disturbance (by the severity of the first one), false alarm,
    gate (by the state of the first one), entry point, empty: a gate
    outranks the entry-point mark.  The snapshot holds that code at
    [[y][x]]. *)
Theorem cell_code_priority m p :
  let c := get_contents_at m p in
  (holds m CTacticalAgent p = true → cell_code m p = 2)
  ∧ (holds m CTacticalAgent p = false → holds m CHostage p = true →
     cell_code m p = 3)
  ∧ (holds m CTacticalAgent p = false → holds m CHostage p = false →
     ∀ d, find_instance m CDisturbance c = Some d →
          cell_code m p = match severity_of (heap m) d with
                          | Some grave => 8
                          | Some active => 5
                          | _ => 4
                          end)
  ∧ (holds m CTacticalAgent p = false → holds m CHostage p = false →
     holds m CDisturbance p = false → holds m CFalseAlarm p = true →
     cell_code m p = 7)
  ∧ (holds m CTacticalAgent p = false → holds m CHostage p = false →
     holds m CDisturbance p = false → holds m CFalseAlarm p = false →
     ∀ g, find_instance m CGate c = Some g →
          cell_code m p = if is_open_of (heap m) g then 9 else 10)
  ∧ (holds m CTacticalAgent p = false → holds m CHostage p = false →
     holds m CDisturbance p = false → holds m CFalseAlarm p = false →
     holds m CGate p = false →
     cell_code m p = if bool_decide (p ∈ entry_points m) then 6 else 0)
  ∧ (in_grid m p →
     gs_grid (get_grid_state m) !! Z.to_nat p.2 ≫= (.!! Z.to_nat p.1)
     = Some (cell_code m p)).
Proof.
  intros c. subst c. unfold holds, cell_code, find_instance.
  repeat split.
  - by intros ->.
  - by intros -> ->.
  - intros -> -> d Hd.
    destruct (filter_head_existsb _ _ _ Hd) as [-> _].
    destruct (List.filter _ _) as [|d' ds]; simpl in Hd; [done|].
    by injection Hd as ->.
  - by intros -> -> -> ->.
  - intros -> -> -> -> g Hg.
    destruct (filter_head_existsb _ _ _ Hg) as [-> _].
    destruct (List.filter _ _) as [|g' gs]; simpl in Hg; [done|].
    by injection Hg as ->.
  - by intros -> -> -> -> ->.
  - destruct p as [x y]. apply gs_grid_lookup.
Qed.

(** ** One turn leaves [running] to the outcome evaluator *)

Lemma bind_Done {A B} (x : outcome A) (f : A → outcome B) b :
  x ≫= f = Done b ↔ ∃ a, x = Done a ∧ f a = Done b.
Proof.
  destruct x as [a| |]; simpl.
  - split; [eauto|]. by intros (a' & [= ->] & ?).
  - split; [done|]. by intros (? & ? & ?).
  - split; [done|]. by intros (? & ? & ?).
Qed.

Lemma same_frame_refl m : same_frame m m.
Proof. by repeat split. Qed.

Lemma same_frame_trans m1 m2 m3 :
  same_frame m1 m2 → same_frame m2 m3 → same_frame m1 m3.
Proof.
  unfold same_frame. intros (?&?&?&?&?&?&?) (?&?&?&?&?&?&?).
  repeat split; congruence.
Qed.

Lemma frame_remove_entity m e p : same_frame m (remove_entity e p m).
Proof. unfold remove_entity. frame_cases. Qed.

Lemma frame_break_wall_between m p q : same_frame m (break_wall_between p q m).
Proof. unfold break_wall_between, clear_flag. frame_cases. Qed.

Lemma frame_set_action_points m self ap m' :
  set_action_points self ap m = Done m' → same_frame m m'.
Proof. unfold set_action_points. intros. frame_cases. Qed.

Lemma frame_set_pos m self p m' :
  set_pos self p m = Done m' → same_frame m m'.
Proof. unfold set_pos. intros. frame_cases. Qed.

Lemma frame_set_carrying_hostage m self c m' :
  set_carrying_hostage self c m = Done m' → same_frame m m'.
Proof. unfold set_carrying_hostage. intros. frame_cases. Qed.

Lemma frame_set_is_open m g b m' :
  set_is_open g b m = Done m' → same_frame m m'.
Proof. unfold set_is_open. intros. frame_cases. Qed.

Lemma frame_apply_action m self p a m' :
  apply_action self p a m = Done m' → same_frame m m'.
Proof.
  destruct a; simpl; intros H.
  - by eapply frame_set_pos.
  - apply bind_Done in H as (m1 & H1 & [= <-]).
    eapply same_frame_trans; [by eapply frame_set_carrying_hostage|].
    apply frame_remove_entity.
  - injection H as <-.
    eapply same_frame_trans; [|apply frame_remove_entity]. by repeat split.
  - apply bind_Done in H as (m1 & H1 & [= <-]).
    eapply same_frame_trans; [by eapply frame_set_carrying_hostage|].
    by repeat split.
  - injection H as <-. apply frame_remove_entity.
  - by eapply frame_set_is_open.
  - by eapply frame_set_is_open.
  - injection H as <-.
    eapply same_frame_trans; [apply frame_break_wall_between|].
    by repeat split.
Qed.

Lemma frame_spend m self cost m' : spend self cost m = Done m' → same_frame m m'.
Proof.
  unfold spend. intros H. repeat case_match; try done.
  by eapply frame_set_action_points.
Qed.

Lemma frame_step_loop fuel self m log m' :
  step_loop fuel self m = Done (log, m') → same_frame m m'.
Proof.
  revert m log m'. induction fuel as [|fuel IH]; intros m log m'; [done|].
  simpl. destruct (heap m !! self) as [[| | | |u p ap c]|]; try done.
  destruct (negb (0 <? ap)); [intros [= <- <-]; apply same_frame_refl|].
  destruct (possible_actions m p ap c) as [|a0 acts];
    [intros [= <- <-]; apply same_frame_refl|].
  intros H.
  apply bind_Done in H as ([[a cost] r'] & _ & H). simpl in H.
  apply bind_Done in H as (m1 & H1 & H).
  apply bind_Done in H as (m2 & H2 & H).
  apply bind_Done in H as ([log' m3] & H3 & [= <- <-]).
  apply frame_apply_action in H1. apply frame_spend in H2. apply IH in H3.
  eapply same_frame_trans; [|exact H3].
  eapply same_frame_trans; [|exact H2].
  eapply same_frame_trans; [|exact H1]. by repeat split.
Qed.

Lemma frame_TacticalAgent_step fuel self m log m' :
  TacticalAgent_step fuel self m = Done (log, m') → same_frame m m'.
Proof.
  unfold TacticalAgent_step. intros H.
  apply bind_Done in H as (m1 & H1 & H).
  eapply same_frame_trans; [by eapply frame_set_action_points|].
  by eapply frame_step_loop.
Qed.

Lemma frame_activate fuel order m m' :
  activate fuel order m = Done m' → same_frame m m'.
Proof.
  revert m. induction order as [|a order IH]; intros m; simpl.
  - intros [= <-]. apply same_frame_refl.
  - intros H. apply bind_Done in H as ([log m1] & H1 & H).
    eapply same_frame_trans; [by eapply frame_TacticalAgent_step|].
    by apply IH.
Qed.

Lemma frame_schedule_step fuel m m' :
  schedule_step fuel m = Done m' →
  same_frame (set_schedule (rnd_shuffle (schedule m) (random m)).1 m) m'.
Proof.
  unfold schedule_step. destruct (rnd_shuffle _ _) as [order r'].
  intros H. apply frame_activate in H.
  eapply same_frame_trans; [|exact H]. by repeat split.
Qed.

Lemma frame_fold_left {A} (f : RescueModel R → A → RescueModel R) (l : list A) m :
  (∀ m0 x, same_frame m0 (f m0 x)) → same_frame m (fold_left f l m).
Proof.
  intros Hf. revert m. induction l as [|x l IH]; intros m; simpl.
  - apply same_frame_refl.
  - eapply same_frame_trans; [apply Hf|apply IH].
Qed.

Lemma frame_handle_explosion m p contents :
  same_frame m (handle_explosion p contents m).
Proof.
  unfold handle_explosion.
  eapply same_frame_trans; [|apply frame_fold_left].
  - eapply same_frame_trans; [|apply frame_fold_left].
    + by repeat split.
    + intros m0 x.
      eapply same_frame_trans; [|apply frame_remove_entity]. by repeat split.
  - intros m0 x. apply frame_remove_entity.
Qed.

Lemma frame_advance_disturbance m p d :
  same_frame m (advance_disturbance p d m).
Proof.
  unfold advance_disturbance.
  repeat case_match; try apply same_frame_refl; try (by repeat split).
  eapply same_frame_trans; [|apply frame_handle_explosion]. by repeat split.
Qed.

Lemma frame_advance_cell m p : same_frame m (advance_cell m p).
Proof.
  unfold advance_cell. apply frame_fold_left.
  intros. apply frame_advance_disturbance.
Qed.

Lemma frame_escalate m : same_frame m (escalate m).
Proof. unfold escalate. apply frame_fold_left. apply frame_advance_cell. Qed.

Lemma frame_get_available_cell fuel m p m' :
  get_available_cell fuel m = Done (p, m') → same_frame m m'.
Proof.
  revert m. induction fuel as [|fuel IH]; intros m; [done|]. simpl.
  intros H.
  apply bind_Done in H as ([x r1] & _ & H). simpl in H.
  apply bind_Done in H as ([y r2] & _ & H). simpl in H.
  destruct (negb _).
  - injection H as <- <-. by repeat split.
  - apply IH in H. eapply same_frame_trans; [|exact H]. by repeat split.
Qed.

Lemma frame_spawn fuel m m' : spawn fuel m = Done m' → same_frame m m'.
Proof.
  unfold spawn. destruct (rnd_random _) as [k r'].
  destruct (lt_0_05 k).
  - intros H. apply bind_Done in H as ([p m1] & H1 & H).
    apply frame_get_available_cell in H1.
    eapply same_frame_trans; [|eapply same_frame_trans; [exact H1|]].
    { by repeat split. }
    destruct (negb _); injection H as <-; by repeat split.
  - intros [= <-]. by repeat split.
Qed.

Lemma frame_advance_disturbances fuel m m' :
  advance_disturbances fuel m = Done m' → same_frame m m'.
Proof.
  unfold advance_disturbances. intros H.
  eapply same_frame_trans; [apply frame_escalate|]. by eapply frame_spawn.
Qed.

(** C8. After a turn the evaluator has applied the terminal tests to the
    counters the turn produced, in the order rescued, lost, damage: a
    terminal test clears [running] and fixes the result tag by the first
    test that holds; when none holds [running] is what it was before the
    turn and the tag is the time-out one. *)
Theorem outcome_priority fuel m m' :
  step fuel m = Done m' →
  (7 ≤ hostages_rescued m' →
   running m' = false ∧ fs_result (get_final_stats m') = "VICTORIA")
  ∧ (hostages_rescued m' < 7 → 4 ≤ hostages_lost m' →
     running m' = false
     ∧ fs_result (get_final_stats m') = "DERROTA (Muchas víctimas perdidas)")
  ∧ (hostages_rescued m' < 7 → hostages_lost m' < 4 →
     25 ≤ structural_damage m' →
     running m' = false
     ∧ fs_result (get_final_stats m') = "DERROTA (Colapso estructural)")
  ∧ (hostages_rescued m' < 7 → hostages_lost m' < 4 →
     structural_damage m' < 25 →
     running m' = running m
     ∧ fs_result (get_final_stats m') = "TIEMPO AGOTADO").
Proof.
  unfold step. intros H.
  apply bind_Done in H as (m1 & H1 & H).
  apply bind_Done in H as (m2 & H2 & [= <-]).
  apply frame_schedule_step in H1 as [Hr1 _].
  apply frame_advance_disturbances in H2 as [Hr2 _].
  simpl in Hr1.
  destruct (outcome_priority_counters m2) as (Hv & Hl & Hd & Hc).
  assert (Hsame : ∀ m0 : RescueModel R,
             hostages_rescued (check_game_over m0) = hostages_rescued m0
             ∧ hostages_lost (check_game_over m0) = hostages_lost m0
             ∧ structural_damage (check_game_over m0) = structural_damage m0).
  { intros m0. unfold check_game_over. by destruct (_ || _). }
  destruct (Hsame m2) as (E1 & E2 & E3).
  unfold get_final_stats in *. simpl in *. rewrite E1, E2, E3.
  repeat split; intros.
  - by apply Hv.
  - by apply Hv.
  - by apply Hl.
  - by apply Hl.
  - by apply Hd.
  - by apply Hd.
  - destruct Hc as [_ ->]; [done..|]. congruence.
  - by apply Hc.
Qed.

(** ** The action-point budget of an agent's turn *)

Lemma Forall_flat_map {A B} (P : B → Prop) (f : A → list B) (l : list A) :
  (∀ x, Forall P (f x)) → Forall P (flat_map f l).
Proof.
  intros Hf. induction l as [|x l IH]; simpl; [constructor|].
  apply Forall_app. split; [apply Hf|apply IH].
Qed.

Lemma possible_actions_sound m p ap c :
  Forall (λ ac, (1 ≤ ac.2 ≤ ap) ∧ action_ok m ac.1) (possible_actions m p ap c).
Proof.
  unfold possible_actions. repeat (apply Forall_app; split).
  - apply Forall_flat_map. intros q.
    destruct (can_move_to m p q); [|constructor].
    destruct (existsb _ _); destruct (_ <=? ap) eqn:Hc; repeat constructor;
      simpl; apply Z.leb_le in Hc; lia.
  - destruct (negb c); [|constructor].
    destruct (find_instance _ _ _); [|constructor].
    destruct (2 <=? ap) eqn:Hc; repeat constructor; simpl;
      apply Z.leb_le in Hc; lia.
  - destruct (find_instance _ _ _); [|constructor].
    destruct (1 <=? ap) eqn:Hc; repeat constructor; simpl;
      apply Z.leb_le in Hc; lia.
  - destruct (c && _ && (1 <=? ap)) eqn:Hc; repeat constructor; simpl;
      apply andb_true_iff in Hc as [_ Hc]; apply Z.leb_le in Hc; lia.
  - destruct (find_instance _ _ _) as [d|]; [|constructor].
    destruct (bool_decide _ && (1 <=? ap)) eqn:Hc1.
    { apply andb_true_iff in Hc1 as [_ Hc]. apply Z.leb_le in Hc.
      repeat constructor; simpl; lia. }
    destruct (bool_decide _ && (2 <=? ap)) eqn:Hc2; [|constructor].
    apply andb_true_iff in Hc2 as [_ Hc]. apply Z.leb_le in Hc.
    repeat constructor; simpl; lia.
  - destruct (find_instance _ _ _) as [g|] eqn:Hg; [|constructor].
    apply filter_head_existsb in Hg as [_ Hg].
    destruct (1 <=? ap) eqn:Hc; [|constructor]. apply Z.leb_le in Hc.
    repeat constructor; simpl; try lia.
    by destruct (is_open_of (heap m) g).
  - destruct (2 <=? ap) eqn:Hc; [|constructor]. apply Z.leb_le in Hc.
    apply Forall_flat_map. intros q.
    destruct (has_wall_between m p q); repeat constructor; simpl; lia.
Qed.

Lemma choice_total {A} (l : list A) (r : R) :
  l ≠ [] → ∃ x r', choice l r = Done (x, r') ∧ x ∈ l.
Proof.
  intros Hl. unfold choice. destruct l as [|y l]; [done|].
  pose proof (rnd_randbelow_range (Z.of_nat (length (y :: l))) r) as Hi.
  destruct (rnd_randbelow _ r) as [i r1]. simpl in Hi.
  destruct ((y :: l) !! Z.to_nat i) as [z|] eqn:Hz.
  - exists z, r1. split; [done|]. by eapply list_elem_of_lookup_2.
  - apply lookup_ge_None in Hz. simpl in Hz. lia.
Qed.

Lemma apply_action_agent m self p0 a u p ap c :
  heap m !! self = Some (TacticalAgent u p ap c) →
  action_ok m a →
  ∃ m' u' p' c',
    apply_action self p0 a m = Done m'
    ∧ heap m' !! self = Some (TacticalAgent u' p' ap c').
Proof.
  intros Hself Hok.
  assert (Hrm : ∀ e q (m0 : RescueModel R), heap (remove_entity e q m0) = heap m0).
  { intros e q m0. unfold remove_entity. by repeat case_match. }
  assert (Hbw : ∀ q1 q2 (m0 : RescueModel R),
             heap (break_wall_between q1 q2 m0) = heap m0).
  { intros q1 q2 m0. unfold break_wall_between, clear_flag.
    by repeat case_match. }
  destruct a; simpl in *.
  - unfold set_pos. rewrite Hself. eexists _, _, _, _. split; [done|].
    simpl. apply lookup_insert_eq.
  - unfold set_carrying_hostage. rewrite Hself. simpl.
    eexists _, _, _, _. split; [done|]. rewrite Hrm. simpl.
    apply lookup_insert_eq.
  - eexists _, _, _, _. split; [done|]. rewrite Hrm. simpl. exact Hself.
  - unfold set_carrying_hostage. rewrite Hself. simpl.
    eexists _, _, _, _. split; [done|]. simpl. apply lookup_insert_eq.
  - eexists _, _, _, _. split; [done|]. rewrite Hrm. exact Hself.
  - unfold set_is_open, isinstance in *.
    destruct (heap m !! target) as [[| |ug og| |]|] eqn:Hg; try done.
    eexists _, _, _, _. split; [done|]. simpl.
    rewrite lookup_insert_ne; [exact Hself|]. congruence.
  - unfold set_is_open, isinstance in *.
    destruct (heap m !! target) as [[| |ug og| |]|] eqn:Hg; try done.
    eexists _, _, _, _. split; [done|]. simpl.
    rewrite lookup_insert_ne; [exact Hself|]. congruence.
  - eexists _, _, _, _. split; [done|]. simpl. rewrite Hbw. exact Hself.
Qed.

Lemma spend_agent m self cost u p ap c :
  heap m !! self = Some (TacticalAgent u p ap c) →
  ∃ m', spend self cost m = Done m'
        ∧ heap m' !! self = Some (TacticalAgent u p (ap - cost) c).
Proof.
  intros Hself. unfold spend, set_action_points. rewrite Hself.
  eexists. split; [done|]. simpl. apply lookup_insert_eq.
Qed.

Lemma final_ap_le ap log :
  budget_log ap log → final_ap ap log ≤ ap - Z.of_nat (length log).
Proof.
  revert ap. induction log as [|[[ap0 a] cost] log IH]; intros ap;
    simpl budget_log; simpl final_ap.
  - simpl. lia.
  - intros (-> & ? & Hrest). apply IH in Hrest.
    change (length ((ap, a, cost) :: log)) with (S (length log)). lia.
Qed.

Lemma step_loop_budget fuel m self u p ap c :
  heap m !! self = Some (TacticalAgent u p ap c) →
  0 ≤ ap →
  (Z.to_nat ap < fuel)%nat →
  ∃ log m' u' p' c',
    step_loop fuel self m = Done (log, m')
    ∧ budget_log ap log
    ∧ (length log ≤ Z.to_nat ap)%nat
    ∧ heap m' !! self = Some (TacticalAgent u' p' (final_ap ap log) c')
    ∧ 0 ≤ final_ap ap log.
Proof.
  revert m u p ap c. induction fuel as [|fuel IH]; intros m u p ap c Hself Hap Hfuel;
    [lia|].
  simpl. rewrite Hself.
  destruct (0 <? ap) eqn:Hpos; simpl.
  2:{ exists [], m, u, p, c. simpl. repeat split; try done; lia. }
  apply Z.ltb_lt in Hpos.
  pose proof (possible_actions_sound m p ap c) as Hsound.
  destruct (possible_actions m p ap c) as [|a0 acts] eqn:Hacts.
  { exists [], m, u, p, c. simpl. repeat split; try done; lia. }
  destruct (choice_total (a0 :: acts) (random m)) as ([a cost] & r' & Hch & Hin);
    [done|].
  rewrite Hch. simpl.
  rewrite Forall_forall in Hsound.
  destruct (Hsound _ Hin) as [Hcost Hok]. simpl in Hcost, Hok.
  destruct (apply_action_agent (set_random r' m) self p a u p ap c Hself Hok)
    as (m1 & u1 & p1 & c1 & Happ & Hself1).
  rewrite Happ. simpl.
  destruct (spend_agent m1 self cost _ _ _ _ Hself1) as (m2 & Hsp & Hself2).
  rewrite Hsp. simpl.
  destruct (IH m2 u1 p1 (ap - cost) c1 Hself2) as
    (log & m3 & u3 & p3 & c3 & Hloop & Hlog & Hlen & Hself3 & Hfin);
    [lia|lia|].
  rewrite Hloop. simpl.
  exists ((ap, a, cost) :: log), m3, u3, p3, c3. simpl.
  repeat split; try done; lia.
Qed.

(** C6. An activation sets [action_points] to 4 whatever it was; every
    action applied was chosen with the points then left, costs at least 1
    and at most those points, and leaves the difference; the loop applies
    at most 4 actions, returns within 5 evaluations of its test, and
    leaves between 0 and 4 points: none when it applied 4 actions, so that
    its body runs at most 4 times. *)
Theorem TacticalAgent_step_budget fuel m self u p ap c :
  heap m !! self = Some (TacticalAgent u p ap c) →
  (5 ≤ fuel)%nat →
  ∃ log m' u' p' c',
    TacticalAgent_step fuel self m = Done (log, m')
    ∧ budget_log 4 log
    ∧ (length log ≤ 4)%nat
    ∧ heap m' !! self = Some (TacticalAgent u' p' (final_ap 4 log) c')
    ∧ 0 ≤ final_ap 4 log ≤ 4
    ∧ (length log = 4%nat → final_ap 4 log = 0).
Proof.
  intros Hself Hfuel. unfold TacticalAgent_step, set_action_points.
  rewrite Hself. simpl.
  destruct (step_loop_budget fuel
              (set_heap (<[self := TacticalAgent u p 4 c]> (heap m)) m)
              self u p 4 c) as
    (log & m' & u' & p' & c' & Hloop & Hlog & Hlen & Hself' & Hfin).
  { simpl. apply lookup_insert_eq. }
  { lia. }
  { change (Z.to_nat 4) with 4%nat. lia. }
  exists log, m', u', p', c'.
  change (Z.to_nat 4) with 4%nat in Hlen.
  pose proof (final_ap_le _ _ Hlog). repeat split; try done; lia.
Qed.

(** ** Ordered dictionaries and [list.remove] *)

Lemma od_lookup_store {V} (d : list (Pos * V)) p q (v : V) :
  od_lookup q (od_store p v d) = if decide (q = p) then Some v else od_lookup q d.
Proof.
  induction d as [|[k w] d IH]; simpl.
  - repeat case_decide; congruence.
  - destruct (decide (k = p)) as [->|Hkp]; simpl.
    + repeat case_decide; congruence.
    + rewrite IH. repeat case_decide; congruence.
Qed.

Lemma list_remove_first_notin x (l : list loc) :
  x ∉ l → list_remove_first x l = l.
Proof.
  induction l as [|y l IH]; simpl; [done|].
  rewrite not_elem_of_cons. intros [Hxy Hx].
  rewrite decide_False by done. by rewrite IH.
Qed.

Lemma fold_remove_keep (xs : list loc) a (L : list loc) :
  a ∉ xs →
  fold_left (λ L x, list_remove_first x L) xs (a :: L)
  = a :: fold_left (λ L x, list_remove_first x L) xs L.
Proof.
  revert L. induction xs as [|x xs IH]; intros L; simpl; [done|].
  rewrite not_elem_of_cons. intros [Hax Ha].
  rewrite decide_False by done. by apply IH.
Qed.

(** Removing, one by one, the elements of [l] that satisfy [P] from the
    elements of [l] that satisfy [Q] leaves those that satisfy [Q] and not
    [P]. *)
Lemma fold_remove_filter (P Q : loc → bool) (l : list loc) :
  fold_left (λ L x, list_remove_first x L) (List.filter P l) (List.filter Q l)
  = List.filter (λ x, Q x && negb (P x)) l.
Proof.
  induction l as [|a l IH]; simpl; [done|].
  destruct (P a) eqn:HP, (Q a) eqn:HQ; simpl.
  - rewrite decide_True by done. exact IH.
  - rewrite list_remove_first_notin; [exact IH|].
    rewrite list_elem_of_In, filter_In. intros [_ ?]. congruence.
  - rewrite fold_remove_keep; [by rewrite IH|].
    rewrite list_elem_of_In, filter_In. intros [_ ?]. congruence.
  - exact IH.
Qed.

Lemma filter_true {A} (l : list A) : List.filter (λ _, true) l = l.
Proof. induction l; simpl; congruence. Qed.

Lemma od_store_store {V} (d : list (Pos * V)) p (v w : V) :
  od_store p w (od_store p v d) = od_store p w d.
Proof.
  induction d as [|[k u] d IH]; simpl.
  - by rewrite decide_True.
  - destruct (decide (k = p)) as [->|Hkp]; simpl.
    + by rewrite decide_True.
    + rewrite decide_False by done. by rewrite IH.
Qed.

Lemma od_store_id {V} (d : list (Pos * V)) p (v : V) :
  od_lookup p d = Some v → od_store p v d = d.
Proof.
  induction d as [|[k u] d IH]; simpl; [done|].
  destruct (decide (k = p)) as [->|Hkp]; [by intros [= ->]|].
  intros H. by rewrite IH.
Qed.

(** ** The explosion *)

Lemma set_cell_contents_id m : set_cell_contents (cell_contents m) m = m.
Proof. by destruct m. Qed.

Lemma set_cell_contents_twice m c1 c2 :
  set_cell_contents c2 (set_cell_contents c1 m) = set_cell_contents c2 m.
Proof. done. Qed.

Lemma with_hazard_id m :
  with_hazard (cell_contents m) (hostages_lost m) (structural_damage m)
    (heap m) m = m.
Proof. by destruct m. Qed.

Lemma with_hazard_twice m c1 l1 d1 h1 c2 l2 d2 h2 :
  with_hazard c2 l2 d2 h2 (with_hazard c1 l1 d1 h1 m) = with_hazard c2 l2 d2 h2 m.
Proof. by destruct m. Qed.

Lemma with_hazard_heap m c l d h : heap (with_hazard c l d h m) = h.
Proof. done. Qed.

Lemma with_hazard_cell_contents m c l d h :
  cell_contents (with_hazard c l d h m) = c.
Proof. done. Qed.

Lemma with_hazard_hostages_lost m c l d h :
  hostages_lost (with_hazard c l d h m) = l.
Proof. done. Qed.

Lemma with_hazard_structural_damage m c l d h :
  structural_damage (with_hazard c l d h m) = d.
Proof. done. Qed.

Lemma set_cell_contents_hazard m c :
  set_cell_contents c m
  = with_hazard c (hostages_lost m) (structural_damage m) (heap m) m.
Proof. by destruct m. Qed.

Lemma set_heap_hazard m h :
  set_heap h m
  = with_hazard (cell_contents m) (hostages_lost m) (structural_damage m) h m.
Proof. by destruct m. Qed.

Lemma set_hostages_lost_hazard m l :
  set_hostages_lost l m
  = with_hazard (cell_contents m) l (structural_damage m) (heap m) m.
Proof. by destruct m. Qed.

Lemma set_structural_damage_hazard m d :
  set_structural_damage d m
  = with_hazard (cell_contents m) (hostages_lost m) d (heap m) m.
Proof. by destruct m. Qed.

#[local] Hint Rewrite with_hazard_twice with_hazard_heap
  with_hazard_cell_contents with_hazard_hostages_lost
  with_hazard_structural_damage : hazard.

Lemma remove_entity_eq m e p L :
  od_lookup p (cell_contents m) = Some L →
  remove_entity e p m
  = set_cell_contents (od_store p (list_remove_first e L) (cell_contents m)) m.
Proof.
  intros HL. unfold remove_entity. rewrite HL. case_bool_decide as He; [done|].
  rewrite list_remove_first_notin, od_store_id by done.
  by rewrite set_cell_contents_id.
Qed.

Lemma fold_remove_entity_eq m p xs L :
  od_lookup p (cell_contents m) = Some L →
  fold_left (λ m x, remove_entity x p m) xs m
  = set_cell_contents
      (od_store p (fold_left (λ L x, list_remove_first x L) xs L)
         (cell_contents m)) m.
Proof.
  revert m L. induction xs as [|x xs IH]; intros m L HL; simpl fold_left.
  - by rewrite od_store_id, set_cell_contents_id.
  - rewrite (remove_entity_eq _ _ _ _ HL).
    erewrite IH;
      [|change (cell_contents (set_cell_contents ?c _)) with c;
        rewrite od_lookup_store; by rewrite decide_True].
    change (cell_contents (set_cell_contents ?c _)) with c.
    by rewrite od_store_store, set_cell_contents_twice.
Qed.

Lemma fold_lose_hostages_eq m p xs L :
  od_lookup p (cell_contents m) = Some L →
  fold_left
    (λ m h, remove_entity h p (set_hostages_lost (hostages_lost m + 1) m)) xs m
  = with_hazard
      (od_store p (fold_left (λ L x, list_remove_first x L) xs L)
         (cell_contents m))
      (hostages_lost m + Z.of_nat (length xs))
      (structural_damage m) (heap m) m.
Proof.
  revert m L. induction xs as [|x xs IH]; intros m L HL; simpl fold_left.
  - rewrite od_store_id by done. simpl length.
    rewrite Z.add_0_r. apply eq_sym, with_hazard_id.
  - rewrite (remove_entity_eq _ _ _ L) by done.
    rewrite set_hostages_lost_hazard, set_cell_contents_hazard. hazard_norm.
    erewrite IH; [|hazard_norm; rewrite od_lookup_store; by rewrite decide_True].
    hazard_norm. rewrite od_store_store. f_equal. simpl length. lia.
Qed.

(** What an explosion does to the model, when [contents] is the list the
    registry holds for the cell. *)
Lemma handle_explosion_eq m p L :
  od_lookup p (cell_contents m) = Some L →
  handle_explosion p L m
  = with_hazard
      (od_store p (cleared (heap m) L) (cell_contents m))
      (hostages_lost m + hostages_in (heap m) L)
      (structural_damage m + 1) (heap m) m.
Proof.
  intros HL. unfold handle_explosion. cbv zeta.
  rewrite set_structural_damage_hazard.
  rewrite (fold_lose_hostages_eq _ p _ L) by (by hazard_norm).
  hazard_norm.
  erewrite fold_remove_entity_eq;
    [|hazard_norm; rewrite od_lookup_store; by rewrite decide_True].
  rewrite set_cell_contents_hazard. hazard_norm.
  rewrite od_store_store.
  pose proof (fold_remove_filter (isinstance (heap m) CHostage) (λ _, true) L)
    as E1.
  rewrite filter_true in E1. rewrite E1, fold_remove_filter. done.
Qed.

Lemma same_classes_refl h : same_classes h h.
Proof. by intros x. Qed.

Lemma same_classes_trans h1 h2 h3 :
  same_classes h1 h2 → same_classes h2 h3 → same_classes h1 h3.
Proof. intros H12 H23 x. by rewrite H23, H12. Qed.

Lemma isinstance_same_classes h h' k x :
  same_classes h h' → isinstance h' k x = isinstance h k x.
Proof.
  intros Hc. unfold isinstance. specialize (Hc x).
  destruct (h' !! x), (h !! x); simpl in Hc; try done. by injection Hc as ->.
Qed.

Lemma cleared_same_classes h h' l :
  same_classes h h' → cleared h' l = cleared h l.
Proof.
  intros Hc. unfold cleared. apply filter_ext. intros x.
  by rewrite !(isinstance_same_classes h h').
Qed.

Lemma hostages_in_same_classes h h' l :
  same_classes h h' → hostages_in h' l = hostages_in h l.
Proof.
  intros Hc. unfold hostages_in. do 2 f_equal. apply filter_ext. intros x.
  by apply isinstance_same_classes.
Qed.

Lemma cleared_idemp h l : cleared h (cleared h l) = cleared h l.
Proof.
  unfold cleared. induction l as [|x l IH]; simpl; [done|].
  destruct (negb _ && negb _) eqn:Hx; simpl; [|done]. by rewrite Hx, IH.
Qed.

Lemma hostages_in_cleared h h' L :
  same_classes h h' → hostages_in h' (cleared h L) = 0.
Proof.
  intros Hc. rewrite (hostages_in_same_classes _ _ _ Hc).
  unfold hostages_in, cleared.
  induction L as [|x L IH]; simpl; [done|].
  destruct (isinstance h CHostage x) eqn:Hx; simpl; [exact IH|].
  destruct (negb (isinstance h CDisturbance x)); simpl; [|exact IH].
  by rewrite Hx.
Qed.

(** ** The escalation pass, cell by cell *)

Lemma explodes_instance h x :
  explodes h x = true → isinstance h CDisturbance x = true.
Proof.
  unfold explodes, isinstance. destruct (h !! x) as [[| | |u sev t|]|]; done.
Qed.

Lemma same_classes_alter h d : same_classes h (alter advance_obj d h).
Proof.
  intros x. rewrite lookup_alter. case_decide as Hx; [subst|done].
  destruct (h !! x) as [o|]; simpl; [|done]. f_equal.
  destruct o; simpl; try done. by repeat case_match.
Qed.

Lemma same_classes_advance_heap ds h : same_classes h (advance_heap ds h).
Proof.
  unfold advance_heap. revert h. induction ds as [|d ds IH]; intros h; simpl.
  - apply same_classes_refl.
  - eapply same_classes_trans; [apply same_classes_alter|apply IH].
Qed.

Lemma advance_heap_lookup_notin ds h x :
  x ∉ ds → advance_heap ds h !! x = h !! x.
Proof.
  unfold advance_heap. revert h. induction ds as [|d ds IH]; intros h; simpl;
    [done|].
  rewrite not_elem_of_cons. intros [Hxd Hx].
  rewrite IH by done. by rewrite lookup_alter_ne.
Qed.

Lemma advance_heap_lookup_in ds h x :
  NoDup ds → x ∈ ds → advance_heap ds h !! x = advance_obj <$> h !! x.
Proof.
  unfold advance_heap. revert h. induction ds as [|d ds IH]; intros h; simpl.
  - by intros _ ?%elem_of_nil.
  - rewrite NoDup_cons, elem_of_cons. intros [Hd Hnd] [->|Hx].
    + pose proof (advance_heap_lookup_notin ds (alter advance_obj d h) d Hd)
        as E.
      unfold advance_heap in E. rewrite E. apply lookup_alter_eq.
    + rewrite IH by done. rewrite lookup_alter_ne; [done|].
      intros ->. done.
Qed.

Lemma explodes_agree h h' x : h' !! x = h !! x → explodes h' x = explodes h x.
Proof. unfold explodes. by intros ->. Qed.

(** One iteration of the inner loop, for a disturbance [d] met in a cell
    whose list is [L]: the object is advanced; when it explodes the cell is
    cleared, every hostage in it is counted as lost and one point of damage
    is added. *)
Lemma advance_disturbance_eq m p d L :
  od_lookup p (cell_contents m) = Some L →
  isinstance (heap m) CDisturbance d = true →
  advance_disturbance p d m
  = with_hazard
      (od_store p (if explodes (heap m) d then cleared (heap m) L else L)
         (cell_contents m))
      (hostages_lost m + (if explodes (heap m) d then hostages_in (heap m) L else 0))
      (structural_damage m + (if explodes (heap m) d then 1 else 0))
      (alter advance_obj d (heap m)) m.
Proof.
  intros HL Hd. unfold isinstance in Hd.
  destruct (heap m !! d) as [[| | |u sev t|]|] eqn:Hh; try done.
  rewrite (alter_alt_Some _ _ _ _ Hh).
  assert (Hquiet : ∀ h,
            set_heap h m
            = with_hazard (od_store p L (cell_contents m)) (hostages_lost m + 0)
                (structural_damage m + 0) h m).
  { intros h. rewrite od_store_id, !Z.add_0_r by done. apply set_heap_hazard. }
  unfold explodes, advance_disturbance. rewrite Hh. cbv beta iota zeta.
  destruct sev; simpl advance_obj; cbn [bool_decide decide_rel andb].
  - rewrite bool_decide_true by done. cbn [andb].
    destruct (4 <=? t + 1); apply Hquiet.
  - rewrite bool_decide_false, bool_decide_true by done. cbn [andb].
    destruct (6 <=? t + 1); [|apply Hquiet].
    change (cell_contents (set_heap ?h _)) with (cell_contents m).
    rewrite HL. change (default [] (Some L)) with L.
    rewrite handle_explosion_eq by done.
    rewrite set_heap_hazard. hazard_norm.
    assert (Hc : same_classes (heap m) (<[d := Disturbance u grave (t + 1)]> (heap m))).
    { intros x. destruct (decide (d = x)) as [->|Hne].
      - by rewrite lookup_insert_eq, Hh.
      - by rewrite lookup_insert_ne. }
    by rewrite (cleared_same_classes _ _ _ Hc),
         (hostages_in_same_classes _ _ _ Hc).
  - rewrite !bool_decide_false by done. cbn [andb]. apply Hquiet.
Qed.

Lemma existsb_ext_in {A} (f g : A → bool) (l : list A) :
  (∀ x, In x l → f x = g x) → existsb f l = existsb g l.
Proof.
  induction l as [|a l IH]; simpl; [done|].
  intros H. rewrite (H a) by auto. rewrite IH; [done|]. auto.
Qed.

(** The inner loop over distinct disturbances [ds] of a cell whose list
    is [L]. *)
Lemma fold_advance_eq p ds :
  ∀ m L,
    od_lookup p (cell_contents m) = Some L →
    NoDup ds →
    Forall (λ d, isinstance (heap m) CDisturbance d = true) ds →
    fold_left (λ m d, advance_disturbance p d m) ds m
    = with_hazard
        (od_store p
           (if existsb (explodes (heap m)) ds then cleared (heap m) L else L)
           (cell_contents m))
        (hostages_lost m
         + (if existsb (explodes (heap m)) ds then hostages_in (heap m) L else 0))
        (structural_damage m
         + Z.of_nat (length (List.filter (explodes (heap m)) ds)))
        (advance_heap ds (heap m)) m.
Proof.
  induction ds as [|a ds IH]; intros m L HL Hnd Hall.
  - simpl. rewrite od_store_id, !Z.add_0_r by done. apply eq_sym, with_hazard_id.
  - apply NoDup_cons in Hnd as [Ha Hnd].
    apply Forall_cons in Hall as [Hda Hall].
    simpl fold_left. rewrite (advance_disturbance_eq m p a L HL Hda).
    pose proof (same_classes_alter (heap m) a) as Hc.
    assert (Hagree : ∀ x, In x ds →
              explodes (alter advance_obj a (heap m)) x = explodes (heap m) x).
    { intros x Hx. apply explodes_agree. rewrite lookup_alter_ne; [done|].
      intros ->. by apply Ha, list_elem_of_In. }
    assert (Hall' : Forall
              (λ d, isinstance (alter advance_obj a (heap m)) CDisturbance d = true)
              ds).
    { eapply Forall_impl; [exact Hall|]. intros x Hx. simpl.
      by rewrite (isinstance_same_classes _ _ _ _ Hc). }
    erewrite IH;
      [|hazard_norm; rewrite od_lookup_store; by rewrite decide_True
       |done|by hazard_norm].
    hazard_norm.
    rewrite (existsb_ext_in _ _ _ Hagree), (filter_ext_in _ _ _ Hagree).
    rewrite od_store_store.
    change (advance_heap ds (alter advance_obj a (heap m)))
      with (advance_heap (a :: ds) (heap m)).
    simpl existsb. simpl List.filter.
    destruct (explodes (heap m) a) eqn:Hex; cbn [orb].
    + rewrite (cleared_same_classes _ _ _ Hc), cleared_idemp.
      rewrite (hostages_in_cleared _ _ _ Hc).
      destruct (existsb _ ds); f_equal; simpl length; lia.
    + rewrite (cleared_same_classes _ _ _ Hc).
      rewrite (hostages_in_same_classes _ _ _ Hc).
      f_equal; lia.
Qed.

Lemma existsb_filter_sub {A} (f g : A → bool) (l : list A) :
  (∀ x, f x = true → g x = true) →
  existsb f (List.filter g l) = existsb f l
  ∧ List.filter f (List.filter g l) = List.filter f l.
Proof.
  intros Hfg. induction l as [|a l [IH1 IH2]]; simpl; [done|].
  destruct (g a) eqn:Hg; simpl.
  - rewrite IH1, IH2. done.
  - destruct (f a) eqn:Hf; [apply Hfg in Hf; congruence|]. done.
Qed.

Lemma NoDup_bfilter {A} (f : A → bool) (l : list A) :
  NoDup l → NoDup (List.filter f l).
Proof.
  induction 1 as [|x l Hx Hnd IH]; simpl; [constructor|].
  destruct (f x); [|done]. constructor; [|done].
  rewrite list_elem_of_In, filter_In, <- list_elem_of_In. tauto.
Qed.

(** The inner loop for a whole cell. *)
Lemma advance_cell_eq m p L :
  od_lookup p (cell_contents m) = Some L →
  NoDup L →
  advance_cell m p
  = with_hazard
      (od_store p (escalated_cell (heap m) L) (cell_contents m))
      (hostages_lost m + cell_lost (heap m) L)
      (structural_damage m + cell_damage (heap m) L)
      (advance_heap (List.filter (isinstance (heap m) CDisturbance) L) (heap m))
      m.
Proof.
  intros HL Hnd. unfold advance_cell. rewrite HL.
  change (default [] (Some L)) with L.
  rewrite (fold_advance_eq p _ m L HL).
  - destruct (existsb_filter_sub (explodes (heap m))
                (isinstance (heap m) CDisturbance) L) as [E1 E2].
    { apply explodes_instance. }
    unfold escalated_cell, cell_lost, cell_damage. by rewrite E1, E2.
  - by apply NoDup_bfilter.
  - apply Forall_forall. intros x Hx.
    apply list_elem_of_In, filter_In in Hx. tauto.
Qed.

Lemma od_lookup_app_notin {V} (d1 d2 : list (Pos * V)) k :
  k ∉ od_keys d1 → od_lookup k (d1 ++ d2) = od_lookup k d2.
Proof.
  unfold od_keys. induction d1 as [|[k' v] d1 IH]; simpl; [done|].
  rewrite not_elem_of_cons. intros [Hk Hn].
  rewrite decide_False by done. by apply IH.
Qed.

Lemma od_store_app_notin {V} (d1 d2 : list (Pos * V)) k (v w : V) :
  k ∉ od_keys d1 → od_store k w (d1 ++ (k, v) :: d2) = d1 ++ (k, w) :: d2.
Proof.
  unfold od_keys. induction d1 as [|[k' u] d1 IH]; simpl.
  - intros _. by rewrite decide_True.
  - rewrite not_elem_of_cons. intros [Hk Hn].
    rewrite decide_False by done. by rewrite IH.
Qed.

Lemma od_keys_fmap {V} (f : V → V) (d : list (Pos * V)) :
  od_keys (prod_map id f <$> d) = od_keys d.
Proof.
  unfold od_keys. induction d as [|[k v] d IH]; simpl; [done|]. by f_equal.
Qed.

Lemma od_lookup_fmap {V} (f : V → V) (d : list (Pos * V)) k :
  od_lookup k (prod_map id f <$> d) = f <$> od_lookup k d.
Proof.
  induction d as [|[k' v] d IH]; simpl; [done|]. by case_decide.
Qed.

Lemma od_lookup_elem_of {V} (d : list (Pos * V)) k (v : V) :
  od_lookup k d = Some v → v ∈ d.*2.
Proof.
  induction d as [|[k' w] d IH]; simpl; [done|].
  case_decide; [intros [= ->]; by left|]. intros Hv. right. by apply IH.
Qed.

Lemma sumZ_app l1 l2 : sumZ (l1 ++ l2) = sumZ l1 + sumZ l2.
Proof. unfold sumZ. induction l1 as [|x l1 IH]; simpl; lia. Qed.

Lemma advance_heap_app ds1 ds2 h :
  advance_heap (ds1 ++ ds2) h = advance_heap ds2 (advance_heap ds1 h).
Proof. unfold advance_heap. apply fold_left_app. Qed.


(** The pass from a state in which the cells [done] have been visited. *)
Lemma escalate_from m todo :
  ∀ done,
    NoDup (od_keys (done ++ todo)) →
    NoDup (concat (done ++ todo).*2) →
    fold_left advance_cell (od_keys todo) (escalated m done todo)
    = escalated m (done ++ todo) [].
Proof.
  induction todo as [|[q Lq] todo IH]; intros done Hk Hn.
  - simpl. by rewrite !app_nil_r.
  - change (od_keys ((q, Lq) :: todo)) with (q :: od_keys todo).
    simpl fold_left.
    assert (Hq : q ∉ od_keys done).
    { unfold od_keys in *. rewrite fmap_app in Hk.
      apply NoDup_app in Hk as (_ & Hk & _). intros Hin.
      apply (Hk q Hin). simpl. by left. }
    pose proof Hn as Hn0.
    rewrite fmap_app, concat_app in Hn. simpl in Hn.
    apply NoDup_app in Hn as (Hn1 & Hn2 & Hn3).
    apply NoDup_app in Hn3 as (HLq & Hn4 & Hn5).
    set (h := heap m).
    set (dsd := List.filter (isinstance h CDisturbance) (concat done.*2)).
    assert (Hagree : ∀ x, In x Lq → advance_heap dsd h !! x = h !! x).
    { intros x Hx. apply advance_heap_lookup_notin. intros Hd.
      apply list_elem_of_In, filter_In in Hd as [Hd _].
      apply list_elem_of_In in Hd. apply (Hn2 x Hd).
      apply elem_of_app. left. by apply list_elem_of_In. }
    pose proof (same_classes_advance_heap dsd h) as Hc.
    assert (Hstep : advance_cell (escalated m done ((q, Lq) :: todo)) q
                    = escalated m (done ++ [(q, Lq)]) todo).
    { rewrite (advance_cell_eq _ q Lq); [| |done].
      2:{ unfold escalated. hazard_norm.
          rewrite od_lookup_app_notin by (by rewrite od_keys_fmap).
          simpl. by rewrite decide_True. }
      unfold escalated. hazard_norm. fold h. fold dsd.
      rewrite od_store_app_notin by (by rewrite od_keys_fmap).
      assert (E1 : escalated_cell (advance_heap dsd h) Lq = escalated_cell h Lq).
      { unfold escalated_cell.
        rewrite (existsb_ext_in (explodes (advance_heap dsd h)) (explodes h))
          by (intros; by apply explodes_agree, Hagree).
        by rewrite (cleared_same_classes _ _ _ Hc). }
      assert (E2 : cell_lost (advance_heap dsd h) Lq = cell_lost h Lq).
      { unfold cell_lost.
        rewrite (existsb_ext_in (explodes (advance_heap dsd h)) (explodes h))
          by (intros; by apply explodes_agree, Hagree).
        by rewrite (hostages_in_same_classes _ _ _ Hc). }
      assert (E3 : cell_damage (advance_heap dsd h) Lq = cell_damage h Lq).
      { unfold cell_damage.
        rewrite (filter_ext_in (explodes (advance_heap dsd h)) (explodes h))
          by (intros; by apply explodes_agree, Hagree).
        done. }
      rewrite E1, E2, E3.
      rewrite (filter_ext (isinstance (advance_heap dsd h) CDisturbance)
                 (isinstance h CDisturbance))
        by (intros; by apply isinstance_same_classes).
      rewrite !fmap_app, !sumZ_app, concat_app, List.filter_app, advance_heap_app.
      simpl. rewrite app_nil_r, <- app_assoc. simpl.
      f_equal; unfold sumZ; simpl; lia. }
    rewrite Hstep. rewrite IH.
    + by rewrite <- app_assoc.
    + by rewrite <- app_assoc.
    + by rewrite <- app_assoc.
Qed.

Lemma escalate_eq m : wf_cells m → escalate m = escalated m (cell_contents m) [].
Proof.
  intros [Hk Hn]. unfold escalate.
  pose proof (escalate_from m (cell_contents m) [] Hk Hn) as E.
  change ([] ++ cell_contents m) with (cell_contents m) in E.
  rewrite <- E. f_equal. unfold escalated.
  change (advance_heap _ (heap m)) with (heap m).
  change (sumZ _) with 0. rewrite !Z.add_0_r. apply eq_sym, with_hazard_id.
Qed.

Lemma singleton_filter {A} (f : A → bool) (l : list A) x :
  In x l → f x = true → (length (List.filter f l) ≤ 1)%nat →
  List.filter f l = [x].
Proof.
  intros Hin Hf Hlen.
  assert (Hx : In x (List.filter f l)) by (by apply filter_In).
  destruct (List.filter f l) as [|y [|z l']]; simpl in *; [done| |lia].
  by destruct Hx as [->|[]].
Qed.


(** ** The spawn draw *)

Lemma get_available_cell_unfold fuel m :
  0 < grid_width m → 0 < grid_height m →
  get_available_cell (S fuel) m
  = if negb (has_closed_gate m (get_contents_at m (draw_cell m).1))
    then Done ((draw_cell m).1, set_random (draw_cell m).2 m)
    else get_available_cell fuel (set_random (draw_cell m).2 m).
Proof.
  intros HW HH. simpl. unfold randrange, draw_cell.
  replace (0 <? grid_width m) with true by (symmetry; by apply Z.ltb_lt).
  replace (0 <? grid_height m) with true by (symmetry; by apply Z.ltb_lt).
  simpl. destruct (rnd_randbelow (grid_width m) (random m)) as [x r1]. simpl.
  destruct (rnd_randbelow (grid_height m) r1) as [y r2]. done.
Qed.

Lemma draw_cell_in_grid m :
  0 < grid_width m → 0 < grid_height m → in_grid m (draw_cell m).1.
Proof.
  intros HW HH. unfold draw_cell, in_grid.
  pose proof (rnd_randbelow_range (grid_width m) (random m) HW) as Hx.
  destruct (rnd_randbelow (grid_width m) (random m)) as [x r1].
  pose proof (rnd_randbelow_range (grid_height m) r1 HH) as Hy.
  destruct (rnd_randbelow (grid_height m) r1) as [y r2]. done.
Qed.





(** ** The one-cell rescue scenario *)

Lemma randbelow_1 (r : R) : (rnd_randbelow 1 r).1 = 0.
Proof. pose proof (rnd_randbelow_range 1 r). lia. Qed.

Lemma choice_singleton {A} (x : A) (r : R) :
  choice [x] r = Done (x, (rnd_randbelow 1 r).2).
Proof.
  unfold choice. change (Z.of_nat (length [x])) with 1.
  pose proof (randbelow_1 r) as Hi.
  destruct (rnd_randbelow 1 r) as [i r']. simpl in *. by subst.
Qed.

Lemma shuffle_singleton (a : loc) (r : R) : (rnd_shuffle [a] r).1 = [a].
Proof. apply Permutation_singleton_r, rnd_shuffle_perm. Qed.

Lemma step_loop_only fuel self m u p ap c a cost :
  heap m !! self = Some (TacticalAgent u p ap c) →
  0 < ap →
  possible_actions m p ap c = [(a, cost)] →
  step_loop (S fuel) self m
  = (m1 ← apply_action self p a (set_random (rnd_randbelow 1 (random m)).2 m);
     m2 ← spend self cost m1;
     '(log, m3) ← step_loop fuel self m2;
     Done ((ap, a, cost) :: log, m3)).
Proof.
  intros Hself Hap Hacts. simpl. rewrite Hself.
  replace (0 <? ap) with true by (symmetry; by apply Z.ltb_lt). simpl.
  rewrite Hacts, choice_singleton. done.
Qed.

Lemma step_loop_none fuel self m u p ap c :
  heap m !! self = Some (TacticalAgent u p ap c) →
  possible_actions m p ap c = [] →
  step_loop (S fuel) self m = Done ([], m).
Proof.
  intros Hself Hacts. simpl. rewrite Hself, Hacts. by destruct (negb _).
Qed.

Lemma Done_bind {A B} (a : A) (f : A → outcome B) : Done a ≫= f = f a.
Proof. done. Qed.

(** The agent's turn in the one-cell scenario: rescue, then drop off. *)
Lemma rescue_turn fuel w (r : R) ap turns :
  TacticalAgent_step (S (S (S fuel))) 0%nat
    (rescue_world w r ap false [1%nat] 0 turns)
  = Done ([(4, rescue 1%nat, 2); (2, dropoff, 1)],
          rescue_world w (rnd_randbelow 1 (rnd_randbelow 1 r).2).2 1 false []
            1 turns).
Proof.
  unfold TacticalAgent_step.
  assert (E0 : set_action_points 0%nat 4
                 (rescue_world w r ap false [1%nat] 0 turns)
               = Done (rescue_world w r 4 false [1%nat] 0 turns))
    by reflexivity.
  rewrite E0. clear E0. rewrite Done_bind.
  erewrite (step_loop_only _ _ _ 1 (0, 0) 4 false (rescue 1%nat) 2);
    [|reflexivity|lia|reflexivity].
  cbn [random rescue_world]. set (r1 := (rnd_randbelow 1 r).2).
  assert (E1 : apply_action 0%nat (0, 0) (rescue 1%nat)
                 (set_random r1 (rescue_world w r 4 false [1%nat] 0 turns))
               = Done (rescue_world w r1 4 true [] 0 turns))
    by reflexivity.
  rewrite E1. clear E1. rewrite Done_bind.
  assert (E2 : spend 0%nat 2 (rescue_world w r1 4 true [] 0 turns)
               = Done (rescue_world w r1 2 true [] 0 turns))
    by reflexivity.
  rewrite E2. clear E2. rewrite Done_bind.
  erewrite (step_loop_only _ _ _ 1 (0, 0) 2 true dropoff 1);
    [|reflexivity|lia|reflexivity].
  cbn [random rescue_world]. set (r2 := (rnd_randbelow 1 r1).2).
  assert (E3 : apply_action 0%nat (0, 0) dropoff
                 (set_random r2 (rescue_world w r1 2 true [] 0 turns))
               = Done (rescue_world w r2 2 false [] 1 turns))
    by reflexivity.
  rewrite E3. clear E3. rewrite Done_bind.
  assert (E4 : spend 0%nat 1 (rescue_world w r2 2 false [] 1 turns)
               = Done (rescue_world w r2 1 false [] 1 turns))
    by reflexivity.
  rewrite E4. clear E4. rewrite Done_bind.
  erewrite (step_loop_none _ _ _ 1 (0, 0) 1 false); [|reflexivity|reflexivity].
  done.
Qed.

(** C9 as amended.  In the one-cell scenario, whatever the random source
    draws, one turn makes the agent pick the hostage up and drop it off
    (2 + 1 of its 4 points, 1 left), [hostages_rescued] is 1 and
    [turn_counter] is 1.  The thresholds are the constants 7, 4 and 25 of
    [check_game_over], so the run is not over: [running] is still true and
    the result tag is the time-out one. *)
Theorem one_cell_rescue w (seed : R) fuel :
  (3 ≤ fuel)%nat →
  ∃ m',
    step fuel (rescue_world w seed 4 false [1%nat] 0 0) = Done m'
    ∧ hostages_rescued m' = 1
    ∧ turn_counter m' = 1
    ∧ heap m' !! 0%nat = Some (TacticalAgent 1 (0, 0) 1 false)
    ∧ holds m' CHostage (0, 0) = false
    ∧ hostages_lost m' = 0
    ∧ structural_damage m' = 0
    ∧ running m' = true
    ∧ fs_result (get_final_stats m') = "TIEMPO AGOTADO".
Proof.
  intros Hfuel.
  destruct fuel as [|[|[|fuel]]]; [lia..|].
  unfold step.
  assert (E0 : set_turn_counter
                 (turn_counter (rescue_world w seed 4 false [1%nat] 0 0) + 1)
                 (rescue_world w seed 4 false [1%nat] 0 0)
               = rescue_world w seed 4 false [1%nat] 0 1) by reflexivity.
  rewrite E0. clear E0. unfold schedule_step. cbn [schedule random rescue_world].
  pose proof (shuffle_singleton 0%nat seed) as Hsh.
  destruct (rnd_shuffle [0%nat] seed) as [order r1]. simpl in Hsh. subst order.
  assert (E1 : set_schedule [0%nat]
                 (set_random r1 (rescue_world w seed 4 false [1%nat] 0 1))
               = rescue_world w r1 4 false [1%nat] 0 1) by reflexivity.
  rewrite E1. clear E1. cbn [activate].
  rewrite rescue_turn, !Done_bind.
  set (r3 := (rnd_randbelow 1 (rnd_randbelow 1 r1).2).2).
  unfold advance_disturbances.
  assert (E2 : escalate (rescue_world w r3 1 false [] 1 1)
               = rescue_world w r3 1 false [] 1 1) by reflexivity.
  rewrite E2. clear E2. unfold spawn. cbn [random rescue_world].
  destruct (rnd_random r3) as [k r4].
  assert (E3 : set_random r4 (rescue_world w r3 1 false [] 1 1)
               = rescue_world w r4 1 false [] 1 1) by reflexivity.
  rewrite E3. clear E3.
  destruct (lt_0_05 k).
  - rewrite get_available_cell_unfold by (simpl; lia).
    pose proof (draw_cell_in_grid (rescue_world w r4 1 false [] 1 1)) as Hin.
    destruct (draw_cell (rescue_world w r4 1 false [] 1 1)) as [[x y] r6].
    destruct Hin as [Hx Hy]; [simpl; lia..|]. simpl in Hx, Hy.
    assert (x = 0) as -> by lia. assert (y = 0) as -> by lia.
    cbn [fst snd].
    assert (E4 : has_closed_gate (rescue_world w r4 1 false [] 1 1)
                   (get_contents_at (rescue_world w r4 1 false [] 1 1) (0, 0))
                 = false) by reflexivity.
    rewrite E4. clear E4. cbn [negb]. rewrite Done_bind.
    eexists. split; [reflexivity|]. repeat split; reflexivity.
  - rewrite Done_bind.
    eexists. split; [reflexivity|]. repeat split; reflexivity.
Qed.

(** ** The invariant of the world *)

Lemma bfilter_sublist {A} (f : A → bool) (l1 l2 : list A) :
  l1 `sublist_of` l2 → List.filter f l1 `sublist_of` List.filter f l2.
Proof.
  induction 1 as [|x l1 l2 _ IH|x l1 l2 _ IH]; simpl.
  - constructor.
  - destruct (f x); [by constructor|done].
  - destruct (f x); [by constructor|done].
Qed.

Lemma bfilter_sublist_self {A} (f : A → bool) (l : list A) :
  List.filter f l `sublist_of` l.
Proof.
  induction l as [|x l IH]; simpl; [constructor|].
  destruct (f x); by constructor.
Qed.

Lemma list_remove_first_sublist x (l : list loc) :
  list_remove_first x l `sublist_of` l.
Proof.
  induction l as [|y l IH]; simpl; [constructor|].
  case_decide; by constructor.
Qed.

Lemma concat_sublist (ls1 ls2 : list (list loc)) :
  Forall2 (λ a b, b `sublist_of` a) ls1 ls2 →
  concat ls2 `sublist_of` concat ls1.
Proof.
  induction 1 as [|a b ls1 ls2 Hab _ IH]; simpl; [constructor|].
  by apply sublist_app.
Qed.

Lemma cells_same (c : list (Pos * list loc)) :
  Forall2 (λ a b, b.1 = a.1 ∧ b.2 `sublist_of` a.2) c c.
Proof. induction c; constructor; done. Qed.

Lemma cells_trans (c1 c2 c3 : list (Pos * list loc)) :
  Forall2 (λ a b, b.1 = a.1 ∧ b.2 `sublist_of` a.2) c1 c2 →
  Forall2 (λ a b, b.1 = a.1 ∧ b.2 `sublist_of` a.2) c2 c3 →
  Forall2 (λ a b, b.1 = a.1 ∧ b.2 `sublist_of` a.2) c1 c3.
Proof.
  intros H12. revert c3. induction H12 as [|a b c1 c2 [Hk Hs] _ IH];
    intros c3 H23; inversion H23 as [|? d ? c3' [Hk' Hs'] H23']; subst;
    constructor.
  - split; [congruence|]. by etrans.
  - by apply IH.
Qed.

Lemma cells_store (c : list (Pos * list loc)) p L L' :
  od_lookup p c = Some L → L' `sublist_of` L →
  Forall2 (λ a b, b.1 = a.1 ∧ b.2 `sublist_of` a.2) c (od_store p L' c).
Proof.
  induction c as [|[k v] c IH]; simpl; [done|].
  case_decide as Hk.
  - intros [= ->] Hs. subst k. constructor; [done|apply cells_same].
  - intros HL Hs. constructor; [done|by apply IH].
Qed.

Lemma cells_keys (c1 c2 : list (Pos * list loc)) :
  Forall2 (λ a b, b.1 = a.1 ∧ b.2 `sublist_of` a.2) c1 c2 →
  od_keys c2 = od_keys c1.
Proof.
  unfold od_keys. induction 1 as [|a b c1 c2 [Hk _] _ IH]; simpl; [done|].
  by f_equal.
Qed.

Lemma cells_values (c1 c2 : list (Pos * list loc)) :
  Forall2 (λ a b, b.1 = a.1 ∧ b.2 `sublist_of` a.2) c1 c2 →
  Forall2 (λ a b, b `sublist_of` a) c1.*2 c2.*2.
Proof.
  induction 1 as [|a b c1 c2 [_ Hs] _ IH]; simpl; by constructor.
Qed.

Lemma shrinks_same m m' :
  schedule m' = schedule m → heap m' = heap m →
  cell_contents m' = cell_contents m → shrinks m m'.
Proof.
  intros Hs Hh Hc. unfold shrinks. rewrite Hs, Hh, Hc.
  split; [done|]. split; [apply same_classes_refl|apply cells_same].
Qed.

Lemma shrinks_trans m1 m2 m3 : shrinks m1 m2 → shrinks m2 m3 → shrinks m1 m3.
Proof.
  intros (Hs1 & Hc1 & Hf1) (Hs2 & Hc2 & Hf2). split; [congruence|].
  split; [by eapply same_classes_trans|by eapply cells_trans].
Qed.

Lemma same_classes_is_Some h h' x :
  same_classes h h' → is_Some (h !! x) → is_Some (h' !! x).
Proof.
  intros Hc [o Ho]. specialize (Hc x). rewrite Ho in Hc.
  destruct (h' !! x); [eauto|done].
Qed.

Lemma world_ok_shrinks m m' : world_ok m → shrinks m m' → world_ok m'.
Proof.
  intros (W1 & W2 & W3 & W4 & W5) (Hs & Hc & Hf).
  pose proof (concat_sublist _ _ (cells_values _ _ Hf)) as Hsub.
  split; [by rewrite (cells_keys _ _ Hf)|].
  split; [by eapply sublist_NoDup|].
  split.
  { intros x Hx. destruct (W3 x) as [H1 H2]; [by eapply elem_of_sublist|].
    split; [by eapply same_classes_is_Some|].
    by rewrite (isinstance_same_classes _ _ _ _ Hc). }
  split.
  { intros a Ha. rewrite (isinstance_same_classes _ _ _ _ Hc).
    apply W4. by rewrite <- Hs. }
  intros L' HL'.
  apply cells_values in Hf.
  apply list_elem_of_lookup in HL' as [i Hi].
  destruct (Forall2_lookup_r _ _ _ _ _ Hf Hi) as (L & HL & Hsl).
  destruct (W5 L) as [G D]; [by eapply list_elem_of_lookup_2|].
  rewrite !(filter_ext _ _ (λ x, isinstance_same_classes _ _ _ x Hc)).
  split.
  - etrans; [|exact G]. apply sublist_length. by apply bfilter_sublist.
  - etrans; [|exact D]. apply sublist_length. by apply bfilter_sublist.
Qed.

Lemma same_classes_insert h x o o' :
  h !! x = Some o → class_of o' = class_of o → same_classes h (<[x := o']> h).
Proof.
  intros Hx Hc y. destruct (decide (x = y)) as [->|Hne].
  - rewrite lookup_insert_eq, Hx. simpl. by rewrite Hc.
  - by rewrite lookup_insert_ne.
Qed.

Lemma shrinks_set_heap m x o o' :
  heap m !! x = Some o → class_of o' = class_of o →
  shrinks m (set_heap (<[x := o']> (heap m)) m).
Proof.
  intros Hx Hc. split; [done|]. split; [|apply cells_same].
  by eapply same_classes_insert.
Qed.

Lemma shrinks_remove_entity m e p : shrinks m (remove_entity e p m).
Proof.
  unfold remove_entity.
  destruct (od_lookup p (cell_contents m)) as [L|] eqn:HL;
    [|by apply shrinks_same].
  case_bool_decide; [|by apply shrinks_same].
  split; [done|]. split; [apply same_classes_refl|].
  eapply cells_store; [done|]. apply list_remove_first_sublist.
Qed.

Lemma shrinks_set_action_points m self ap m' :
  set_action_points self ap m = Done m' → shrinks m m'.
Proof.
  unfold set_action_points.
  destruct (heap m !! self) as [[| | | |u p0 ap0 c]|] eqn:Hh; try done.
  intros [= <-]. by eapply shrinks_set_heap.
Qed.

Lemma shrinks_set_pos m self p m' : set_pos self p m = Done m' → shrinks m m'.
Proof.
  unfold set_pos.
  destruct (heap m !! self) as [[| | | |u p0 ap0 c]|] eqn:Hh; try done.
  intros [= <-]. by eapply shrinks_set_heap.
Qed.

Lemma shrinks_set_carrying_hostage m self c m' :
  set_carrying_hostage self c m = Done m' → shrinks m m'.
Proof.
  unfold set_carrying_hostage.
  destruct (heap m !! self) as [[| | | |u p0 ap0 c0]|] eqn:Hh; try done.
  intros [= <-]. by eapply shrinks_set_heap.
Qed.

Lemma shrinks_set_is_open m g b m' : set_is_open g b m = Done m' → shrinks m m'.
Proof.
  unfold set_is_open.
  destruct (heap m !! g) as [[| |u o| |]|] eqn:Hh; try done.
  intros [= <-]. by eapply shrinks_set_heap.
Qed.

Lemma shrinks_apply_action m self p a m' :
  apply_action self p a m = Done m' → shrinks m m'.
Proof.
  destruct a; simpl; intros H.
  - by eapply shrinks_set_pos.
  - apply bind_Done in H as (m1 & H1 & [= <-]).
    eapply shrinks_trans; [by eapply shrinks_set_carrying_hostage|].
    apply shrinks_remove_entity.
  - injection H as <-.
    eapply shrinks_trans; [|apply shrinks_remove_entity]. by apply shrinks_same.
  - apply bind_Done in H as (m1 & H1 & [= <-]).
    eapply shrinks_trans; [by eapply shrinks_set_carrying_hostage|].
    by apply shrinks_same.
  - injection H as <-. apply shrinks_remove_entity.
  - by eapply shrinks_set_is_open.
  - by eapply shrinks_set_is_open.
  - injection H as <-. apply shrinks_same; try done;
      unfold break_wall_between, clear_flag; by repeat case_match.
Qed.

Lemma shrinks_spend m self cost m' : spend self cost m = Done m' → shrinks m m'.
Proof.
  unfold spend. intros H. repeat case_match; try done.
  by eapply shrinks_set_action_points.
Qed.

Lemma shrinks_step_loop fuel self m log m' :
  step_loop fuel self m = Done (log, m') → shrinks m m'.
Proof.
  revert m log m'. induction fuel as [|fuel IH]; intros m log m'; [done|].
  simpl. destruct (heap m !! self) as [[| | | |u p ap c]|]; try done.
  destruct (negb (0 <? ap)); [intros [= <- <-]; by apply shrinks_same|].
  destruct (possible_actions m p ap c) as [|a0 acts];
    [intros [= <- <-]; by apply shrinks_same|].
  intros H.
  apply bind_Done in H as ([[a cost] r'] & _ & H). simpl in H.
  apply bind_Done in H as (m1 & H1 & H).
  apply bind_Done in H as (m2 & H2 & H).
  apply bind_Done in H as ([log' m3] & H3 & [= <- <-]).
  apply shrinks_apply_action in H1. apply shrinks_spend in H2. apply IH in H3.
  eapply shrinks_trans; [|exact H3].
  eapply shrinks_trans; [|exact H2].
  eapply shrinks_trans; [|exact H1]. by apply shrinks_same.
Qed.

Lemma shrinks_activate fuel order m m' :
  activate fuel order m = Done m' → shrinks m m'.
Proof.
  revert m. induction order as [|a order IH]; intros m; simpl.
  - intros [= <-]. by apply shrinks_same.
  - intros H. apply bind_Done in H as ([log m1] & H1 & H).
    unfold TacticalAgent_step in H1.
    apply bind_Done in H1 as (m0 & H0 & H1).
    eapply shrinks_trans; [by eapply shrinks_set_action_points|].
    eapply shrinks_trans; [by eapply shrinks_step_loop|]. by apply IH.
Qed.

Lemma shrinks_schedule_step fuel m m' :
  schedule_step fuel m = Done m' →
  shrinks (set_schedule (rnd_shuffle (schedule m) (random m)).1 m) m'.
Proof.
  unfold schedule_step. destruct (rnd_shuffle _ _) as [order r'].
  intros H. apply shrinks_activate in H.
  eapply shrinks_trans; [|exact H]. by apply shrinks_same.
Qed.

Lemma escalated_cell_sublist h L : escalated_cell h L `sublist_of` L.
Proof.
  unfold escalated_cell, cleared. destruct (existsb _ L); [|done].
  apply bfilter_sublist_self.
Qed.

Lemma shrinks_escalate m : wf_cells m → shrinks m (escalate m).
Proof.
  intros Hwf. rewrite (escalate_eq m Hwf). unfold escalated.
  split; [done|]. hazard_norm.
  split; [apply same_classes_advance_heap|].
  rewrite app_nil_r.
  induction (cell_contents m) as [|[k L] c IH]; simpl; constructor; [|done].
  split; [done|]. apply escalated_cell_sublist.
Qed.

(** ** Where the setup draws from *)

Lemma for_each_inv {A St} (P : St → Prop) (body : St → A → outcome St) l :
  (∀ st x st', P st → body st x = Done st' → P st') →
  ∀ st st', P st → for_each body l st = Done st' → P st'.
Proof.
  intros Hbody. induction l as [|x l IH]; intros st st' Hs; simpl.
  - by intros [= <-].
  - intros H. apply bind_Done in H as (st1 & H1 & H). eauto.
Qed.

Lemma setup_walls_random m m' : setup_walls m = Done m' → random m' = random m.
Proof.
  unfold setup_walls. intros H.
  refine (for_each_inv (λ m0, random m0 = random m) _ _ _ _ _ _ H); [|done].
  intros m1 row m2 H1 Hrow.
  refine (for_each_inv (λ m0, random m0 = random m) _ _ _ _ _ H1 Hrow).
  intros m3 col m4 H3. destruct (_ ≫= _) as [str|]; [|done].
  intros Hw. apply bind_Done in Hw as (fl & _ & [= <-]). exact H3.
Qed.

Lemma fold_left_random {A} (f : RescueModel R → A → RescueModel R) l m :
  (∀ m0 x, random (f m0 x) = random m0) → random (fold_left f l m) = random m.
Proof.
  intros Hf. revert m. induction l as [|x l IH]; intros m; simpl; [done|].
  by rewrite IH, Hf.
Qed.

(** The setup never draws from [self.random]: the model it builds still
    has the generator state it was constructed with. *)
Lemma RescueModel_init_random (seed : R) width height g m g' :
  RescueModel_init seed width height g = Done (m, g') → random m = seed.
Proof.
  unfold RescueModel_init, setup_fixed_grid. intros H.
  apply bind_Done in H as (m1 & H1 & H).
  apply setup_walls_random in H1. simpl in H1.
  apply bind_Done in H as ([m2 g2] & H2 & H).
  assert (Hm2 : random m2 = seed).
  { refine (for_each_inv (λ st : RescueModel R * R, random st.1 = seed)
              _ _ _ _ (m2, g2) _ H2); [|exact H1].
    intros [ma ga] x [mb gb] Ha. unfold setup_agent.
    simpl. intros Hb. apply bind_Done in Hb as ([pa gc] & _ & Hb).
    simpl in Hb. destruct (_ && _); [|done]. by injection Hb as <- <-. }
  refine (for_each_inv (λ st : RescueModel R * R, random st.1 = seed)
            _ _ _ _ (m, g') _ H).
  - intros [ma ga] [[[r1 c1] r2] c2] [mb gb] Ha. unfold setup_door.
    simpl. intros Hb. apply bind_Done in Hb as ([o gc] & _ & Hb).
    simpl in Hb. by injection Hb as <- <-.
  - cbn [fst]. rewrite !fold_left_random; [exact Hm2|..].
    + intros m0 [[r c] k]. reflexivity.
    + intros m0 [r c]. reflexivity.
Qed.

(** ** Registering a new entity *)

Lemma fresh_heap (h : gmap loc Object) : h !! fresh (dom h) = None.
Proof. apply not_elem_of_dom, is_fresh. Qed.

Lemma isinstance_insert_ne h l o k x :
  x ≠ l → isinstance (<[l := o]> h) k x = isinstance h k x.
Proof. intros Hne. unfold isinstance. by rewrite lookup_insert_ne. Qed.

Lemma isinstance_insert_eq h l o k :
  isinstance (<[l := o]> h) k l = bool_decide (class_of o = k).
Proof. unfold isinstance. by rewrite lookup_insert_eq. Qed.

Lemma elem_of_concat {A} (x : A) L ls : x ∈ L → L ∈ ls → x ∈ concat ls.
Proof.
  intros Hx HL. apply list_elem_of_In, in_concat. exists L.
  split; by apply list_elem_of_In.
Qed.

Lemma bfilter_ext_elem {A} (f g : A → bool) L :
  (∀ x, x ∈ L → f x = g x) → List.filter f L = List.filter g L.
Proof.
  intros H. apply List.filter_ext_in. intros x Hx. by apply H, list_elem_of_In.
Qed.

Lemma existsb_ext_elem {A} (f g : A → bool) L :
  (∀ x, x ∈ L → f x = g x) → existsb f L = existsb g L.
Proof.
  induction L as [|y L IH]; intros H; simpl; [done|].
  rewrite (H y) by left. rewrite IH; [done|]. intros x Hx. apply H. by right.
Qed.

Lemma existsb_false_bfilter {A} (f : A → bool) L :
  existsb f L = false → List.filter f L = [].
Proof.
  induction L as [|y L IH]; simpl; [done|]. destruct (f y); simpl; [done|].
  exact IH.
Qed.

Lemma bfilter_none {A} (f : A → bool) L :
  (∀ x, x ∈ L → f x = false) → List.filter f L = [].
Proof.
  induction L as [|y L IH]; intros H; simpl; [done|].
  rewrite (H y) by left. apply IH. intros x Hx. apply H. by right.
Qed.

Lemma od_store_cases {V} (d : list (Pos * V)) p (v : V) :
  (∃ d1 w d2, d = d1 ++ (p, w) :: d2 ∧ od_lookup p d = Some w
              ∧ od_store p v d = d1 ++ (p, v) :: d2)
  ∨ (od_lookup p d = None ∧ od_store p v d = d ++ [(p, v)]).
Proof.
  induction d as [|[k w] d IH]; simpl.
  - by right.
  - case_decide as Hk.
    + subst k. left. by exists [], w, d.
    + destruct IH as [(d1 & w' & d2 & Hd & Hl & Hs)|(Hl & Hs)].
      * left. exists ((k, w) :: d1), w', d2. simpl. by rewrite Hs, <- Hd.
      * right. by rewrite Hs.
Qed.

Lemma od_lookup_None {V} (d : list (Pos * V)) p :
  od_lookup p d = None → p ∉ od_keys d.
Proof.
  unfold od_keys. induction d as [|[k w] d IH]; simpl.
  - intros _. apply not_elem_of_nil.
  - case_decide; [done|]. intros Hl. apply not_elem_of_cons. split; [done|].
    by apply IH.
Qed.

Lemma od_store_values {V} (d : list (Pos * V)) p (v v' : V) :
  v' ∈ (od_store p v d).*2 → v' = v ∨ v' ∈ d.*2.
Proof.
  induction d as [|[k w] d IH]; simpl.
  - intros Hv. left. by apply list_elem_of_singleton in Hv.
  - case_decide; simpl; intros Hv; apply elem_of_cons in Hv as [->|Hv].
    + by left.
    + right. by right.
    + right. by left.
    + destruct (IH Hv) as [->|Hd]; [by left|]. right. by right.
Qed.

Lemma od_store_keys_NoDup {V} (d : list (Pos * V)) p (v : V) :
  NoDup (od_keys d) → NoDup (od_keys (od_store p v d)).
Proof.
  destruct (od_store_cases d p v) as [(d1 & w & d2 & Hd & _ & ->)|(Hl & ->)].
  - rewrite Hd. unfold od_keys. by rewrite !fmap_app, !fmap_cons.
  - intros Hn. unfold od_keys. rewrite fmap_app. simpl.
    apply NoDup_app. split; [done|]. split; [|apply NoDup_singleton].
    intros x Hx Hp. apply list_elem_of_singleton in Hp as ->.
    by apply (od_lookup_None d p).
Qed.

Lemma od_store_append_perm (d : list (Pos * list loc)) p l :
  concat (od_store p (default [] (od_lookup p d) ++ [l]) d).*2
  ≡ₚ l :: concat d.*2.
Proof.
  destruct (od_store_cases d p (default [] (od_lookup p d) ++ [l]))
    as [(d1 & w & d2 & Hd & Hl & ->)|(Hl & ->)]; rewrite Hl; simpl default.
  - rewrite Hd, !fmap_app, !fmap_cons, !concat_app, !concat_cons. simpl.
    rewrite <- (app_assoc w [l]). simpl.
    rewrite (app_assoc _ w), (app_assoc _ w).
    symmetry. apply Permutation_middle.
  - rewrite fmap_app, concat_app. simpl.
    symmetry. apply Permutation_cons_append.
Qed.

Lemma default_lookup_cases {V} (d : list (Pos * list V)) p :
  default [] (od_lookup p d) = [] ∨ default [] (od_lookup p d) ∈ d.*2.
Proof.
  destruct (od_lookup p d) as [L|] eqn:HL; simpl; [|by left].
  right. by eapply od_lookup_elem_of.
Qed.

Section Register.
Variables (m m' : RescueModel R) (p : Pos) (o : Object) (l : loc).
Hypothesis Hfresh : heap m !! l = None.
Hypothesis Hsched : schedule m' = schedule m.
Hypothesis Hheap : heap m' = <[l := o]> (heap m).
Hypothesis Hcells :
  cell_contents m'
  = od_store p (default [] (od_lookup p (cell_contents m)) ++ [l])
      (cell_contents m).
Hypothesis Hworld : world_ok m.

Lemma register_old x : x ∈ concat (cell_contents m).*2 → x ≠ l.
Proof.
  intros Hx ->. destruct Hworld as (_ & _ & W3 & _).
  destruct (W3 _ Hx) as [[o' Ho'] _]. congruence.
Qed.

Lemma register_old_list L x :
  L = [] ∨ L ∈ (cell_contents m).*2 → x ∈ L → x ≠ l.
Proof.
  intros [->|HL] Hx; [by apply elem_of_nil in Hx|].
  apply register_old. by eapply elem_of_concat.
Qed.

Lemma no_instance_register k q :
  no_instance m k q → (q = p → class_of o ≠ k) → no_instance m' k q.
Proof.
  unfold no_instance. rewrite Hheap, Hcells, od_lookup_store. intros Hno Hk.
  assert (Hext : ∀ L, L = [] ∨ L ∈ (cell_contents m).*2 →
            existsb (isinstance (<[l := o]> (heap m)) k) L
            = existsb (isinstance (heap m) k) L).
  { intros L HL. apply existsb_ext_elem. intros x Hx.
    apply isinstance_insert_ne. by eapply register_old_list. }
  case_decide as Hq.
  - subst q. simpl default. rewrite existsb_app, Hext, Hno
      by apply default_lookup_cases.
    simpl. rewrite isinstance_insert_eq, orb_false_r.
    apply bool_decide_eq_false. by apply Hk.
  - rewrite Hext by apply default_lookup_cases. exact Hno.
Qed.

Lemma world_ok_register :
  class_of o ≠ CTacticalAgent →
  (class_of o = CGate → no_instance m CGate p) →
  (class_of o = CDisturbance → no_instance m CDisturbance p) →
  world_ok m'.
Proof.
  intros Hag Hg Hd.
  pose proof Hworld as (W1 & W2 & W3 & W4 & W5).
  unfold world_ok. rewrite Hsched, Hheap, Hcells.
  split; [by apply od_store_keys_NoDup|].
  split.
  { rewrite od_store_append_perm. apply NoDup_cons. split; [|done].
    intros Hin. by apply (register_old l). }
  split.
  { intros x. rewrite od_store_append_perm. intros [->|Hx]%elem_of_cons.
    - rewrite lookup_insert_eq, isinstance_insert_eq. split; [eauto|].
      by apply bool_decide_eq_false.
    - pose proof (register_old x Hx) as Hne.
      rewrite lookup_insert_ne, isinstance_insert_ne by done. by apply W3. }
  split.
  { intros a Ha. destruct (decide (a = l)) as [->|Hne].
    - apply W4 in Ha. unfold isinstance in Ha. by rewrite Hfresh in Ha.
    - rewrite isinstance_insert_ne by done. by apply W4. }
  assert (Hext : ∀ k L, L = [] ∨ L ∈ (cell_contents m).*2 →
            List.filter (isinstance (<[l := o]> (heap m)) k) L
            = List.filter (isinstance (heap m) k) L).
  { intros k L HL. apply bfilter_ext_elem. intros x Hx.
    apply isinstance_insert_ne. by eapply register_old_list. }
  assert (Hone : ∀ k,
            (class_of o = k → no_instance m k p) →
            (∀ L, L ∈ (cell_contents m).*2 →
               (length (List.filter (isinstance (heap m) k) L) ≤ 1)%nat) →
            (length (List.filter (isinstance (<[l := o]> (heap m)) k)
                       (default [] (od_lookup p (cell_contents m)) ++ [l]))
             ≤ 1)%nat).
  { intros k Hk Hlen.
    rewrite List.filter_app, Hext by apply default_lookup_cases.
    simpl. rewrite isinstance_insert_eq, length_app.
    case_bool_decide as Hc; simpl.
    - rewrite (existsb_false_bfilter _ _ (Hk Hc)). simpl. lia.
    - rewrite Nat.add_0_r.
      destruct (default_lookup_cases (cell_contents m) p) as [->|HL];
        [simpl; lia|by apply Hlen]. }
  intros L [->|HL]%od_store_values.
  - split; apply Hone; try done; intros L HL; by apply W5.
  - rewrite !Hext by (by right). by apply W5.
Qed.

Lemma setup_ok_register F G :
  setup_ok F G m →
  class_of o ≠ CTacticalAgent →
  (class_of o = CGate → p ∉ G) →
  (class_of o = CDisturbance → p ∉ F) →
  setup_ok (if bool_decide (class_of o = CDisturbance) then p :: F else F)
           (if bool_decide (class_of o = CGate) then p :: G else G) m'.
Proof.
  intros (_ & HF & HG) Hag Hg Hd.
  split; [apply world_ok_register; auto|].
  split; intros q Hq; case_bool_decide as Hc.
  - apply not_elem_of_cons in Hq as [Hqp Hq].
    apply no_instance_register; [by apply HF|done].
  - apply no_instance_register; [by apply HF|]. by intros _.
  - apply not_elem_of_cons in Hq as [Hqp Hq].
    apply no_instance_register; [by apply HG|done].
  - apply no_instance_register; [by apply HG|]. by intros _.
Qed.

End Register.

(** ** The invariant is kept by a turn *)

Lemma world_ok_ext m m' :
  schedule m' = schedule m → heap m' = heap m →
  cell_contents m' = cell_contents m → world_ok m → world_ok m'.
Proof.
  intros Hs Hh Hc Hw. eapply world_ok_shrinks; [exact Hw|].
  by apply shrinks_same.
Qed.

Lemma world_ok_wf_cells m : world_ok m → wf_cells m.
Proof. by intros (W1 & W2 & _). Qed.

(** The invariant does not depend on the order of the schedule. *)
Lemma world_ok_shuffle m order :
  order ≡ₚ schedule m → world_ok m → world_ok (set_schedule order m).
Proof.
  intros Hperm (W1 & W2 & W3 & W4 & W5).
  split; [exact W1|]. split; [exact W2|]. split; [exact W3|].
  split; [|exact W5].
  intros a Ha. simpl in Ha. rewrite Hperm in Ha. by apply W4.
Qed.

Lemma shrinks_get_available_cell fuel m p m' :
  get_available_cell fuel m = Done (p, m') → shrinks m m'.
Proof.
  revert m. induction fuel as [|fuel IH]; intros m; [done|]. simpl.
  intros H.
  apply bind_Done in H as ([x r1] & _ & H).
  apply bind_Done in H as ([y r2] & _ & H).
  destruct (negb _).
  - injection H as <- <-. by apply shrinks_same.
  - apply IH in H. eapply shrinks_trans; [|exact H]. by apply shrinks_same.
Qed.

Lemma world_ok_spawn fuel m m' :
  world_ok m → spawn fuel m = Done m' → world_ok m'.
Proof.
  intros Hw. unfold spawn. destruct (rnd_random (random m)) as [k r'].
  destruct (lt_0_05 k).
  - intros H. apply bind_Done in H as ([p m1] & H1 & H).
    apply shrinks_get_available_cell in H1.
    assert (Hw1 : world_ok m1).
    { eapply world_ok_shrinks; [|exact H1]. by eapply world_ok_ext. }
    destruct (negb _) eqn:Hfree; [|by injection H as <-].
    injection H as <-.
    apply negb_true_iff in Hfree. unfold get_contents_at in Hfree.
    rewrite existsb_app in Hfree. apply orb_false_iff in Hfree as [_ Hfree].
    eapply (world_ok_register m1 _ p (Disturbance _ mild 0)
              (fresh (dom (heap m1)))); try done.
    apply fresh_heap.
  - intros [= <-]. by eapply world_ok_ext.
Qed.

Lemma world_ok_step fuel m m' :
  world_ok m → step fuel m = Done m' → world_ok m'.
Proof.
  intros Hw. unfold step, advance_disturbances. intros H.
  apply bind_Done in H as (m1 & H1 & H).
  apply bind_Done in H as (m2 & H2 & [= <-]).
  apply shrinks_schedule_step in H1.
  assert (Hw1 : world_ok m1).
  { eapply world_ok_shrinks; [|exact H1]. apply world_ok_shuffle.
    - apply rnd_shuffle_perm.
    - by eapply world_ok_ext. }
  assert (Hw2 : world_ok m2).
  { eapply world_ok_spawn; [|exact H2].
    eapply world_ok_shrinks; [exact Hw1|].
    by apply shrinks_escalate, world_ok_wf_cells. }
  eapply world_ok_ext; [..|exact Hw2];
    unfold check_game_over; by destruct (_ || _).
Qed.

(** ** The invariant is established by the setup *)

Lemma setup_walls_world m m' :
  setup_walls m = Done m' →
  schedule m' = schedule m ∧ heap m' = heap m
  ∧ cell_contents m' = cell_contents m.
Proof.
  unfold setup_walls. intros H.
  refine (for_each_inv
            (λ m0, schedule m0 = schedule m ∧ heap m0 = heap m
                   ∧ cell_contents m0 = cell_contents m) _ _ _ _ _ _ H);
    [|done].
  intros m1 row m2 H1 Hrow.
  refine (for_each_inv
            (λ m0, schedule m0 = schedule m ∧ heap m0 = heap m
                   ∧ cell_contents m0 = cell_contents m) _ _ _ _ _ H1 Hrow).
  intros m3 col m4 H3. destruct (_ ≫= _) as [str|]; [|done].
  intros Hw. apply bind_Done in Hw as (fl & _ & [= <-]). exact H3.
Qed.

Lemma setup_agent_unregistered st x st' :
  (cell_contents st.1 = []
   ∧ ∀ a, a ∈ schedule st.1 → isinstance (heap st.1) CTacticalAgent a = true) →
  setup_agent st x = Done st' →
  cell_contents st'.1 = []
  ∧ ∀ a, a ∈ schedule st'.1 → isinstance (heap st'.1) CTacticalAgent a = true.
Proof.
  destruct st as [m g], st' as [m' g']. intros [Hc Ha]. unfold setup_agent.
  simpl. intros H. apply bind_Done in H as ([q g1] & _ & H). simpl in H.
  destruct (_ && _); [|done]. injection H as <- <-. simpl.
  split; [exact Hc|]. intros a [Hin|Hin]%elem_of_app;
    [|apply list_elem_of_singleton in Hin as ->].
  - destruct (decide (a = fresh (dom (heap m)))) as [->|Hne].
    + apply Ha in Hin. unfold isinstance in Hin. by rewrite fresh_heap in Hin.
    + rewrite isinstance_insert_ne by done. by apply Ha.
  - by rewrite isinstance_insert_eq.
Qed.

Lemma setup_ok_unregistered m :
  cell_contents m = [] →
  (∀ a, a ∈ schedule m → isinstance (heap m) CTacticalAgent a = true) →
  setup_ok [] [] m.
Proof.
  intros Hc Ha. unfold setup_ok, world_ok, no_instance. rewrite Hc. simpl.
  split; [|done].
  split; [apply NoDup_nil_2|]. split; [apply NoDup_nil_2|].
  split; [intros x Hx; by apply elem_of_nil in Hx|].
  split; [exact Ha|]. intros L HL. by apply elem_of_nil in HL.
Qed.

Lemma setup_ok_poi F G m poi : setup_ok F G m → setup_ok F G (setup_poi m poi).
Proof.
  intros Hok. destruct poi as [[r c] kind].
  pose proof (setup_ok_register
                (set_next_entity_id (next_entity_id m + 1) m)
                (setup_poi m (r, c, kind)) (c - 1, r - 1)
                (match kind with
                 | poi_v => Hostage (next_entity_id m + 1)
                 | poi_f => FalseAlarm (next_entity_id m + 1)
                 end)
                (fresh (dom (heap m))) (fresh_heap _)) as Hreg.
  specialize (Hreg eq_refl eq_refl eq_refl (proj1 Hok) F G Hok).
  destruct kind; by apply Hreg.
Qed.

Lemma setup_ok_fire F G m rc :
  (rc.2 - 1, rc.1 - 1) ∉ F →
  setup_ok F G m → setup_ok ((rc.2 - 1, rc.1 - 1) :: F) G (setup_fire m rc).
Proof.
  intros Hp Hok. destruct rc as [r c].
  pose proof (setup_ok_register
                (set_next_entity_id (next_entity_id m + 1) m)
                (setup_fire m (r, c)) (c - 1, r - 1)
                (Disturbance (next_entity_id m + 1) mild 0)
                (fresh (dom (heap m))) (fresh_heap _)) as Hreg.
  specialize (Hreg eq_refl eq_refl eq_refl (proj1 Hok) F G Hok).
  by apply Hreg.
Qed.

Lemma setup_ok_door F G st door st' :
  (door.1.1.2 - 1, door.1.1.1 - 1) ∉ G →
  setup_ok F G st.1 → setup_door st door = Done st' →
  setup_ok F ((door.1.1.2 - 1, door.1.1.1 - 1) :: G) st'.1.
Proof.
  destruct st as [m g], st' as [m' g'], door as [[[r1 c1] r2] c2].
  intros Hp Hok. unfold setup_door. simpl.
  intros H. apply bind_Done in H as ([is_open g1] & _ & H). simpl in H.
  injection H as <- <-.
  pose proof (setup_ok_register
                (set_next_entity_id (next_entity_id m + 1) m)
                (cell_append (c1 - 1, r1 - 1) (fresh (dom (heap m)))
                   (set_heap
                      (<[fresh (dom (heap m))
                         := Gate (next_entity_id m + 1) is_open]> (heap m))
                      (set_next_entity_id (next_entity_id m + 1) m)))
                (c1 - 1, r1 - 1)
                (Gate (next_entity_id m + 1) is_open)
                (fresh (dom (heap m))) (fresh_heap _)) as Hreg.
  specialize (Hreg eq_refl eq_refl eq_refl (proj1 Hok) F G Hok).
  by apply Hreg.
Qed.

Lemma setup_ok_pois l : ∀ F G m,
  setup_ok F G m → setup_ok F G (fold_left setup_poi l m).
Proof.
  induction l as [|poi l IH]; intros F G m Hok; simpl; [done|].
  by apply IH, setup_ok_poi.
Qed.

Lemma setup_ok_fires l : ∀ F G m,
  NoDup ((λ rc : Z * Z, (rc.2 - 1, rc.1 - 1)) <$> l) →
  (∀ q, q ∈ (λ rc : Z * Z, (rc.2 - 1, rc.1 - 1)) <$> l → q ∉ F) →
  setup_ok F G m → ∃ F', setup_ok F' G (fold_left setup_fire l m).
Proof.
  induction l as [|rc l IH]; intros F G m Hnd Hout Hok; simpl; [by exists F|].
  rewrite fmap_cons in Hnd. apply NoDup_cons in Hnd as [Hrc Hnd].
  apply (IH ((rc.2 - 1, rc.1 - 1) :: F)); [done| |].
  - intros q Hq. apply not_elem_of_cons. split; [by intros ->|].
    apply Hout. rewrite fmap_cons. by right.
  - apply setup_ok_fire; [|done]. apply Hout. rewrite fmap_cons. by left.
Qed.

Lemma setup_ok_doors l : ∀ F G st st',
  NoDup ((λ d : Z * Z * Z * Z, (d.1.1.2 - 1, d.1.1.1 - 1)) <$> l) →
  (∀ q, q ∈ (λ d : Z * Z * Z * Z, (d.1.1.2 - 1, d.1.1.1 - 1)) <$> l → q ∉ G) →
  setup_ok F G st.1 → for_each setup_door l st = Done st' →
  ∃ G', setup_ok F G' st'.1.
Proof.
  induction l as [|d l IH]; intros F G st st' Hnd Hout Hok; simpl.
  - intros [= <-]. by exists G.
  - intros H. apply bind_Done in H as (st1 & H1 & H).
    rewrite fmap_cons in Hnd. apply NoDup_cons in Hnd as [Hd Hnd].
    apply (IH F ((d.1.1.2 - 1, d.1.1.1 - 1) :: G) st1 st'); [done| | |done].
    + intros q Hq. apply not_elem_of_cons. split; [by intros ->|].
      apply Hout. rewrite fmap_cons. by right.
    + eapply setup_ok_door; [|done|done]. apply Hout. rewrite fmap_cons.
      by left.
Qed.

(** The model built by [RescueModel(width, height)] satisfies the
    invariant, whatever the two generators draw. *)
Lemma world_ok_init (seed : R) width height g m g' :
  RescueModel_init seed width height g = Done (m, g') → world_ok m.
Proof.
  unfold RescueModel_init, setup_fixed_grid. intros H.
  apply bind_Done in H as (m1 & H1 & H).
  apply setup_walls_world in H1 as (Hs1 & Hh1 & Hc1). simpl in Hs1, Hh1, Hc1.
  apply bind_Done in H as ([m2 g2] & H2 & H).
  assert (Hm2 : cell_contents m2 = []
                ∧ ∀ a, a ∈ schedule m2 →
                       isinstance (heap m2) CTacticalAgent a = true).
  { refine (for_each_inv
              (λ st : RescueModel R * R,
                 cell_contents st.1 = []
                 ∧ ∀ a, a ∈ schedule st.1 →
                        isinstance (heap st.1) CTacticalAgent a = true)
              _ _ setup_agent_unregistered _ (m2, g2) _ H2).
    cbn [fst]. split; [exact Hc1|]. cbn [schedule set_entry_points].
    rewrite Hs1. intros a Ha. by apply elem_of_nil in Ha. }
  destruct Hm2 as [Hc2 Ha2].
  pose proof (setup_ok_unregistered m2 Hc2 Ha2) as Hok.
  apply (setup_ok_pois points_of_interest) in Hok.
  apply (setup_ok_fires fire_markers) in Hok as [F Hok].
  - eapply (setup_ok_doors doors) in H as [G Hok']; [apply Hok'| | |exact Hok].
    + decide_tac.
    + intros q _. apply not_elem_of_nil.
  - decide_tac.
  - intros q _. apply not_elem_of_nil.
Qed.

(** Every state the simulation reaches satisfies the invariant. *)
Lemma reachable_world_ok m : reachable m → world_ok m.
Proof.
  induction 1 as [seed width height g m g' Hinit|fuel m m' _ IH Hstep].
  - by eapply world_ok_init.
  - by eapply world_ok_step.
Qed.

(** The registry of a reachable state is a dict in which no object is
    registered twice. *)
Lemma reachable_wf_cells m : reachable m → wf_cells m.
Proof. intros Hr. by apply world_ok_wf_cells, reachable_world_ok. Qed.



(** A cell of a reachable state holds at most one disturbance. *)
Lemma reachable_one_disturbance m p L :
  reachable m → od_lookup p (cell_contents m) = Some L →
  (length (List.filter (isinstance (heap m) CDisturbance) L) ≤ 1)%nat.
Proof.
  intros (_ & _ & _ & _ & W5)%reachable_world_ok HL.
  apply W5. by eapply od_lookup_elem_of.
Qed.

(** ** Movement in reachable states *)


End Properties.

(** * The properties on concrete worlds *)

(** ** Movement *)


(** The diagonal cell (3, 1) is on the grid, is no neighbour of (2, 0) and
    holds no gate, yet the right flag of (2, 0) makes the move illegal. *)
Lemma can_move_to_diagonal_blocked :
  ¬ (∀ (m : RescueModel (list Z)) (from_pos to_pos : Pos),
       in_grid m to_pos →
       (∀ s, to_pos ≠ neighbor from_pos s) →
       has_closed_gate m (get_contents_at m to_pos) = false →
       can_move_to m from_pos to_pos = true).
Proof.
  intros Hclaim.
  specialize (Hclaim initial_model (2, 0) (3, 1)).
  assert (Hfalse : can_move_to initial_model (2, 0) (3, 1) = false)
    by (vm_compute; reflexivity).
  rewrite Hclaim in Hfalse; [discriminate Hfalse| | |].
  - in_grid_tac.
  - intros [] H; vm_compute in H; discriminate H.
  - vm_compute. reflexivity.
Qed.

Lemma can_move_to_no_adjacency_check_witness :
  in_grid initial_model (4, 2)
  ∧ has_closed_gate initial_model (get_contents_at initial_model (4, 2)) = false
  ∧ can_move_to initial_model (2, 0) (4, 2) = true
  ∧ can_move_to initial_model (2, 0) (2, 0) = true.
Proof.
  assert (H1 : in_grid initial_model (4, 2)) by in_grid_tac.
  assert (H2 : has_closed_gate initial_model
                 (get_contents_at initial_model (4, 2)) = false)
    by (vm_compute; reflexivity).
  split; [exact H1|]. split; [exact H2|]. split.
  - apply (proj2 (can_move_to_no_adjacency_check initial_model (2, 0) (4, 2)
                    H1 H2)); vm_compute; intros H; discriminate H.
  - apply (proj2 (can_move_to_no_adjacency_check initial_model (2, 0) (2, 0)
                    ltac:(in_grid_tac) ltac:(vm_compute; reflexivity)));
      vm_compute; intros H; discriminate H.
Defined.

(** ** Breaking walls *)

(** The wall between (2, 0) and (3, 0) of the fixed scenario. *)
Lemma break_wall_between_symmetric_witness :
  (3, 0) = neighbor (2, 0) Right
  ∧ has_wall_between initial_model (2, 0) (3, 0) = true
  ∧ has_wall_between (break_wall_between (2, 0) (3, 0) initial_model)
      (2, 0) (3, 0) = false
  ∧ has_wall_between (break_wall_between (2, 0) (3, 0) initial_model)
      (3, 0) (2, 0) = false.
Proof.
  split; [reflexivity|]. split; [vm_compute; reflexivity|].
  pose proof (break_wall_between_symmetric initial_model (2, 0) (3, 0) Right
                eq_refl) as (_ & _ & _ & _ & _ & H1 & H2 & _).
  split; [exact H1|exact H2].
Defined.

(** ** Snapshot *)

(** A cell that is an entry point and holds an open gate is encoded as the
    gate (9), not as the entry point (6). *)
Lemma snapshot_gate_over_entry_point :
  ¬ (∀ (m : RescueModel (list Z)) (p : Pos),
       p ∈ entry_points m →
       holds m CGate p = true →
       holds m CTacticalAgent p = false →
       holds m CHostage p = false →
       holds m CDisturbance p = false →
       holds m CFalseAlarm p = false →
       cell_code m p = 6).
Proof.
  intros Hclaim.
  specialize (Hclaim gate_on_entry_model (0, 0)).
  assert (Hcode : cell_code gate_on_entry_model (0, 0) = 9)
    by (vm_compute; reflexivity).
  rewrite Hclaim in Hcode; [discriminate Hcode|..];
    try (vm_compute; reflexivity).
  apply list_elem_of_In. left. reflexivity.
Qed.

Lemma cell_code_priority_witness :
  find_instance gate_on_entry_model CGate
    (get_contents_at gate_on_entry_model (0, 0)) = Some 0%nat
  ∧ cell_code gate_on_entry_model (0, 0) = 9
  ∧ gs_grid (get_grid_state gate_on_entry_model) !! 0%nat ≫= (.!! 0%nat)
    = Some 9.
Proof.
  assert (Hg : find_instance gate_on_entry_model CGate
                 (get_contents_at gate_on_entry_model (0, 0)) = Some 0%nat)
    by (vm_compute; reflexivity).
  pose proof (cell_code_priority gate_on_entry_model (0, 0))
    as (_ & _ & _ & _ & Hgate & _ & Hsnap).
  assert (Hcode : cell_code gate_on_entry_model (0, 0) = 9).
  { rewrite (Hgate eq_refl eq_refl eq_refl eq_refl _ Hg). reflexivity. }
  split; [exact Hg|]. split; [exact Hcode|].
  rewrite <- Hcode. apply Hsnap. in_grid_tac.
Defined.

(** ** Outcome evaluator *)

Lemma outcome_priority_witness :
  step 10 initial_model = Done after_first_turn
  ∧ running after_first_turn = running initial_model
  ∧ fs_result (get_final_stats after_first_turn) = "TIEMPO AGOTADO".
Proof.
  assert (Hstep : step 10 initial_model = Done after_first_turn)
    by (vm_compute; reflexivity).
  split; [exact Hstep|].
  apply (proj2 (proj2 (proj2 (outcome_priority 10 initial_model _ Hstep))));
    apply Z.ltb_lt; vm_compute; reflexivity.
Defined.

(** ** Action points *)

Lemma TacticalAgent_step_budget_witness :
  heap initial_model !! 0%nat = Some (TacticalAgent 1 (5, 0) 4 false)
  ∧ ∃ log m' u' p' c',
      TacticalAgent_step 5 0%nat initial_model = Done (log, m')
      ∧ budget_log 4 log
      ∧ (length log ≤ 4)%nat
      ∧ heap m' !! 0%nat = Some (TacticalAgent u' p' (final_ap 4 log) c')
      ∧ 0 ≤ final_ap 4 log ≤ 4
      ∧ (length log = 4%nat → final_ap 4 log = 0).
Proof.
  assert (H0 : heap initial_model !! 0%nat = Some (TacticalAgent 1 (5, 0) 4 false))
    by (vm_compute; reflexivity).
  split; [exact H0|].
  apply (TacticalAgent_step_budget 5 initial_model 0%nat 1 (5, 0) 4 false H0).
  apply Nat.leb_le. reflexivity.
Defined.

(** ** Explosion *)


(** ** Spawn draw *)





(** ** The one-cell rescue *)

(** With the constants of [check_game_over] one rescue does not end the
    run, and on a grid with a free neighbouring cell a source that always
    draws the first candidate makes the agent walk instead of rescuing. *)
Lemma one_rescue_is_no_victory :
  (∃ m', step 5 (rescue_world (Wall.Flags true true true true) [] 4 false
                   [1%nat] 0 0) = Done m'
         ∧ hostages_rescued m' = 1
         ∧ running m' = true
         ∧ fs_result (get_final_stats m') ≠ "VICTORIA")
  ∧ (∃ m', step 5 corridor_world = Done m'
           ∧ hostages_rescued m' = 0
           ∧ holds m' CHostage (0, 0) = true).
Proof.
  split.
  - eexists. split; [vm_compute; reflexivity|].
    split; [reflexivity|]. split; [reflexivity|].
    vm_compute. intros H. discriminate H.
  - eexists. split; [vm_compute; reflexivity|].
    split; vm_compute; reflexivity.
Qed.

Lemma one_cell_rescue_witness :
  (3 ≤ 3)%nat
  ∧ ∃ m',
      step 3 (rescue_world (Wall.Flags true true true true) ([] : list Z) 4
                false [1%nat] 0 0) = Done m'
      ∧ hostages_rescued m' = 1
      ∧ turn_counter m' = 1
      ∧ heap m' !! 0%nat = Some (TacticalAgent 1 (0, 0) 1 false)
      ∧ holds m' CHostage (0, 0) = false
      ∧ hostages_lost m' = 0
      ∧ structural_damage m' = 0
      ∧ running m' = true
      ∧ fs_result (get_final_stats m') = "TIEMPO AGOTADO".
Proof.
  assert (H3 : (3 ≤ 3)%nat) by (apply Nat.leb_le; reflexivity).
  split; [exact H3|].
  exact (one_cell_rescue (Wall.Flags true true true true) [] 3 H3).
Defined.

(** ** Random sources *)

(** C3.  The setup draws the entry points of the agents and the initial
    state of the gates from the module-level generator and never from
    [self.random]: the model keeps the generator state it was constructed
    with, and two constructions with the same such state differ as soon as
    the module-level generator does. *)
Theorem setup_draws_from_module_generator :
  (∀ (R : Type) (RS : RandomSource R) (seed : R) width height g m g',
     RescueModel_init seed width height g = Done (m, g') → random m = seed)
  ∧ RescueModel_init [] 8 6 [] = Done (initial_model, [])
  ∧ RescueModel_init [] 8 6 [0; 0; 0; 0; 0; 0; 1] = Done (gated_model, [])
  ∧ random initial_model = random gated_model
  ∧ cell_code initial_model (2, 0) = 9
  ∧ cell_code gated_model (2, 0) = 10.
Proof.
  split.
  { intros R RS seed width height g m g'. apply RescueModel_init_random. }
  split; [vm_compute; reflexivity|].
  split; [vm_compute; reflexivity|].
  split; [vm_compute; reflexivity|].
  split; vm_compute; reflexivity.
Qed.

Lemma setup_draws_from_module_generator_witness :
  RescueModel_init [] 8 6 [] = Done (initial_model, [])
  ∧ random initial_model = [].
Proof.
  assert (H : RescueModel_init [] 8 6 [] = Done (initial_model, []))
    by (vm_compute; reflexivity).
  split; [exact H|].
  exact (proj1 setup_draws_from_module_generator _ _ _ _ _ _ _ _ H).
Defined.


(** * The run as a sequence of events *)

Section Runs.
Context {R : Type} `{!RandomSource R}.
Implicit Types (m : RescueModel R) (p : Pos) (s : Side).

(** ** The candidates of the decision loop *)

Lemma find_instance_Some m k L x :
  find_instance m k L = Some x → x ∈ L ∧ isinstance (heap m) k x = true.
Proof.
  unfold find_instance. intros Hx.
  assert (Hin : In x (List.filter (isinstance (heap m) k) L)).
  { destruct (List.filter _ L) as [|y l]; simpl in Hx; [done|].
    injection Hx as ->. by left. }
  apply filter_In in Hin as [Hin Hk]. split; [by apply list_elem_of_In|done].
Qed.

Lemma possible_actions_inv m p ap c a cost :
  (a, cost) ∈ possible_actions m p ap c → legal m p ap c a cost.
Proof.
  unfold possible_actions. rewrite !elem_of_app.
  intros [H|[H|[H|[H|[H|[H|H]]]]]].
  - apply list_elem_of_In, in_flat_map in H as (q & Hq & H).
    apply list_elem_of_In in Hq.
    destruct (can_move_to m p q) eqn:Hcan; [|by destruct H].
    destruct (_ <=? ap) eqn:Hle; [|by destruct H].
    destruct H as [[= <- <-]|[]]. apply Z.leb_le in Hle. by repeat split.
  - destruct c; simpl in H; [by apply elem_of_nil in H|].
    destruct (find_instance _ _ _) as [x|] eqn:Hx; [|by apply elem_of_nil in H].
    destruct (2 <=? ap) eqn:Hle; [|by apply elem_of_nil in H].
    apply list_elem_of_singleton in H as [= -> ->]. apply Z.leb_le in Hle.
    by repeat split.
  - destruct (find_instance _ _ _) as [x|] eqn:Hx; [|by apply elem_of_nil in H].
    destruct (1 <=? ap) eqn:Hle; [|by apply elem_of_nil in H].
    apply list_elem_of_singleton in H as [= -> ->]. apply Z.leb_le in Hle.
    by repeat split.
  - destruct (c && _ && (1 <=? ap)) eqn:Hb; [|by apply elem_of_nil in H].
    apply list_elem_of_singleton in H as [= -> ->].
    apply andb_true_iff in Hb as [Hb Hle].
    apply andb_true_iff in Hb as [Hc Hp]. apply Z.leb_le in Hle.
    apply bool_decide_eq_true in Hp. simpl. destruct c; done.
  - destruct (find_instance _ _ _) as [x|] eqn:Hx; [|by apply elem_of_nil in H].
    destruct (bool_decide _ && (1 <=? ap)) eqn:H1.
    { apply list_elem_of_singleton in H as [= -> ->].
      apply andb_true_iff in H1 as [Hs Hle].
      apply bool_decide_eq_true in Hs. apply Z.leb_le in Hle.
      split; [done|]. split; [by left|done]. }
    destruct (bool_decide _ && (2 <=? ap)) eqn:H2;
      [|by apply elem_of_nil in H].
    apply list_elem_of_singleton in H as [= -> ->].
    apply andb_true_iff in H2 as [Hs Hle].
    apply bool_decide_eq_true in Hs. apply Z.leb_le in Hle.
    split; [done|]. split; [by right|done].
  - destruct (find_instance _ _ _) as [x|] eqn:Hx; [|by apply elem_of_nil in H].
    destruct (1 <=? ap) eqn:Hle; [|by apply elem_of_nil in H].
    apply list_elem_of_singleton in H. apply Z.leb_le in Hle.
    destruct (is_open_of (heap m) x) eqn:Ho; injection H as -> ->;
      by repeat split.
  - destruct (2 <=? ap) eqn:Hle; [|by apply elem_of_nil in H].
    apply Z.leb_le in Hle.
    apply list_elem_of_In, in_flat_map in H as (q & Hq & H).
    apply list_elem_of_In in Hq.
    destruct (has_wall_between m p q) eqn:Hw; [|by destruct H].
    destruct H as [[= <- <-]|[]]. by repeat split.
Qed.

Lemma legal_cost m p ap c a cost : legal m p ap c a cost → 1 ≤ cost ≤ ap.
Proof.
  destruct a as [t|x|x| |x|g|g|t]; simpl; intros Hl.
  - destruct Hl as (_ & _ & -> & Hle).
    destruct (holds m CDisturbance t); lia.
  - lia.
  - lia.
  - lia.
  - destruct Hl as (_ & [[_ ->]|[_ ->]] & Hle); lia.
  - lia.
  - lia.
  - lia.
Qed.

(** ** Book-keeping events *)

Lemma bookkeeping_refl m : bookkeeping m m.
Proof. unfold bookkeeping. repeat split; try done; lia. Qed.

Lemma bookkeeping_trans m1 m2 m3 :
  bookkeeping m1 m2 → bookkeeping m2 m3 → bookkeeping m1 m3.
Proof.
  unfold bookkeeping.
  intros (A1 & A2 & A3 & A4 & A5 & A6 & A7 & A8 & A9 & A10 & A11 & A12 & A13)
         (B1 & B2 & B3 & B4 & B5 & B6 & B7 & B8 & B9 & B10 & B11 & B12 & B13).
  repeat split; try congruence; try lia. auto.
Qed.

Lemma bookkeeping_clear_flag m p s : bookkeeping m (clear_flag p s m).
Proof.
  unfold bookkeeping. repeat split; try done; try (simpl; lia).
  - unfold clear_flag. simpl. apply dom_alter_L.
  - intros q t. rewrite wall_flag_clear_flag. by case_decide.
Qed.

Lemma bookkeeping_break_wall_between m p q :
  bookkeeping m (break_wall_between p q m).
Proof.
  unfold break_wall_between.
  repeat case_match;
    repeat first [ apply bookkeeping_refl
                 | eapply bookkeeping_trans; [|apply bookkeeping_clear_flag] ].
Qed.

Lemma set_random_twice (r1 r2 : R) m :
  set_random r2 (set_random r1 m) = set_random r2 m.
Proof. by destruct m. Qed.

(** ** Every event keeps the agents of the schedule and the grid *)

Lemma occurs_frame m m' :
  occurs m m' →
  schedule m' ≡ₚ schedule m ∧ grid_width m' = grid_width m
  ∧ grid_height m' = grid_height m ∧ entry_points m' = entry_points m.
Proof.
  assert (Hrm : ∀ e q (m0 : RescueModel R),
            schedule (remove_entity e q m0) = schedule m0
            ∧ grid_width (remove_entity e q m0) = grid_width m0
            ∧ grid_height (remove_entity e q m0) = grid_height m0
            ∧ entry_points (remove_entity e q m0) = entry_points m0).
  { intros e q m0. unfold remove_entity. by repeat case_match. }
  assert (Heq : ∀ m1 : RescueModel R,
            schedule m1 = schedule m ∧ grid_width m1 = grid_width m
            ∧ grid_height m1 = grid_height m
            ∧ entry_points m1 = entry_points m →
            schedule m1 ≡ₚ schedule m ∧ grid_width m1 = grid_width m
            ∧ grid_height m1 = grid_height m
            ∧ entry_points m1 = entry_points m).
  { intros m1 (E1 & E2 & E3 & E4). rewrite E1. by repeat split. }
  destruct 1 as [m' Hb| | | | | | | | | |order Hperm];
    [..|by repeat split]; apply Heq; try done; try exact (Hrm _ _ _).
  - unfold bookkeeping in Hb. tauto.
  - pose proof (frame_escalate m) as Hf. unfold same_frame in Hf. tauto.
Qed.

Lemma rtc_occurs_frame m m' :
  rtc occurs m m' →
  schedule m' ≡ₚ schedule m ∧ grid_width m' = grid_width m
  ∧ grid_height m' = grid_height m ∧ entry_points m' = entry_points m.
Proof.
  induction 1 as [|m1 m2 m3 H12 _ IH]; [done|].
  apply occurs_frame in H12. destruct IH as (IH1 & ? & ? & ?).
  destruct H12 as (H121 & ? & ? & ?).
  split; [by etrans|]. repeat split; congruence.
Qed.

(** ** From the code to the events *)

Lemma choice_elem {A} (l : list A) (r : R) x r' :
  choice l r = Done (x, r') → x ∈ l.
Proof.
  unfold choice. destruct l as [|y l]; [done|].
  destruct (rnd_randbelow _ r) as [i r1].
  destruct ((y :: l) !! Z.to_nat i) as [z|] eqn:Hz; [|done].
  intros [= <- <-]. by eapply list_elem_of_lookup_2.
Qed.

Lemma isinstance_Gate h g :
  isinstance h CGate g = true →
  ∃ u o, h !! g = Some (Gate u o) ∧ is_open_of h g = o.
Proof.
  unfold isinstance, is_open_of.
  destruct (h !! g) as [[| |u o| |]|]; try done. intros _. by exists u, o.
Qed.

Lemma apply_action_occurs m self u p ap c a cost m1 :
  heap m !! self = Some (TacticalAgent u p ap c) →
  self ∈ schedule m →
  legal m p ap c a cost →
  apply_action self p a m = Done m1 →
  rtc occurs m m1.
Proof.
  intros Hself Hsched Hlegal.
  destruct a as [t|x|x| |x|g|g|t]; simpl in Hlegal; simpl.
  - destruct Hlegal as (Ht & Hcan & _).
    unfold set_pos. rewrite Hself. intros [= <-].
    apply rtc_once. by eapply occ_move.
  - destruct Hlegal as (-> & Hx & _).
    apply find_instance_Some in Hx as [Hx Hk].
    unfold set_carrying_hostage. rewrite Hself. simpl. intros [= <-].
    apply rtc_once. by apply occ_rescue.
  - destruct Hlegal as (Hx & _).
    apply find_instance_Some in Hx as [Hx Hk]. intros [= <-].
    apply rtc_once. by apply occ_investigate.
  - destruct Hlegal as (-> & Hp & _).
    unfold set_carrying_hostage. rewrite Hself. simpl. intros [= <-].
    apply rtc_once. by apply occ_dropoff.
  - destruct Hlegal as (Hx & _).
    apply find_instance_Some in Hx as [Hx Hk]. intros [= <-].
    apply rtc_once. by apply occ_contain.
  - destruct Hlegal as (Hg & Hopen & _).
    apply find_instance_Some in Hg as [_ Hk].
    apply isinstance_Gate in Hk as (ug & o & Hg & Ho).
    rewrite Hopen in Ho. subst o.
    unfold set_is_open. rewrite Hg. intros [= <-].
    apply rtc_once. apply (occ_gate m g ug false Hg).
  - destruct Hlegal as (Hg & Hopen & _).
    apply find_instance_Some in Hg as [_ Hk].
    apply isinstance_Gate in Hk as (ug & o & Hg & Ho).
    rewrite Hopen in Ho. subst o.
    unfold set_is_open. rewrite Hg. intros [= <-].
    apply rtc_once. apply (occ_gate m g ug true Hg).
  - intros [= <-]. apply rtc_once. apply occ_ledger.
    eapply bookkeeping_trans; [apply (bookkeeping_break_wall_between m p t)|].
    unfold bookkeeping. repeat split; try done; simpl; lia.
Qed.

Lemma step_loop_occurs fuel self :
  ∀ m log m', self ∈ schedule m →
    step_loop fuel self m = Done (log, m') → rtc occurs m m'.
Proof.
  induction fuel as [|fuel IH]; intros m log m' Hsched; [done|].
  simpl. destruct (heap m !! self) as [[| | | |u p ap c]|] eqn:Hself; try done.
  destruct (negb (0 <? ap)); [by intros [= <- <-]|].
  destruct (possible_actions m p ap c) as [|a0 acts] eqn:Hacts;
    [by intros [= <- <-]|].
  intros H.
  apply bind_Done in H as ([[a cost] r'] & Hch & H). simpl in H.
  apply bind_Done in H as (m1 & H1 & H).
  apply bind_Done in H as (m2 & H2 & H).
  apply bind_Done in H as ([log' m3] & H3 & [= <- <-]).
  apply choice_elem in Hch. rewrite <- Hacts in Hch.
  apply possible_actions_inv in Hch.
  pose proof (legal_cost _ _ _ _ _ _ Hch) as Hcost.
  assert (Hok : action_ok (set_random r' m) a).
  { destruct a; simpl; try done; simpl in Hch;
      destruct Hch as (Hg & _); by apply find_instance_Some in Hg as [_ Hg]. }
  destruct (apply_action_agent (set_random r' m) self p a u p ap c Hself Hok)
    as (m1' & u1 & p1 & c1 & Happ & Hself1).
  rewrite H1 in Happ. injection Happ as <-.
  assert (H01 : rtc occurs (set_random r' m) m1).
  { eapply (apply_action_occurs (set_random r' m)); [exact Hself|exact Hsched| |exact H1].
    exact Hch. }
  assert (H12 : occurs m1 m2).
  { unfold spend, set_action_points in H2. rewrite Hself1 in H2.
    injection H2 as <-. eapply occ_points; [exact Hself1| |right; lia].
    apply rtc_occurs_frame in H01 as (Hs & _). rewrite Hs. exact Hsched. }
  assert (H02 : rtc occurs m m2).
  { eapply rtc_l; [|eapply rtc_r; [exact H01|exact H12]].
    apply occ_ledger. unfold bookkeeping. repeat split; try done; simpl; lia. }
  eapply rtc_trans; [exact H02|]. eapply IH; [|exact H3].
  apply rtc_occurs_frame in H02 as (Hs & _). rewrite Hs. exact Hsched.
Qed.

Lemma activate_occurs fuel order :
  ∀ m m', (∀ a, a ∈ order → a ∈ schedule m) →
    activate fuel order m = Done m' → rtc occurs m m'.
Proof.
  induction order as [|a order IH]; intros m m' Hsub; simpl.
  - by intros [= <-].
  - intros H. apply bind_Done in H as ([log m2] & H1 & H).
    unfold TacticalAgent_step in H1.
    apply bind_Done in H1 as (m1 & H0 & H1).
    assert (Ha : a ∈ schedule m) by (apply Hsub; by left).
    assert (H01 : occurs m m1).
    { unfold set_action_points in H0.
      destruct (heap m !! a) as [[| | | |u p ap c]|] eqn:Hself; try done.
      injection H0 as <-. eapply occ_points; [exact Hself|exact Ha|by left]. }
    assert (H02 : rtc occurs m m2).
    { eapply rtc_l; [exact H01|]. eapply step_loop_occurs; [|exact H1].
      apply occurs_frame in H01 as (Hs & _). rewrite Hs. exact Ha. }
    eapply rtc_trans; [exact H02|]. apply IH; [|exact H].
    intros b Hb. apply rtc_occurs_frame in H02 as (Hs & _). rewrite Hs.
    apply Hsub. by right.
Qed.

Lemma schedule_step_occurs fuel m m' :
  schedule_step fuel m = Done m' → rtc occurs m m'.
Proof.
  unfold schedule_step.
  pose proof (rnd_shuffle_perm (schedule m) (random m)) as Hperm.
  destruct (rnd_shuffle _ _) as [order r']. simpl in Hperm. intros H.
  eapply rtc_l; [|eapply rtc_l; [|eapply activate_occurs; [|exact H]]].
  - apply (occ_ledger m (set_random r' m)).
    unfold bookkeeping. repeat split; try done; simpl; lia.
  - apply (occ_shuffle (set_random r' m) order). exact Hperm.
  - intros a Ha. exact Ha.
Qed.

Lemma get_available_cell_Done fuel :
  ∀ m p m', get_available_cell fuel m = Done (p, m') →
    ∃ r, m' = set_random r m ∧ in_grid m p
         ∧ has_closed_gate m (get_contents_at m p) = false.
Proof.
  induction fuel as [|fuel IH]; intros m p m'; [done|]. simpl. intros H.
  apply bind_Done in H as ([x r1] & Hx & H).
  apply bind_Done in H as ([y r2] & Hy & H).
  unfold randrange in Hx, Hy.
  destruct (0 <? grid_width m) eqn:HW; [|done].
  destruct (0 <? grid_height m) eqn:HH; [|done].
  apply Z.ltb_lt in HW, HH.
  pose proof (rnd_randbelow_range (grid_width m) (random m) HW) as Hxr.
  pose proof (rnd_randbelow_range (grid_height m) r1 HH) as Hyr.
  injection Hx as Hx. injection Hy as Hy. rewrite Hx in Hxr.
  rewrite Hy in Hyr. simpl in Hxr, Hyr.
  destruct (negb _) eqn:Hfree.
  - injection H as <- <-. exists r2. apply negb_true_iff in Hfree.
    split; [done|]. split; [done|exact Hfree].
  - apply IH in H as (r & -> & Hin & Hg). exists r.
    rewrite set_random_twice. done.
Qed.

Lemma spawn_occurs fuel m m' : spawn fuel m = Done m' → rtc occurs m m'.
Proof.
  unfold spawn. destruct (rnd_random (random m)) as [k r'].
  assert (Hdraw : ∀ r, occurs m (set_random r m)).
  { intros r. apply occ_ledger. unfold bookkeeping.
    repeat split; try done; simpl; lia. }
  destruct (lt_0_05 k); [|intros [= <-]; apply rtc_once, Hdraw].
  intros H. apply bind_Done in H as ([p m1] & H1 & H).
  apply get_available_cell_Done in H1 as (r & -> & Hin & Hgate).
  rewrite set_random_twice in H.
  destruct (negb _) eqn:Hfree;
    [|injection H as <-; apply rtc_once, Hdraw].
  injection H as <-. apply negb_true_iff in Hfree.
  eapply rtc_l; [apply (Hdraw r)|]. apply rtc_once.
  by apply (occ_spawn (set_random r m) p).
Qed.

Lemma check_game_over_occurs m : occurs m (check_game_over m).
Proof.
  apply occ_ledger. unfold check_game_over.
  destruct (_ || _); unfold bookkeeping; repeat split; try done; simpl; lia.
Qed.

Lemma collect_occurs m v : occurs m (set_datacollector v m).
Proof.
  apply occ_ledger. unfold bookkeeping. repeat split; try done; simpl; lia.
Qed.

(** A turn is a sequence of events, then the outcome evaluator and the
    recording of the snapshot. *)
Lemma step_occurs fuel m m' :
  step fuel m = Done m' →
  ∃ m2, rtc occurs m m2
        ∧ running m2 = running m
        ∧ turn_counter m2 = turn_counter m + 1
        ∧ datacollector m2 = datacollector m
        ∧ m' = set_datacollector
                 (datacollector m2 ++ [get_grid_state (check_game_over m2)])
                 (check_game_over m2).
Proof.
  unfold step, advance_disturbances. intros H.
  apply bind_Done in H as (m1 & H1 & H).
  apply bind_Done in H as (m2 & H2 & [= <-]).
  exists m2.
  pose proof (frame_schedule_step _ _ _ H1) as (F1 & _ & _ & _ & _ & T1 & D1).
  pose proof (frame_escalate m1) as (F2 & _ & _ & _ & _ & T2 & D2).
  pose proof (frame_spawn _ _ _ H2) as (F3 & _ & _ & _ & _ & T3 & D3).
  simpl in F1, T1, D1.
  split; [|split; [congruence|split; [congruence|split; [congruence|]]]].
  - eapply rtc_l.
    { apply (occ_ledger m (set_turn_counter (turn_counter m + 1) m)).
      unfold bookkeeping. repeat split; try done; simpl; lia. }
    eapply rtc_trans; [by eapply schedule_step_occurs|].
    eapply rtc_l; [apply occ_escalate|]. by eapply spawn_occurs.
  - f_equal. unfold check_game_over. by destruct (_ || _).
Qed.

Lemma playable_rtc m m' : playable m → rtc occurs m m' → playable m'.
Proof.
  intros Hp. induction 1 as [|m1 m2 m3 H12 _ IH]; [done|].
  apply IH. by eapply playable_occurs.
Qed.

Lemma reachable_playable m : reachable m → playable m.
Proof.
  induction 1 as [seed width height g m g' Hinit|fuel m m' _ IH Hstep].
  - by eapply playable_init.
  - apply step_occurs in Hstep as (m2 & H2 & _ & _ & _ & ->).
    eapply playable_occurs; [|apply collect_occurs].
    eapply playable_occurs; [|apply check_game_over_occurs].
    by eapply playable_rtc.
Qed.

(** ** What the constructor builds *)

Lemma set_walls_twice (v w : gmap Pos Wall.flags) m :
  set_walls v (set_walls w m) = set_walls v m.
Proof. by destruct m. Qed.

Lemma setup_walls_shape m m' :
  setup_walls m = Done m' → ∃ ws, m' = set_walls ws m.
Proof.
  unfold setup_walls. intros H.
  refine (for_each_inv (λ m0, ∃ ws, m0 = set_walls ws m) _ _ _ _ _ _ H);
    [|by exists ∅].
  intros m1 row m2 H1 Hrow.
  refine (for_each_inv (λ m0, ∃ ws, m0 = set_walls ws m) _ _ _ _ _ H1 Hrow).
  intros m3 col m4 [ws ->]. destruct (_ ≫= _) as [str|]; [|done].
  intros Hw. apply bind_Done in Hw as (fl & _ & [= <-]).
  eexists. apply set_walls_twice.
Qed.

Lemma setup_agent_shape m (g : R) i m' g' :
  setup_agent (m, g) i = Done (m', g') →
  ∃ p, p ∈ entry_points m ∧ in_grid m p ∧ m' = enlist m p.
Proof.
  unfold setup_agent. simpl. intros H.
  apply bind_Done in H as ([p g1] & Hp & H). simpl in H.
  apply choice_elem in Hp.
  destruct (_ && _) eqn:Hin; [|done]. injection H as <- <-.
  exists p. split; [exact Hp|]. split; [|done].
  repeat (apply andb_true_iff in Hin as [Hin ?]). unfold in_grid. lia.
Qed.

Lemma setup_agents_shape l :
  ∀ m (g : R) m' g',
    for_each setup_agent l (m, g) = Done (m', g') →
    ∃ ps, length ps = length l
          ∧ Forall (λ p, p ∈ entry_points m ∧ in_grid m p) ps
          ∧ m' = fold_left enlist ps m.
Proof.
  induction l as [|i l IH]; intros m g m' g'; cbn [for_each].
  - intros [= <- <-]. by exists [].
  - intros H. apply bind_Done in H as ([m1 g1] & H1 & H).
    apply setup_agent_shape in H1 as (p & Hp & Hin & ->).
    apply IH in H as (ps & Hlen & Hps & ->).
    exists (p :: ps). simpl. split; [by rewrite Hlen|]. split; [|done].
    constructor; [done|exact Hps].
Qed.

Lemma setup_door_shape m (g : R) d m' g' :
  setup_door (m, g) d = Done (m', g') → ∃ b, m' = install_door m (d, b).
Proof.
  destruct d as [[[r1 c1] r2] c2]. unfold setup_door. simpl. intros H.
  apply bind_Done in H as ([b g1] & _ & H). simpl in H.
  injection H as <- <-. by exists b.
Qed.

Lemma setup_doors_shape l :
  ∀ m (g : R) m' g',
    for_each setup_door l (m, g) = Done (m', g') →
    ∃ bs, length bs = length l ∧ m' = fold_left install_door (zip l bs) m.
Proof.
  induction l as [|d l IH]; intros m g m' g'; cbn [for_each].
  - intros [= <- <-]. by exists [].
  - intros H. apply bind_Done in H as ([m1 g1] & H1 & H).
    apply setup_door_shape in H1 as (b & ->).
    apply IH in H as (bs & Hlen & ->).
    exists (b :: bs). simpl. by rewrite Hlen.
Qed.

(** The constructor succeeds only with every agent placed on an entry
    point that lies on the grid, and then builds [built]. *)
Lemma init_built (seed : R) width height g m g' :
  RescueModel_init seed width height g = Done (m, g') →
  ∃ ws ps bs,
    length ps = 6%nat ∧ length bs = 8%nat
    ∧ Forall (λ p, p ∈ [(5, 0); (0, 2); (7, 3); (2, 5)]
                   ∧ (0 ≤ p.1 < width ∧ 0 ≤ p.2 < height)) ps
    ∧ m = built seed width height ws ps bs.
Proof.
  unfold RescueModel_init, setup_fixed_grid. intros H.
  apply bind_Done in H as (m1 & H1 & H).
  apply setup_walls_shape in H1 as (ws & ->).
  apply bind_Done in H as ([m2 g2] & H2 & H).
  apply setup_agents_shape in H2 as (ps & Hps & Hin & ->).
  apply setup_doors_shape in H as (bs & Hbs & ->).
  exists ws, ps, bs. split; [exact Hps|]. split; [exact Hbs|].
  split; [exact Hin|]. done.
Qed.

(** ** The events keep the invariant of the world *)

Lemma registry_of_contents m p x k :
  world_ok m → k ≠ CTacticalAgent →
  x ∈ get_contents_at m p → isinstance (heap m) k x = true →
  x ∈ default [] (od_lookup p (cell_contents m)).
Proof.
  intros (_ & _ & _ & W4 & _) Hk Hx Hi. unfold get_contents_at in Hx.
  apply elem_of_app in Hx as [Hx|Hx]; [|done]. exfalso.
  unfold get_cell_list_contents in Hx.
  apply list_elem_of_In, filter_In in Hx as [Hx _].
  apply list_elem_of_In, W4 in Hx. unfold isinstance in Hx, Hi.
  destruct (heap m !! x) as [o|]; [|done].
  apply bool_decide_eq_true in Hx, Hi. congruence.
Qed.

Lemma no_instance_of_holds m k p :
  holds m k p = false → no_instance m k p.
Proof.
  unfold holds, no_instance, get_contents_at. rewrite existsb_app.
  by intros [_ H]%orb_false_iff.
Qed.

Lemma occurs_world_ok m m' : world_ok m → occurs m m' → world_ok m'.
Proof.
  intros Hw Hocc.
  destruct Hocc as [m' Hb|self u p ap c ap' Hself Hs Hap
                   |self u p ap c t Hself Hs Ht Hcan
                   |self u p ap x Hself Hs Hx Hk
                   |self u p ap Hself Hs Hp
                   |p x Hx Hk
                   |p x Hx Hk
                   |g u o Hg
                   |
                   |p Hin Hgate Hfree
                   |order Hperm].
  - unfold bookkeeping in Hb. eapply world_ok_ext; [..|exact Hw]; tauto.
  - eapply world_ok_shrinks; [exact Hw|]. by eapply shrinks_set_heap.
  - eapply world_ok_shrinks; [exact Hw|]. by eapply shrinks_set_heap.
  - eapply world_ok_shrinks; [exact Hw|].
    eapply shrinks_trans;
      [apply (shrinks_set_heap m self _ (TacticalAgent u p ap true) Hself
                eq_refl)|].
    apply shrinks_remove_entity.
  - apply (world_ok_ext
             (set_heap (<[self := TacticalAgent u p ap false]> (heap m)) m));
      [done..|].
    eapply world_ok_shrinks; [exact Hw|]. by eapply shrinks_set_heap.
  - eapply world_ok_shrinks; [exact Hw|].
    eapply shrinks_trans; [|apply shrinks_remove_entity]. by apply shrinks_same.
  - eapply world_ok_shrinks; [exact Hw|]. apply shrinks_remove_entity.
  - eapply world_ok_shrinks; [exact Hw|]. by eapply shrinks_set_heap.
  - eapply world_ok_shrinks; [exact Hw|].
    by apply shrinks_escalate, world_ok_wf_cells.
  - eapply (world_ok_register m _ p (Disturbance _ mild 0)
              (fresh (dom (heap m)))); try done.
    + apply fresh_heap.
    + intros _. by apply no_instance_of_holds.
  - by apply world_ok_shuffle.
Qed.

Lemma playable_world_ok m : playable m → world_ok m.
Proof.
  induction 1 as [seed width height g m g' Hinit|m m' _ IH Hocc].
  - by eapply world_ok_init.
  - by eapply occurs_world_ok.
Qed.

(** A property of every model the constructor can build holds of the
    model it returns. *)
Lemma init_invariant (P : RescueModel R → Prop) :
  (∀ seed width height ws p1 p2 p3 p4 p5 p6 b1 b2 b3 b4 b5 b6 b7 b8,
     Forall (λ p, p ∈ [(5, 0); (0, 2); (7, 3); (2, 5)]
                  ∧ (0 ≤ p.1 < width ∧ 0 ≤ p.2 < height))
       [p1; p2; p3; p4; p5; p6] →
     P (built seed width height ws [p1; p2; p3; p4; p5; p6]
          [b1; b2; b3; b4; b5; b6; b7; b8])) →
  ∀ seed width height g m g',
    RescueModel_init seed width height g = Done (m, g') → P m.
Proof.
  intros Hinit seed width height g m g' Hi.
  apply init_built in Hi as (ws & ps & bs & Hps & Hbs & Hin & ->).
  destruct ps as [|p1 [|p2 [|p3 [|p4 [|p5 [|p6 [|p7 ps]]]]]]]; try done.
  destruct bs as [|b1 [|b2 [|b3 [|b4 [|b5 [|b6 [|b7 [|b8 [|b9 bs]]]]]]]]];
    try done.
  by apply Hinit.
Qed.

(** Induction on the states of a run: a property of every model the
    constructor can build that every event preserves holds throughout. *)
Lemma playable_invariant (P : RescueModel R → Prop) :
  (∀ seed width height ws p1 p2 p3 p4 p5 p6 b1 b2 b3 b4 b5 b6 b7 b8,
     Forall (λ p, p ∈ [(5, 0); (0, 2); (7, 3); (2, 5)]
                  ∧ (0 ≤ p.1 < width ∧ 0 ≤ p.2 < height))
       [p1; p2; p3; p4; p5; p6] →
     P (built seed width height ws [p1; p2; p3; p4; p5; p6]
          [b1; b2; b3; b4; b5; b6; b7; b8])) →
  (∀ m m', playable m → P m → occurs m m' → P m') →
  ∀ m, playable m → P m.
Proof.
  intros Hinit Hocc m. induction 1 as [seed width height g m g' Hi|m m' Hp IH Ho].
  - by eapply (init_invariant P).
  - by eapply Hocc.
Qed.

(** The escalation pass on a well-formed registry. *)
Lemma escalate_summary m :
  world_ok m →
  escalate m
  = with_hazard
      (prod_map id (escalated_cell (heap m)) <$> cell_contents m)
      (hostages_lost m + sumZ (cell_lost (heap m) <$> (cell_contents m).*2))
      (structural_damage m
       + sumZ (cell_damage (heap m) <$> (cell_contents m).*2))
      (advance_heap
         (List.filter (isinstance (heap m) CDisturbance)
            (concat (cell_contents m).*2))
         (heap m))
      m.
Proof.
  intros Hw. rewrite (escalate_eq m (world_ok_wf_cells m Hw)).
  unfold escalated. by rewrite app_nil_r.
Qed.

Lemma advance_obj_other o : class_of o ≠ CDisturbance → advance_obj o = o.
Proof. by destruct o. Qed.

Lemma escalate_lookup m x :
  world_ok m →
  heap (escalate m) !! x
  = (if bool_decide (x ∈ concat (cell_contents m).*2)
     then advance_obj else id) <$> heap m !! x.
Proof.
  intros Hw. rewrite (escalate_summary m Hw), with_hazard_heap.
  pose proof Hw as (_ & Hnd & _).
  set (ds := List.filter (isinstance (heap m) CDisturbance)
               (concat (cell_contents m).*2)).
  destruct (decide (x ∈ ds)) as [Hin|Hout].
  - rewrite advance_heap_lookup_in; [|by apply NoDup_bfilter|done].
    apply list_elem_of_In, filter_In in Hin as [Hin _].
    apply list_elem_of_In in Hin. by rewrite bool_decide_eq_true_2.
  - rewrite advance_heap_lookup_notin by done.
    case_bool_decide as Hx; [|by rewrite option_fmap_id].
    destruct (heap m !! x) as [o|] eqn:Ho; [|done]. simpl. f_equal.
    symmetry. apply advance_obj_other. intros Hc. apply Hout.
    apply list_elem_of_In, filter_In. split; [by apply list_elem_of_In|].
    unfold isinstance. rewrite Ho. by apply bool_decide_eq_true.
Qed.

(** ** The crew stays on the grid *)

Lemma heap_remove_entity e p m : heap (remove_entity e p m) = heap m.
Proof. unfold remove_entity. by repeat case_match. Qed.

Lemma neighborhood_in_grid m p t : t ∈ get_neighborhood m p → in_grid m t.
Proof.
  unfold get_neighborhood. intros Ht.
  apply list_elem_of_In, filter_In in Ht as [_ Ht].
  repeat (apply andb_true_iff in Ht as [Ht ?]). unfold in_grid. lia.
Qed.

Lemma crew_ok_change m m' :
  crew_ok m →
  schedule m' = schedule m →
  grid_width m' = grid_width m → grid_height m' = grid_height m →
  (∀ a u p ap c,
     a ∈ schedule m → heap m !! a = Some (TacticalAgent u p ap c) →
     in_grid m p → 0 ≤ ap ≤ 4 →
     ∃ u' p' ap' c', heap m' !! a = Some (TacticalAgent u' p' ap' c')
                     ∧ in_grid m p' ∧ 0 ≤ ap' ≤ 4) →
  crew_ok m'.
Proof.
  intros (Hnd & Hlen & Hcrew) Hs HW HH Hstep. unfold crew_ok, in_grid.
  rewrite Hs, HW, HH. split; [done|]. split; [done|].
  intros a Ha. destruct (Hcrew a Ha) as (u & p & ap & c & Hh & Hin & Hap).
  by apply (Hstep a u p ap c).
Qed.

Lemma crew_ok_occurs m m' : world_ok m → crew_ok m → occurs m m' → crew_ok m'.
Proof.
  intros Hw Hc Hocc.
  destruct Hocc as [m' Hb|self u p ap c ap' Hself Hs Hap
                   |self u p ap c t Hself Hs Ht Hcan
                   |self u p ap x Hself Hs Hx Hk
                   |self u p ap Hself Hs Hp
                   |p x Hx Hk
                   |p x Hx Hk
                   |g u o Hg
                   |
                   |p Hin Hgate Hfree
                   |order Hperm].
  - destruct Hb as (Bs & Bh & _ & BW & BH & _).
    apply (crew_ok_change m); try done.
    intros a ua pa apa ca Ha Hh Hpa Hapa. rewrite Bh. by eauto 10.
  - apply (crew_ok_change m); try done.
    intros a ua pa apa ca Ha Hh Hpa Hapa. simpl.
    destruct (decide (a = self)) as [->|Hne].
    + rewrite lookup_insert_eq. rewrite Hself in Hh. simplify_eq.
      exists ua, pa, ap', ca. split; [done|]. split; [done|lia].
    + rewrite lookup_insert_ne by done. by eauto 10.
  - apply (crew_ok_change m); try done.
    intros a ua pa apa ca Ha Hh Hpa Hapa. simpl.
    destruct (decide (a = self)) as [->|Hne].
    + rewrite lookup_insert_eq. rewrite Hself in Hh. simplify_eq.
      exists ua, t, apa, ca. split; [done|].
      split; [by eapply neighborhood_in_grid|done].
    + rewrite lookup_insert_ne by done. by eauto 10.
  - apply (crew_ok_change m); try done;
      try (unfold remove_entity; by repeat case_match).
    intros a ua pa apa ca Ha Hh Hpa Hapa. rewrite heap_remove_entity. simpl.
    destruct (decide (a = self)) as [->|Hne].
    + rewrite lookup_insert_eq. rewrite Hself in Hh. simplify_eq.
      by eauto 10.
    + rewrite lookup_insert_ne by done. by eauto 10.
  - apply (crew_ok_change m); try done.
    intros a ua pa apa ca Ha Hh Hpa Hapa. simpl.
    destruct (decide (a = self)) as [->|Hne].
    + rewrite lookup_insert_eq. rewrite Hself in Hh. simplify_eq.
      by eauto 10.
    + rewrite lookup_insert_ne by done. by eauto 10.
  - apply (crew_ok_change m); try done;
      try (unfold remove_entity; by repeat case_match).
    intros a ua pa apa ca Ha Hh Hpa Hapa. rewrite heap_remove_entity.
    by eauto 10.
  - apply (crew_ok_change m); try done;
      try (unfold remove_entity; by repeat case_match).
    intros a ua pa apa ca Ha Hh Hpa Hapa. rewrite heap_remove_entity.
    by eauto 10.
  - apply (crew_ok_change m); try done.
    intros a ua pa apa ca Ha Hh Hpa Hapa. simpl.
    rewrite lookup_insert_ne by congruence. by eauto 10.
  - pose proof (frame_escalate m) as (_ & FW & FH & _ & Fs & _).
    apply (crew_ok_change m); try done.
    intros a ua pa apa ca Ha Hh Hpa Hapa.
    rewrite (escalate_lookup m a Hw), Hh. simpl.
    case_bool_decide; simpl; by eauto 10.
  - apply (crew_ok_change m); try done.
    intros a ua pa apa ca Ha Hh Hpa Hapa. simpl.
    rewrite lookup_insert_ne; [by eauto 10|].
    intros <-. by rewrite fresh_heap in Hh.
  - destruct Hc as (Hnd & Hlen & Hcrew). split; [|split].
    + change (NoDup order). by rewrite Hperm.
    + change (length order = 6%nat). by rewrite Hperm.
    + intros a Ha. change (a ∈ order) in Ha. rewrite Hperm in Ha.
      exact (Hcrew a Ha).
Qed.

Lemma playable_crew_ok m : playable m → crew_ok m.
Proof.
  revert m. apply playable_invariant.
  - intros seed width height ws p1 p2 p3 p4 p5 p6 b1 b2 b3 b4 b5 b6 b7 b8 Hps.
    set (m := built _ _ _ _ _ _).
    assert (Hs : schedule m = [0; 1; 2; 3; 4; 5]%nat)
      by (vm_compute; reflexivity).
    unfold crew_ok. rewrite Hs.
    split; [decide_tac|]. split; [done|].
    intros a Ha.
    repeat (apply Forall_cons in Hps as [[_ ?] Hps]).
    repeat (apply elem_of_cons in Ha as [->|Ha]);
      [..|by apply elem_of_nil in Ha];
      eexists _, _, 4, false;
      (split; [vm_compute; reflexivity|split; [done|lia]]).
  - intros m m' Hp Hc Hocc. eapply crew_ok_occurs; [|done..].
    by apply playable_world_ok.
Qed.

(** ** Entity ids are never reused *)

Lemma ids_ok_change m m' :
  ids_ok m →
  next_entity_id m ≤ next_entity_id m' →
  (∀ x, unique_id_of <$> heap m' !! x = unique_id_of <$> heap m !! x) →
  ids_ok m'.
Proof.
  intros (H0 & Hr & Hi) Hn Hh. split; [lia|]. split.
  - intros x o Ho. specialize (Hh x). rewrite Ho in Hh.
    destruct (heap m !! x) as [o0|] eqn:Ho0; [|done].
    injection Hh as Hh. specialize (Hr x o0 Ho0). lia.
  - intros x y ox oy Hx Hy Hxy.
    pose proof (Hh x) as Ex. pose proof (Hh y) as Ey.
    rewrite Hx in Ex. rewrite Hy in Ey.
    destruct (heap m !! x) as [ox0|] eqn:Hx0; [|done].
    destruct (heap m !! y) as [oy0|] eqn:Hy0; [|done].
    injection Ex as Ex. injection Ey as Ey.
    apply (Hi x y ox0 oy0); congruence.
Qed.

Lemma unique_id_insert (h : gmap loc Object) x o o' y :
  h !! x = Some o → unique_id_of o' = unique_id_of o →
  unique_id_of <$> <[x := o']> h !! y = unique_id_of <$> h !! y.
Proof.
  intros Hx Hu. destruct (decide (x = y)) as [<-|Hne].
  - rewrite lookup_insert_eq, Hx. simpl. by rewrite Hu.
  - by rewrite lookup_insert_ne.
Qed.

Lemma unique_id_advance_obj o : unique_id_of (advance_obj o) = unique_id_of o.
Proof. destruct o; simpl; try done. by repeat case_match. Qed.

Lemma ids_ok_occurs m m' : world_ok m → ids_ok m → occurs m m' → ids_ok m'.
Proof.
  intros Hw Hc Hocc.
  destruct Hocc as [m' Hb|self u p ap c ap' Hself Hs Hap
                   |self u p ap c t Hself Hs Ht Hcan
                   |self u p ap x Hself Hs Hx Hk
                   |self u p ap Hself Hs Hp
                   |p x Hx Hk
                   |p x Hx Hk
                   |g u o Hg
                   |
                   |p Hin Hgate Hfree
                   |order Hperm].
  - destruct Hb as (_ & Bh & _ & _ & _ & _ & _ & _ & Bn & _).
    apply (ids_ok_change m); [done|lia|]. intros x. by rewrite Bh.
  - apply (ids_ok_change m); [done|simpl; lia|]. intros x. simpl.
    by eapply unique_id_insert.
  - apply (ids_ok_change m); [done|simpl; lia|]. intros x. simpl.
    by eapply unique_id_insert.
  - apply (ids_ok_change m); [done| |].
    + unfold remove_entity. repeat case_match; simpl; lia.
    + intros y. rewrite heap_remove_entity. simpl.
      by eapply unique_id_insert.
  - apply (ids_ok_change m); [done|simpl; lia|]. intros x. simpl.
    by eapply unique_id_insert.
  - apply (ids_ok_change m); [done| |].
    + unfold remove_entity. repeat case_match; simpl; lia.
    + intros y. by rewrite heap_remove_entity.
  - apply (ids_ok_change m); [done| |].
    + unfold remove_entity. repeat case_match; simpl; lia.
    + intros y. by rewrite heap_remove_entity.
  - apply (ids_ok_change m); [done|simpl; lia|]. intros x. simpl.
    by eapply unique_id_insert.
  - apply (ids_ok_change m); [done| |].
    + rewrite (escalate_summary m Hw). simpl. lia.
    + intros x. rewrite (escalate_lookup m x Hw).
      destruct (heap m !! x) as [o|]; [|done]. simpl.
      case_bool_decide; [|done]. by rewrite unique_id_advance_obj.
  - destruct Hc as (H0 & Hr & Hi). split; [simpl; lia|]. split; simpl.
    + intros x o. destruct (decide (x = fresh (dom (heap m)))) as [->|Hne].
      * rewrite lookup_insert_eq. intros [= <-]. simpl. lia.
      * rewrite lookup_insert_ne by done. intros Ho.
        specialize (Hr _ _ Ho). lia.
    + intros x y ox oy.
      destruct (decide (x = fresh (dom (heap m)))) as [->|Hx];
        destruct (decide (y = fresh (dom (heap m)))) as [->|Hy]; [done|..].
      * rewrite lookup_insert_eq, lookup_insert_ne by done.
        intros [= <-] Hy' Hu. simpl in Hu. specialize (Hr _ _ Hy'). lia.
      * rewrite lookup_insert_eq, lookup_insert_ne by done.
        intros Hx' [= <-] Hu. simpl in Hu. specialize (Hr _ _ Hx'). lia.
      * rewrite !lookup_insert_ne by done. apply Hi.
  - exact Hc.
Qed.

Lemma NoDup_fmap_elem_inj {A B} (f : A → B) (l : list A) a b :
  NoDup (f <$> l) → a ∈ l → b ∈ l → f a = f b → a = b.
Proof.
  induction l as [|x l IH]; simpl; [by intros _ ?%elem_of_nil|].
  rewrite NoDup_cons, !elem_of_cons. intros [Hx Hnd] [->|Ha] [->|Hb] Hf.
  - done.
  - exfalso. apply Hx. rewrite Hf. by apply list_elem_of_fmap_2.
  - exfalso. apply Hx. rewrite <- Hf. by apply list_elem_of_fmap_2.
  - by apply IH.
Qed.

Lemma ids_ok_check m :
  0 ≤ next_entity_id m →
  Forall (λ kv, 1 ≤ unique_id_of kv.2 ≤ next_entity_id m)
    (map_to_list (heap m)) →
  NoDup ((λ kv, unique_id_of kv.2) <$> map_to_list (heap m)) →
  ids_ok m.
Proof.
  intros H0 Hr Hnd. split; [done|]. split.
  - intros x o Ho. rewrite Forall_forall in Hr.
    by apply (Hr (x, o)), elem_of_map_to_list.
  - intros x y ox oy Hx Hy Hu.
    apply elem_of_map_to_list in Hx, Hy.
    by pose proof (NoDup_fmap_elem_inj _ _ (x, ox) (y, oy) Hnd Hx Hy Hu)
      as [= -> _].
Qed.

Lemma playable_ids_ok m : playable m → ids_ok m.
Proof.
  revert m. apply playable_invariant.
  - intros seed width height ws p1 p2 p3 p4 p5 p6 b1 b2 b3 b4 b5 b6 b7 b8 Hps.
    apply ids_ok_check.
    + apply Z.leb_le. vm_compute. reflexivity.
    + decide_tac.
    + decide_tac.
  - intros m m' Hp Hc Hocc. eapply ids_ok_occurs; [|done..].
    by apply playable_world_ok.
Qed.

(** ** No registered disturbance is grave *)

Lemma registry_remove_subset m e p x :
  x ∈ concat (cell_contents (remove_entity e p m)).*2 →
  x ∈ concat (cell_contents m).*2.
Proof.
  destruct (shrinks_remove_entity m e p) as (_ & _ & Hf). intros Hx.
  eapply elem_of_sublist; [exact Hx|]. apply concat_sublist, cells_values, Hf.
Qed.

Lemma elem_of_concat_inv {A} (x : A) ls :
  x ∈ concat ls → ∃ L, L ∈ ls ∧ x ∈ L.
Proof.
  intros Hx. apply list_elem_of_In, in_concat in Hx as (L & HL & Hx).
  exists L. split; by apply list_elem_of_In.
Qed.

Lemma calm_change m m' :
  calm m →
  (∀ x, x ∈ concat (cell_contents m').*2 → x ∈ concat (cell_contents m).*2) →
  (∀ x u sev t, heap m' !! x = Some (Disturbance u sev t) →
                heap m !! x = Some (Disturbance u sev t)) →
  calm m'.
Proof.
  intros Hc Hsub Hh x u sev t Hx Ho. apply (Hc x u sev t); auto.
Qed.

Lemma lookup_insert_Disturbance (h : gmap loc Object) x o u sev t y :
  class_of o ≠ CDisturbance →
  <[x := o]> h !! y = Some (Disturbance u sev t) →
  h !! y = Some (Disturbance u sev t).
Proof.
  intros Hc. destruct (decide (x = y)) as [<-|Hne].
  - rewrite lookup_insert_eq. intros [= ->]. by destruct Hc.
  - by rewrite lookup_insert_ne.
Qed.

Lemma calm_occurs m m' : world_ok m → calm m → occurs m m' → calm m'.
Proof.
  intros Hw Hc Hocc.
  destruct Hocc as [m' Hb|self u p ap c ap' Hself Hs Hap
                   |self u p ap c t Hself Hs Ht Hcan
                   |self u p ap x Hself Hs Hx Hk
                   |self u p ap Hself Hs Hp
                   |p x Hx Hk
                   |p x Hx Hk
                   |g u o Hg
                   |
                   |p Hin Hgate Hfree
                   |order Hperm].
  - destruct Hb as (_ & Bh & Bc & _).
    apply (calm_change m); [done|by rewrite Bc|by rewrite Bh].
  - apply (calm_change m); [done|done|]. simpl. intros x ux sev tx.
    by apply lookup_insert_Disturbance.
  - apply (calm_change m); [done|done|]. simpl. intros x ux sev tx.
    by apply lookup_insert_Disturbance.
  - apply (calm_change m); [done| |].
    + intros y Hy. by apply registry_remove_subset in Hy.
    + rewrite heap_remove_entity. simpl. intros y ux sev tx.
      by apply lookup_insert_Disturbance.
  - apply (calm_change m); [done|done|]. simpl. intros x ux sev tx.
    by apply lookup_insert_Disturbance.
  - apply (calm_change m); [done| |].
    + intros y Hy. by apply registry_remove_subset in Hy.
    + by rewrite heap_remove_entity.
  - apply (calm_change m); [done| |].
    + intros y Hy. by apply registry_remove_subset in Hy.
    + by rewrite heap_remove_entity.
  - apply (calm_change m); [done|done|]. simpl. intros x ux sev tx.
    by apply lookup_insert_Disturbance.
  - intros x ux sev tx Hx Ho.
    rewrite (escalate_summary m Hw), with_hazard_cell_contents in Hx.
    rewrite <- list_fmap_compose in Hx.
    apply elem_of_concat_inv in Hx as (L' & HL' & Hx).
    apply list_elem_of_fmap in HL' as ([q L] & -> & HL). simpl in Hx.
    assert (HLin : L ∈ (cell_contents m).*2)
      by (apply list_elem_of_fmap; by exists (q, L)).
    assert (HxL : x ∈ L).
    { eapply elem_of_sublist; [exact Hx|]. apply escalated_cell_sublist. }
    assert (Hreg : x ∈ concat (cell_contents m).*2)
      by (by eapply elem_of_concat).
    rewrite (escalate_lookup m x Hw), bool_decide_eq_true_2 in Ho by done.
    destruct (heap m !! x) as [o|] eqn:Hh; [|done]. simpl in Ho.
    injection Ho as Ho.
    destruct o as [| | |u0 sev0 t0|]; try done.
    destruct (Hc x u0 sev0 t0 Hreg Hh) as [[-> Ht]|[-> Ht]]; simpl in Ho.
    + destruct (4 <=? t0 + 1) eqn:H4; simpl in Ho; injection Ho as <- <- <-.
      * right. split; [done|lia].
      * left. apply Z.leb_gt in H4. split; [done|lia].
    + destruct (6 <=? t0 + 1) eqn:H6; simpl in Ho; injection Ho as <- <- <-.
      * exfalso. unfold escalated_cell in Hx.
        assert (Hex : existsb (explodes (heap m)) L = true).
        { apply existsb_exists. exists x. split; [by apply list_elem_of_In|].
          unfold explodes. by rewrite Hh. }
        rewrite Hex in Hx. unfold cleared in Hx.
        apply list_elem_of_In, filter_In in Hx as [_ Hx].
        unfold isinstance in Hx. rewrite Hh in Hx. by vm_compute in Hx.
      * right. apply Z.leb_gt in H6. split; [done|lia].
  - intros x ux sev tx. simpl.
    rewrite od_store_append_perm. intros [->|Hx]%elem_of_cons.
    + rewrite lookup_insert_eq. intros [= <- <- <-]. left. split; [done|lia].
    + rewrite lookup_insert_ne; [by apply Hc|].
      intros <-. destruct Hw as (_ & _ & W3 & _).
      destruct (W3 _ Hx) as [[o Ho] _]. by rewrite fresh_heap in Ho.
  - exact Hc.
Qed.

Lemma playable_calm m : playable m → calm m.
Proof.
  revert m. apply playable_invariant.
  - intros seed width height ws p1 p2 p3 p4 p5 p6 b1 b2 b3 b4 b5 b6 b7 b8 Hps.
    set (m := built _ _ _ _ _ _).
    assert (Hall : forallb (λ kv : loc * Object,
                              match kv.2 with
                              | Disturbance _ mild 0 => true
                              | Disturbance _ _ _ => false
                              | _ => true
                              end) (map_to_list (heap m)) = true)
      by (vm_compute; reflexivity).
    intros x u sev t _ Ho. rewrite forallb_forall in Hall.
    apply elem_of_map_to_list, list_elem_of_In, Hall in Ho. simpl in Ho.
    left. by destruct sev, t.
  - intros m m' Hp Hc Hocc. eapply calm_occurs; [|done..].
    by apply playable_world_ok.
Qed.

(** ** Counters only grow, walls only fall *)

Lemma ledger_le_refl m : ledger_le m m.
Proof. unfold ledger_le. repeat split; try done; lia. Qed.

Lemma ledger_le_trans m1 m2 m3 :
  ledger_le m1 m2 → ledger_le m2 m3 → ledger_le m1 m3.
Proof.
  intros (A1 & A2 & A3 & A4 & A5 & A6 & A7) (B1 & B2 & B3 & B4 & B5 & B6 & B7).
  unfold ledger_le. repeat split; try lia; [congruence|auto].
Qed.

Lemma ledger_le_fold_left {A} (f : RescueModel R → A → RescueModel R) l :
  (∀ m x, ledger_le m (f m x)) → ∀ m, ledger_le m (fold_left f l m).
Proof.
  intros Hf. induction l as [|x l IH]; intros m; simpl;
    [apply ledger_le_refl|].
  eapply ledger_le_trans; [apply Hf|apply IH].
Qed.

Lemma ledger_le_remove_entity m e p : ledger_le m (remove_entity e p m).
Proof.
  unfold remove_entity. repeat case_match; try apply ledger_le_refl.
  unfold ledger_le. repeat split; try done; simpl; lia.
Qed.

Lemma ledger_le_handle_explosion m p contents :
  ledger_le m (handle_explosion p contents m).
Proof.
  unfold handle_explosion.
  eapply ledger_le_trans; [|apply ledger_le_fold_left].
  - eapply ledger_le_trans; [|apply ledger_le_fold_left].
    + unfold ledger_le. repeat split; try done; simpl; lia.
    + intros m0 x. eapply ledger_le_trans; [|apply ledger_le_remove_entity].
      unfold ledger_le. repeat split; try done; simpl; lia.
  - intros m0 x. apply ledger_le_remove_entity.
Qed.

Lemma ledger_le_advance_disturbance m p d :
  ledger_le m (advance_disturbance p d m).
Proof.
  unfold advance_disturbance.
  destruct (heap m !! d) as [[| | |u sev t|]|]; try apply ledger_le_refl.
  repeat case_match;
    try (unfold ledger_le; repeat split; try done; simpl; lia).
  eapply ledger_le_trans; [|apply ledger_le_handle_explosion].
  unfold ledger_le. repeat split; try done; simpl; lia.
Qed.

Lemma ledger_le_escalate m : ledger_le m (escalate m).
Proof.
  unfold escalate. apply ledger_le_fold_left. intros m0 q.
  unfold advance_cell. apply ledger_le_fold_left. intros m1 d.
  apply ledger_le_advance_disturbance.
Qed.

Lemma occurs_ledger_le m m' : occurs m m' → ledger_le m m'.
Proof.
  destruct 1 as [m' Hb| | | | | | | | | |];
    try (unfold ledger_le; repeat split; try done; simpl; lia).
  - destruct Hb as (_ & _ & _ & _ & _ & _ & B1 & B2 & B3 & B4 & B5 & B6 & B7).
    unfold ledger_le. repeat split; try done; lia.
  - eapply ledger_le_trans; [|apply ledger_le_remove_entity].
    unfold ledger_le. repeat split; try done; simpl; lia.
  - eapply ledger_le_trans; [|apply ledger_le_remove_entity].
    unfold ledger_le. repeat split; try done; simpl; lia.
  - apply ledger_le_remove_entity.
  - apply ledger_le_escalate.
Qed.

Lemma rtc_occurs_ledger_le m m' : rtc occurs m m' → ledger_le m m'.
Proof.
  induction 1 as [|m1 m2 m3 H12 _ IH]; [apply ledger_le_refl|].
  eapply ledger_le_trans; [by apply occurs_ledger_le|exact IH].
Qed.

(** ** The census of the hostages *)

Lemma count_flip (f f' : loc → bool) (l : list loc) self :
  NoDup l → self ∈ l → (∀ a, a ≠ self → f' a = f a) →
  Z.of_nat (length (List.filter f' l))
  = Z.of_nat (length (List.filter f l)) + Z.b2z (f' self) - Z.b2z (f self).
Proof.
  intros Hnd Hin Hext. induction l as [|a l IH]; [by apply elem_of_nil in Hin|].
  apply NoDup_cons in Hnd as [Ha Hnd].
  apply elem_of_cons in Hin as [<-|Hin].
  - assert (E : List.filter f' l = List.filter f l).
    { apply bfilter_ext_elem. intros b Hb. apply Hext. by intros ->. }
    simpl. rewrite E. destruct (f' self), (f self); simpl length; simpl Z.b2z;
      lia.
  - specialize (IH Hnd Hin). simpl.
    rewrite (Hext a) by (by intros ->).
    destruct (f a); simpl length; lia.
Qed.

Lemma carrying_of_insert (h : gmap loc Object) x o a :
  carrying_of (<[x := o]> h) a
  = if decide (a = x)
    then match o with TacticalAgent _ _ _ c => c | _ => false end
    else carrying_of h a.
Proof.
  unfold carrying_of. case_decide as Ha.
  - subst a. by rewrite lookup_insert_eq.
  - by rewrite lookup_insert_ne.
Qed.

Lemma carriers_same m m' :
  schedule m' = schedule m →
  (∀ a, a ∈ schedule m → carrying_of (heap m') a = carrying_of (heap m) a) →
  carriers m' = carriers m.
Proof.
  intros Hs Hc. unfold carriers. rewrite Hs. do 2 f_equal.
  by apply bfilter_ext_elem.
Qed.

Lemma carriers_flip m m' self :
  NoDup (schedule m) → schedule m' = schedule m → self ∈ schedule m →
  (∀ a, a ≠ self → carrying_of (heap m') a = carrying_of (heap m) a) →
  carriers m'
  = carriers m + Z.b2z (carrying_of (heap m') self)
    - Z.b2z (carrying_of (heap m) self).
Proof.
  intros Hnd Hs Hin Hc. unfold carriers. rewrite Hs. by apply count_flip.
Qed.

Lemma registered_same m m' k :
  cell_contents m' = cell_contents m →
  (∀ x, x ∈ concat (cell_contents m).*2 →
        isinstance (heap m') k x = isinstance (heap m) k x) →
  registered m' k = registered m k.
Proof.
  intros Hc Hi. unfold registered. rewrite Hc. do 2 f_equal.
  by apply bfilter_ext_elem.
Qed.

Lemma bfilter_Permutation {A} (f : A → bool) (l1 l2 : list A) :
  l1 ≡ₚ l2 → List.filter f l1 ≡ₚ List.filter f l2.
Proof.
  induction 1 as [|x l1 l2 _ IH|x y l|l1 l2 l3 _ IH1 _ IH2]; simpl.
  - done.
  - destruct (f x); [by constructor|done].
  - destruct (f x), (f y); try done. apply perm_swap.
  - by etrans.
Qed.

Lemma list_remove_first_perm x (l : list loc) :
  x ∈ l → l ≡ₚ x :: list_remove_first x l.
Proof.
  induction l as [|y l IH]; [by intros ?%elem_of_nil|]. simpl.
  case_decide as Hy; [by subst|].
  intros [->|Hx]%elem_of_cons; [done|].
  rewrite (IH Hx) at 1. apply perm_swap.
Qed.

Lemma od_store_remove_perm (d : list (Pos * list loc)) p L x :
  od_lookup p d = Some L → x ∈ L →
  concat d.*2 ≡ₚ x :: concat (od_store p (list_remove_first x L) d).*2.
Proof.
  intros HL Hx.
  destruct (od_store_cases d p (list_remove_first x L))
    as [(d1 & w & d2 & Hd & Hl & ->)|(Hl & _)]; [|congruence].
  rewrite HL in Hl. injection Hl as <-.
  rewrite Hd, !fmap_app, !fmap_cons, !concat_app, !concat_cons. simpl.
  rewrite (list_remove_first_perm x L Hx) at 1. simpl.
  symmetry. apply Permutation_middle.
Qed.

Lemma registered_remove m x p k :
  x ∈ default [] (od_lookup p (cell_contents m)) →
  registered (remove_entity x p m) k
  = registered m k - Z.b2z (isinstance (heap m) k x).
Proof.
  intros Hx. unfold registered, remove_entity.
  destruct (od_lookup p (cell_contents m)) as [L|] eqn:HL; simpl in Hx;
    [|by apply elem_of_nil in Hx].
  rewrite bool_decide_eq_true_2 by done. simpl.
  rewrite (bfilter_Permutation _ _ _
             (od_store_remove_perm (cell_contents m) p L x HL Hx)).
  simpl. destruct (isinstance (heap m) k x); simpl length; simpl Z.b2z; lia.
Qed.

Lemma registered_remove_other m x p k :
  isinstance (heap m) k x = false →
  registered (remove_entity x p m) k = registered m k.
Proof.
  intros Hk. unfold remove_entity.
  destruct (od_lookup p (cell_contents m)) as [L|] eqn:HL; [|done].
  case_bool_decide as Hx; [|done].
  pose proof (registered_remove m x p k) as E. unfold remove_entity in E.
  rewrite HL, bool_decide_eq_true_2 in E by done.
  rewrite E, Hk by done. simpl. lia.
Qed.

Lemma count_concat {A} (f : A → bool) (ls : list (list A)) :
  Z.of_nat (length (List.filter f (concat ls)))
  = sumZ ((λ L, Z.of_nat (length (List.filter f L))) <$> ls).
Proof.
  unfold sumZ. induction ls as [|L ls IH]; [done|].
  rewrite fmap_cons. cbn [concat foldr].
  rewrite List.filter_app, length_app, Nat2Z.inj_add, IH. done.
Qed.

Lemma sumZ_nonneg l : Forall (λ z, 0 ≤ z) l → 0 ≤ sumZ l.
Proof. unfold sumZ. induction 1; simpl; lia. Qed.

Lemma cell_lost_nonneg (h : gmap loc Object) L : 0 ≤ cell_lost h L.
Proof. unfold cell_lost, hostages_in. destruct (existsb _ _); lia. Qed.

Lemma escalated_cell_hostages (h : gmap loc Object) L :
  hostages_in h (escalated_cell h L) + cell_lost h L = hostages_in h L.
Proof.
  unfold escalated_cell, cell_lost. destruct (existsb _ L); [|lia].
  rewrite hostages_in_cleared by apply same_classes_refl. lia.
Qed.

Lemma census_escalate m : world_ok m → census (escalate m) = census m.
Proof.
  intros Hw. unfold census.
  assert (Hcar : carriers (escalate m) = carriers m).
  { apply carriers_same; [by destruct (frame_escalate m) as (_&_&_&_&E&_)|].
    intros a Ha. unfold carrying_of. rewrite (escalate_lookup m a Hw).
    destruct (heap m !! a) as [o|]; [|done]. simpl.
    case_bool_decide; [|done].
    destruct o; try done. simpl. by repeat case_match. }
  rewrite Hcar. rewrite (escalate_summary m Hw).
  set (h := heap m).
  change (hostages_rescued (with_hazard _ _ _ _ m)) with (hostages_rescued m).
  rewrite with_hazard_hostages_lost. unfold registered.
  rewrite with_hazard_heap, with_hazard_cell_contents.
  rewrite (bfilter_ext_elem _ (isinstance h CHostage));
    [|intros x _; apply isinstance_same_classes, same_classes_advance_heap].
  rewrite !count_concat. fold h.
  assert (E : ∀ c : list (Pos * list loc),
            sumZ ((λ L, Z.of_nat (length (List.filter (isinstance h CHostage) L)))
                    <$> (prod_map id (escalated_cell h) <$> c).*2)
            + sumZ (cell_lost h <$> c.*2)
            = sumZ ((λ L, Z.of_nat (length (List.filter (isinstance h CHostage) L)))
                      <$> c.*2)).
  { unfold sumZ. induction c as [|[q L] c IH]; [done|].
    rewrite !fmap_cons. cbn [foldr prod_map fst snd].
    pose proof (escalated_cell_hostages h L) as EL. unfold hostages_in in EL.
    lia. }
  specialize (E (cell_contents m)). lia.
Qed.

Lemma registered_insert_same m x o o' k :
  heap m !! x = Some o → class_of o' = class_of o →
  registered (set_heap (<[x := o']> (heap m)) m) k = registered m k.
Proof.
  intros Hx Hc. apply registered_same; [done|]. intros y _. simpl.
  by eapply isinstance_same_classes, same_classes_insert.
Qed.

Lemma isinstance_exclusive (h : gmap loc Object) k k' x :
  isinstance h k x = true → k' ≠ k → isinstance h k' x = false.
Proof.
  unfold isinstance. destruct (h !! x) as [o|]; [|done].
  intros Hk%bool_decide_eq_true Hne. apply bool_decide_eq_false. congruence.
Qed.

Lemma cleared_keeps (h : gmap loc Object) k L :
  k ≠ CHostage → k ≠ CDisturbance →
  List.filter (isinstance h k) (cleared h L) = List.filter (isinstance h k) L.
Proof.
  intros H1 H2. unfold cleared. induction L as [|x L IH]; simpl; [done|].
  destruct (isinstance h k x) eqn:Hk.
  - rewrite (isinstance_exclusive h k CHostage x Hk) by done.
    rewrite (isinstance_exclusive h k CDisturbance x Hk) by done.
    simpl. by rewrite Hk, IH.
  - destruct (negb _ && negb _); simpl; [by rewrite Hk|done].
Qed.

Lemma registered_escalate m k :
  world_ok m → k ≠ CHostage → k ≠ CDisturbance →
  registered (escalate m) k = registered m k.
Proof.
  intros Hw H1 H2. rewrite (escalate_summary m Hw). unfold registered.
  rewrite with_hazard_heap, with_hazard_cell_contents.
  set (h := heap m).
  rewrite (bfilter_ext_elem _ (isinstance h k));
    [|intros x _; apply isinstance_same_classes, same_classes_advance_heap].
  rewrite !count_concat. f_equal.
  induction (cell_contents m) as [|[q L] c IH]; [done|].
  rewrite !fmap_cons. cbn [prod_map fst snd]. f_equal; [|exact IH].
  unfold escalated_cell. destruct (existsb _ L); [|done].
  by rewrite cleared_keeps.
Qed.

Lemma registered_spawn m p o k :
  world_ok m → class_of o ≠ k →
  registered
    (cell_append p (fresh (dom (heap m)))
       (set_heap (<[fresh (dom (heap m)) := o]> (heap m))
          (set_next_entity_id (next_entity_id m + 1) m))) k
  = registered m k.
Proof.
  intros Hw Hk. unfold registered. simpl.
  rewrite (bfilter_Permutation _ _ _
             (od_store_append_perm (cell_contents m) p _)).
  simpl. rewrite isinstance_insert_eq, bool_decide_eq_false_2 by done.
  do 2 f_equal. apply bfilter_ext_elem. intros y Hy.
  apply isinstance_insert_ne. intros ->.
  destruct Hw as (_ & _ & W3 & _). destruct (W3 _ Hy) as [[o' Ho'] _].
  by rewrite fresh_heap in Ho'.
Qed.

Lemma remove_entity_ledger m e p :
  hostages_rescued (remove_entity e p m) = hostages_rescued m
  ∧ hostages_lost (remove_entity e p m) = hostages_lost m
  ∧ false_alarms_investigated (remove_entity e p m)
    = false_alarms_investigated m
  ∧ schedule (remove_entity e p m) = schedule m.
Proof. unfold remove_entity. by repeat case_match. Qed.

Lemma census_occurs m m' :
  world_ok m → crew_ok m → occurs m m' → census m' = census m.
Proof.
  intros Hw (Hnd & _ & Hcrew) Hocc. unfold census.
  destruct Hocc as [m' Hb|self u p ap c ap' Hself Hs Hap
                   |self u p ap c t Hself Hs Ht Hcan
                   |self u p ap x Hself Hs Hx Hk
                   |self u p ap Hself Hs Hp
                   |p x Hx Hk
                   |p x Hx Hk
                   |g u o Hg
                   |
                   |p Hin Hgate Hfree
                   |order Hperm].
  - destruct Hb as (Bs & Bh & Bc & _ & _ & _ & Br & Bl & _).
    rewrite Br, Bl. unfold carriers, registered. by rewrite Bs, Bh, Bc.
  - rewrite (carriers_same m _), (registered_insert_same m _ _ _ _ Hself);
      try done.
    intros a _. simpl. rewrite carrying_of_insert. case_decide; [|done].
    subst a. unfold carrying_of. by rewrite Hself.
  - rewrite (carriers_same m _), (registered_insert_same m _ _ _ _ Hself);
      try done.
    intros a _. simpl. rewrite carrying_of_insert. case_decide; [|done].
    subst a. unfold carrying_of. by rewrite Hself.
  - set (m0 := set_heap (<[self := TacticalAgent u p ap true]> (heap m)) m).
    assert (Hx0 : x ∈ default [] (od_lookup p (cell_contents m0)))
      by (by eapply (registry_of_contents m p x CHostage)).
    assert (Hi : isinstance (heap m0) CHostage x = true).
    { rewrite <- Hk. by eapply isinstance_same_classes, same_classes_insert. }
    assert (Hreg0 : registered m0 CHostage = registered m CHostage)
      by (by apply (registered_insert_same m _ _ _ _ Hself)).
    rewrite (registered_remove m0 x p CHostage Hx0), Hi, Hreg0.
    assert (Hcar : carriers (remove_entity x p m0) = carriers m + 1).
    { rewrite (carriers_flip m _ self); try done.
      - rewrite heap_remove_entity. unfold carrying_of at 1 2. simpl.
        rewrite lookup_insert_eq, Hself. simpl. lia.
      - exact (proj2 (proj2 (proj2 (remove_entity_ledger m0 x p)))).
      - intros a Ha. rewrite heap_remove_entity. simpl.
        rewrite carrying_of_insert. by rewrite decide_False. }
    rewrite Hcar.
    destruct (remove_entity_ledger m0 x p) as (-> & -> & _).
    simpl. lia.
  - set (m0 := set_heap (<[self := TacticalAgent u p ap false]> (heap m)) m).
    change (carriers (set_hostages_rescued _ m0)) with (carriers m0).
    change (registered (set_hostages_rescued _ m0) CHostage)
      with (registered m0 CHostage).
    assert (Hreg0 : registered m0 CHostage = registered m CHostage)
      by (by apply (registered_insert_same m _ _ _ _ Hself)).
    rewrite Hreg0, (carriers_flip m m0 self); try done.
    + unfold carrying_of at 1 2. simpl. rewrite lookup_insert_eq, Hself.
      simpl. lia.
    + intros a Ha. simpl. rewrite carrying_of_insert. by rewrite decide_False.
  - set (m0 := set_false_alarms_investigated _ m).
    rewrite (registered_remove_other m0 x p CHostage)
      by (by apply (isinstance_exclusive _ CFalseAlarm)).
    rewrite (carriers_same m0 _);
      [|exact (proj2 (proj2 (proj2 (remove_entity_ledger _ x p))))
       |intros a _; by rewrite heap_remove_entity].
    by destruct (remove_entity_ledger m0 x p) as (-> & -> & _).
  - rewrite (registered_remove_other m x p CHostage)
      by (by apply (isinstance_exclusive _ CDisturbance)).
    rewrite (carriers_same m _);
      [|exact (proj2 (proj2 (proj2 (remove_entity_ledger _ x p))))
       |intros a _; by rewrite heap_remove_entity].
    by destruct (remove_entity_ledger m x p) as (-> & -> & _).
  - rewrite (carriers_same m _), (registered_insert_same m _ _ _ _ Hg);
      try done.
    intros a _. simpl. rewrite carrying_of_insert. case_decide; [|done].
    subst a. unfold carrying_of. by rewrite Hg.
  - exact (census_escalate m Hw).
  - rewrite (registered_spawn m p _ CHostage Hw) by done.
    set (l := fresh (dom (heap m))).
    rewrite (carriers_same m _); [done|done|].
    intros a Ha. simpl. rewrite carrying_of_insert, decide_False; [done|].
    intros ->. destruct (Hcrew _ Ha) as (?&?&?&?& Hh &_).
    unfold l in Hh. by rewrite fresh_heap in Hh.
  - assert (E : carriers (set_schedule order m) = carriers m).
    { unfold carriers. cbn [heap schedule set_schedule]. f_equal.
      apply Permutation_length. by apply bfilter_Permutation. }
    rewrite E. reflexivity.
Qed.

(** The false alarm and the gates. *)
Lemma alarms_gates_occurs m m' :
  world_ok m → occurs m m' →
  false_alarms_investigated m' + registered m' CFalseAlarm
  = false_alarms_investigated m + registered m CFalseAlarm
  ∧ registered m' CGate = registered m CGate.
Proof.
  intros Hw Hocc.
  destruct Hocc as [m' Hb|self u p ap c ap' Hself Hs Hap
                   |self u p ap c t Hself Hs Ht Hcan
                   |self u p ap x Hself Hs Hx Hk
                   |self u p ap Hself Hs Hp
                   |p x Hx Hk
                   |p x Hx Hk
                   |g u o Hg
                   |
                   |p Hin Hgate Hfree
                   |order Hperm].
  - destruct Hb as (Bs & Bh & Bc & _ & _ & _ & _ & _ & _ & _ & Bf & _).
    rewrite Bf. unfold registered. by rewrite Bh, Bc.
  - by rewrite !(registered_insert_same m _ _ _ _ Hself).
  - by rewrite !(registered_insert_same m _ _ _ _ Hself).
  - set (m0 := set_heap (<[self := TacticalAgent u p ap true]> (heap m)) m).
    assert (Hi : isinstance (heap m0) CHostage x = true).
    { rewrite <- Hk. by eapply isinstance_same_classes, same_classes_insert. }
    assert (Hreg0 : ∀ k, registered m0 k = registered m k)
      by (intros k; by apply (registered_insert_same m _ _ _ _ Hself)).
    rewrite !(registered_remove_other m0 x p)
      by (by apply (isinstance_exclusive _ CHostage)).
    rewrite !Hreg0.
    by destruct (remove_entity_ledger m0 x p) as (_ & _ & -> & _).
  - change (registered (set_hostages_rescued ?v ?m0) ?k) with (registered m0 k).
    by rewrite !(registered_insert_same m _ _ _ _ Hself).
  - set (m0 := set_false_alarms_investigated _ m).
    assert (Hx0 : x ∈ default [] (od_lookup p (cell_contents m0)))
      by (by eapply (registry_of_contents m p x CFalseAlarm)).
    rewrite (registered_remove m0 x p CFalseAlarm Hx0).
    rewrite (registered_remove_other m0 x p CGate)
      by (by apply (isinstance_exclusive _ CFalseAlarm)).
    destruct (remove_entity_ledger m0 x p) as (_ & _ & -> & _).
    change (isinstance (heap m0)) with (isinstance (heap m)). rewrite Hk.
    change (registered m0) with (registered m). simpl. split; [lia|done].
  - rewrite !(registered_remove_other m x p)
      by (by apply (isinstance_exclusive _ CDisturbance)).
    by destruct (remove_entity_ledger m x p) as (_ & _ & -> & _).
  - by rewrite !(registered_insert_same m _ _ _ _ Hg).
  - rewrite !(registered_escalate m _ Hw) by done.
    by rewrite (escalate_summary m Hw).
  - by rewrite !(registered_spawn m p _ _ Hw).
  - split; reflexivity.
Qed.

Lemma census_ok_occurs m m' :
  world_ok m → crew_ok m → census_ok m → occurs m m' → census_ok m'.
Proof.
  intros Hw Hcrew (Hc & Hr & Hl & Ha & Hf & Hg) Hocc.
  pose proof (census_occurs m m' Hw Hcrew Hocc) as E1.
  pose proof (alarms_gates_occurs m m' Hw Hocc) as [E2 E3].
  pose proof (occurs_ledger_le m m' Hocc) as (L1 & L2 & _ & L4 & _).
  unfold census_ok. repeat split; lia.
Qed.

Lemma playable_census_ok m : playable m → census_ok m.
Proof.
  revert m. apply playable_invariant.
  - intros seed width height ws p1 p2 p3 p4 p5 p6 b1 b2 b3 b4 b5 b6 b7 b8 Hps.
    unfold census_ok.
    repeat split; first [apply Z.leb_le|idtac]; vm_compute; reflexivity.
  - intros m m' Hp Hc Hocc. eapply census_ok_occurs; [| |done..].
    + by apply playable_world_ok.
    + by apply playable_crew_ok.
Qed.

(** ** The properties of every state of a run *)

Lemma init_ledger (seed : R) width height g m g' :
  RescueModel_init seed width height g = Done (m, g') →
  running m = true ∧ turn_counter m = 0 ∧ datacollector m = []
  ∧ structural_damage m = 0 ∧ false_alarms_investigated m = 0
  ∧ next_entity_id m = 27
  ∧ grid_width m = width ∧ grid_height m = height
  ∧ entry_points m = [(5, 0); (0, 2); (7, 3); (2, 5)].
Proof.
  intros Hi.
  apply init_built in Hi as (ws & ps & bs & Hps & Hbs & Hin & ->).
  destruct ps as [|p1 [|p2 [|p3 [|p4 [|p5 [|p6 [|p7 ps]]]]]]]; try done.
  destruct bs as [|b1 [|b2 [|b3 [|b4 [|b5 [|b6 [|b7 [|b8 [|b9 bs]]]]]]]]];
    try done.
Qed.

Lemma playable_bounds m :
  playable m → 0 ≤ hostages_rescued m ≤ 2 ∧ 0 ≤ hostages_lost m ≤ 2.
Proof.
  intros (Hc & Hr & Hl & _)%playable_census_ok.
  unfold census, carriers, registered in Hc. lia.
Qed.

Lemma check_game_over_collapse m :
  playable m →
  check_game_over m
  = if 25 <=? structural_damage m then set_running false m else m.
Proof.
  intros [Hr Hl]%playable_bounds. unfold check_game_over.
  replace (7 <=? hostages_rescued m) with false
    by (symmetry; apply Z.leb_gt; lia).
  replace (4 <=? hostages_lost m) with false
    by (symmetry; apply Z.leb_gt; lia).
  done.
Qed.

Lemma reachable_running m :
  reachable m → (running m = true ↔ structural_damage m < 25).
Proof.
  induction 1 as [seed width height g m g' Hinit|fuel m m' Hr IH Hstep].
  - apply init_ledger in Hinit as (-> & _ & _ & -> & _). split; [lia|done].
  - apply step_occurs in Hstep as (m2 & H2 & R2 & _ & _ & ->).
    pose proof (rtc_occurs_ledger_le _ _ H2) as (_ & _ & Hd & _).
    assert (Hp : playable m2)
      by (eapply playable_rtc; [by apply reachable_playable|done]).
    rewrite (check_game_over_collapse m2 Hp).
    destruct (25 <=? structural_damage m2) eqn:H25; simpl.
    + apply Z.leb_le in H25. split; [done|lia].
    + apply Z.leb_gt in H25. rewrite R2. split; [done|]. intros _.
      apply IH. lia.
Qed.

(** X1. In every state of a run the two hostages of the scenario are
    accounted for: the number rescued, the number carried by agents, the
    number still registered in a cell and the number lost add up to 2.
    So neither counter exceeds 2, the run stops exactly when the
    structural damage has reached 25, and [get_final_stats] reports
    either the structural collapse or the timeout, never a victory and
    never a defeat by lost hostages. *)
Theorem hostages_accounted_for m :
  reachable m →
  hostages_rescued m + carriers m + registered m CHostage + hostages_lost m = 2
  ∧ 0 ≤ hostages_rescued m ≤ 2
  ∧ 0 ≤ hostages_lost m ≤ 2
  ∧ (running m = true ↔ structural_damage m < 25)
  ∧ fs_result (get_final_stats m)
    = (if 25 <=? structural_damage m
       then "DERROTA (Colapso estructural)" else "TIEMPO AGOTADO").
Proof.
  intros Hr. pose proof (reachable_playable m Hr) as Hp.
  pose proof (playable_census_ok m Hp) as (Hc & _).
  pose proof (playable_bounds m Hp) as [Hres Hlost].
  split; [exact Hc|]. split; [done|]. split; [done|].
  split; [by apply reachable_running|].
  unfold get_final_stats. simpl.
  replace (7 <=? hostages_rescued m) with false
    by (symmetry; apply Z.leb_gt; lia).
  replace (4 <=? hostages_lost m) with false
    by (symmetry; apply Z.leb_gt; lia).
  done.
Qed.

(** X2. In every state of a run the collector holds one snapshot per
    completed turn, [get_final_stats] reports that number as the total
    steps, and after the first turn the last snapshot is the grid state
    of the model itself. *)
Theorem snapshots_match_turns m :
  reachable m →
  Z.of_nat (length (datacollector m)) = turn_counter m
  ∧ fs_total_steps (get_final_stats m) = Z.of_nat (length (datacollector m))
  ∧ (0 < turn_counter m → last (datacollector m) = Some (get_grid_state m)).
Proof.
  intros Hr.
  assert (H : Z.of_nat (length (datacollector m)) = turn_counter m
              ∧ (0 < turn_counter m →
                 last (datacollector m) = Some (get_grid_state m))).
  { induction Hr as [seed width height g m g' Hinit|fuel m m' Hr IH Hstep].
    - apply init_ledger in Hinit as (_ & -> & -> & _). split; [done|lia].
    - apply step_occurs in Hstep as (m2 & _ & _ & T2 & D2 & ->).
      destruct IH as [IH _]. split.
      + simpl. rewrite length_app, D2. simpl.
        assert (turn_counter (check_game_over m2) = turn_counter m2)
          by (unfold check_game_over; by destruct (_ || _)).
        lia.
      + intros _. simpl. by rewrite last_snoc. }
  destruct H as [H1 H2]. split; [done|]. split; [|done]. simpl. by rewrite H1.
Qed.

(** X4. In every state of a run the grid has positive dimensions, the
    schedule holds six distinct agents, and each of them is a tactical
    agent standing on a cell of the grid with between 0 and 4 action
    points. *)
Theorem agents_stay_on_grid m :
  reachable m →
  0 < grid_width m ∧ 0 < grid_height m
  ∧ NoDup (schedule m) ∧ length (schedule m) = 6%nat
  ∧ ∀ a, a ∈ schedule m →
      ∃ u p ap c, heap m !! a = Some (TacticalAgent u p ap c)
                  ∧ in_grid m p ∧ 0 ≤ ap ≤ 4.
Proof.
  intros Hr. pose proof (reachable_playable m Hr) as Hp.
  destruct (playable_crew_ok m Hp) as (Hnd & Hlen & Hcrew).
  assert (Hdims : 0 < grid_width m ∧ 0 < grid_height m).
  { destruct (schedule m) as [|a l] eqn:Hs; [done|].
    destruct (Hcrew a) as (u & p & ap & c & _ & [[? ?] [? ?]] & _);
      [by left|lia]. }
  destruct Hdims. by repeat split.
Qed.

Lemma cell_code_not_8 m p : world_ok m → calm m → cell_code m p ≠ 8.
Proof.
  intros Hw Hc. unfold cell_code.
  repeat case_match; try done.
  exfalso.
  match goal with
  | H : List.filter _ _ = ?d :: _ |- _ =>
      assert (Hin : In d (List.filter (isinstance (heap m) CDisturbance)
                            (get_contents_at m p)))
        by (rewrite H; by left)
  end.
  apply filter_In in Hin as [Hin Hk]. apply list_elem_of_In in Hin.
  pose proof (registry_of_contents m p _ CDisturbance Hw
                ltac:(done) Hin Hk) as Hreg.
  match goal with
  | H : severity_of _ ?d = Some grave |- _ =>
      unfold severity_of in H;
      destruct (heap m !! d) as [[| | |u sev t|]|] eqn:Hh; try done;
      injection H as ->
  end.
  destruct (default_lookup_cases (cell_contents m) p) as [E|HL];
    [rewrite E in Hreg; by apply elem_of_nil in Hreg|].
  destruct (Hc _ u grave t (elem_of_concat _ _ _ Hreg HL) Hh) as [[? _]|[? _]];
    done.
Qed.

Lemma snapshot_no_8 m row v :
  world_ok m → calm m →
  row ∈ gs_grid (get_grid_state m) → v ∈ row → v ≠ 8.
Proof.
  intros Hw Hc Hrow Hv. simpl in Hrow.
  apply list_elem_of_fmap in Hrow as (y & -> & _).
  apply list_elem_of_fmap in Hv as (x & -> & _).
  by apply cell_code_not_8.
Qed.

(** X5. In every state of a run a registered disturbance is mild with a
    timer from 0 to 3 or active with a timer from 0 to 5: none is grave
    between two turns.  Hence no cell has code 8, neither in the grid
    state of the model nor in any collected snapshot. *)
Theorem no_grave_disturbance m :
  reachable m →
  (∀ x u sev t,
     x ∈ concat (cell_contents m).*2 →
     heap m !! x = Some (Disturbance u sev t) →
     (sev = mild ∧ 0 ≤ t ≤ 3) ∨ (sev = active ∧ 0 ≤ t ≤ 5))
  ∧ (∀ p, cell_code m p ≠ 8)
  ∧ ∀ gs row v, gs ∈ datacollector m → row ∈ gs_grid gs → v ∈ row → v ≠ 8.
Proof.
  intros Hr. pose proof (reachable_playable m Hr) as Hp.
  split; [exact (playable_calm m Hp)|].
  split; [intros p; apply cell_code_not_8;
          [by apply playable_world_ok|by apply playable_calm]|].
  clear Hp.
  induction Hr as [seed width height g m g' Hinit|fuel m m' Hr IH Hstep].
  - apply init_ledger in Hinit as (_ & _ & -> & _).
    intros gs row v Hgs. by apply elem_of_nil in Hgs.
  - apply step_occurs in Hstep as (m2 & H2 & _ & _ & D2 & ->).
    assert (Hp : playable (check_game_over m2)).
    { eapply playable_occurs; [|apply check_game_over_occurs].
      eapply playable_rtc; [by apply reachable_playable|done]. }
    intros gs row v. simpl. rewrite elem_of_app, list_elem_of_singleton.
    rewrite D2. intros [Hgs| ->].
    + by apply IH.
    + apply snapshot_no_8; [by apply playable_world_ok|by apply playable_calm].
Qed.

Lemma reachable_next_entity_id m : reachable m → 27 ≤ next_entity_id m.
Proof.
  induction 1 as [seed width height g m g' Hinit|fuel m m' Hr IH Hstep].
  - apply init_ledger in Hinit as (_ & _ & _ & _ & _ & -> & _). lia.
  - apply step_occurs in Hstep as (m2 & H2 & _ & _ & _ & ->).
    pose proof (rtc_occurs_ledger_le _ _ H2) as (_ & _ & _ & _ & Hn & _).
    assert (next_entity_id (check_game_over m2) = next_entity_id m2)
      by (unfold check_game_over; by destruct (_ || _)).
    simpl. lia.
Qed.

(** X6. In every state of a run the entity counter is at least 27, every
    object of the heap has an identifier between 1 and the counter, and
    two different objects never share an identifier. *)
Theorem entity_ids_unique m :
  reachable m →
  27 ≤ next_entity_id m
  ∧ (∀ x o, heap m !! x = Some o → 1 ≤ unique_id_of o ≤ next_entity_id m)
  ∧ ∀ x y ox oy,
      heap m !! x = Some ox → heap m !! y = Some oy →
      unique_id_of ox = unique_id_of oy → x = y.
Proof.
  intros Hr. split; [by apply reachable_next_entity_id|].
  by destruct (playable_ids_ok m (reachable_playable m Hr)) as (_ & H1 & H2).
Qed.

(** The scheduler keeps the order it drew for the turn. *)
Lemma step_schedule fuel m m' :
  step fuel m = Done m' →
  schedule m' = (rnd_shuffle (schedule m) (random m)).1.
Proof.
  unfold step. intros H.
  apply bind_Done in H as (m1 & H1 & H).
  apply bind_Done in H as (m2 & H2 & [= <-]).
  apply frame_schedule_step in H1 as (_ & _ & _ & _ & S1 & _).
  apply frame_advance_disturbances in H2 as (_ & _ & _ & _ & S2 & _).
  simpl in S1. simpl. rewrite <- S1, <- S2.
  unfold check_game_over. by destruct (_ || _).
Qed.

(** X12. A completed turn adds one to the turn counter and one snapshot
    to the collector; the four counters and the entity counter do not
    decrease; the wall table keeps its cells and a wall flag is only
    ever cleared; the schedule holds the same agents, now in the order
    the scheduler drew for the turn; the dimensions and the entry points
    are unchanged; and a stopped model is never restarted. *)
Theorem turn_is_monotone fuel m m' :
  step fuel m = Done m' →
  turn_counter m' = turn_counter m + 1
  ∧ length (datacollector m') = S (length (datacollector m))
  ∧ hostages_rescued m ≤ hostages_rescued m'
  ∧ hostages_lost m ≤ hostages_lost m'
  ∧ structural_damage m ≤ structural_damage m'
  ∧ false_alarms_investigated m ≤ false_alarms_investigated m'
  ∧ next_entity_id m ≤ next_entity_id m'
  ∧ dom (walls m') = dom (walls m)
  ∧ (∀ p s, wall_flag (walls m') p s = true → wall_flag (walls m) p s = true)
  ∧ schedule m' = (rnd_shuffle (schedule m) (random m)).1
  ∧ schedule m' ≡ₚ schedule m
  ∧ grid_width m' = grid_width m ∧ grid_height m' = grid_height m
  ∧ entry_points m' = entry_points m
  ∧ (running m' = true → running m = true).
Proof.
  intros Hstep. pose proof (step_schedule _ _ _ Hstep) as Hsch.
  apply step_occurs in Hstep as (m2 & H2 & R2 & T2 & D2 & ->).
  pose proof (rtc_occurs_ledger_le _ _ H2) as (L1 & L2 & L3 & L4 & L5 & L6 & L7).
  pose proof (rtc_occurs_frame _ _ H2) as (F1 & F2 & F3 & F4).
  assert (E : ∃ b, check_game_over m2 = set_running b m2).
  { unfold check_game_over. destruct (_ || _); [by exists false|].
    exists (running m2). by destruct m2. }
  assert (Hrun : running (check_game_over m2) = true → running m2 = true).
  { unfold check_game_over. by destruct (_ || _). }
  destruct E as [b E]. rewrite E in *. simpl in *.
  rewrite length_app, D2. simpl.
  repeat split; try done; try lia. intros Hb. rewrite <- R2. by apply Hrun.
Qed.

(** X3. [run] plays at most [max_steps] turns: the turn counter grows by
    at most that number, and the loop ends either stopped or having
    played all of them.  A model that is already stopped is returned
    unchanged, and the result of a run from a state of a run is again a
    state of a run. *)
Theorem run_bounded max_steps fuel m m' :
  run max_steps fuel m = Done m' →
  turn_counter m ≤ turn_counter m' ≤ turn_counter m + Z.of_nat max_steps
  ∧ (running m' = false ∨ turn_counter m' = turn_counter m + Z.of_nat max_steps)
  ∧ (running m = false → m' = m)
  ∧ (turn_counter m < turn_counter m' → running m = true)
  ∧ (reachable m → reachable m').
Proof.
  revert m. induction max_steps as [|n IH]; intros m.
  - simpl. intros [= <-]. split; [lia|]. split; [right; lia|].
    split; [done|]. split; [lia|done].
  - cbn [run]. destruct (running m) eqn:Hrun; simpl.
    + intros H. apply bind_Done in H as (m1 & Hstep & H).
      destruct (IH m1 H) as (Ht & Hend & _ & _ & Hreach).
      pose proof (step_occurs _ _ _ Hstep) as (m2 & _ & _ & T2 & _ & E).
      assert (T1 : turn_counter m1 = turn_counter m + 1).
      { rewrite E. simpl.
        assert (turn_counter (check_game_over m2) = turn_counter m2)
          by (unfold check_game_over; by destruct (_ || _)).
        lia. }
      split; [lia|]. split; [destruct Hend; [by left|right; lia]|].
      split; [done|]. split; [done|].
      intros Hr. apply Hreach. by eapply reachable_step.
    + intros [= <-]. split; [lia|]. split; [by left|].
      split; [done|]. split; [lia|done].
Qed.

(** ** A turn raises no exception *)

Lemma get_available_cell_no_raise fuel :
  ∀ m, 0 < grid_width m → 0 < grid_height m →
       get_available_cell fuel m ≠ Raise.
Proof.
  induction fuel as [|fuel IH]; intros m HW HH; [done|]. simpl.
  unfold randrange.
  rewrite (proj2 (Z.ltb_lt 0 (grid_width m)) HW),
          (proj2 (Z.ltb_lt 0 (grid_height m)) HH).
  simpl. destruct (rnd_randbelow (grid_width m) (random m)) as [x r1]. simpl.
  destruct (rnd_randbelow (grid_height m) r1) as [y r2]. simpl.
  destruct (negb _); [done|]. by apply IH.
Qed.

Lemma isinstance_TacticalAgent (h : gmap loc Object) a :
  isinstance h CTacticalAgent a = true →
  ∃ u p ap c, h !! a = Some (TacticalAgent u p ap c).
Proof.
  unfold isinstance. destruct (h !! a) as [[| | | |u p ap c]|]; try done.
  intros _. by exists u, p, ap, c.
Qed.

Lemma activate_total fuel order :
  (5 ≤ fuel)%nat →
  ∀ m, (∀ a, a ∈ order → isinstance (heap m) CTacticalAgent a = true) →
       ∃ m', activate fuel order m = Done m'.
Proof.
  intros Hfuel. induction order as [|a order IH]; intros m Hag; simpl;
    [by exists m|].
  destruct (isinstance_TacticalAgent (heap m) a) as (u & p & ap & c & Ha);
    [apply Hag; by left|].
  unfold TacticalAgent_step.
  assert (H0 : set_action_points a 4 m
               = Done (set_heap (<[a := TacticalAgent u p 4 c]> (heap m)) m)).
  { unfold set_action_points. by rewrite Ha. }
  rewrite H0. simpl.
  set (m0 := set_heap _ m).
  destruct (step_loop_budget fuel m0 a u p 4 c)
    as (log & m1 & u1 & p1 & c1 & Hloop & _);
    [apply lookup_insert_eq|lia|change (Z.to_nat 4) with 4%nat; lia|].
  rewrite Hloop. simpl. apply IH. intros b Hb.
  pose proof (shrinks_set_action_points _ _ _ _ H0) as (_ & S0 & _).
  pose proof (shrinks_step_loop _ _ _ _ _ Hloop) as (_ & S1 & _).
  rewrite (isinstance_same_classes _ _ _ _ S1).
  rewrite (isinstance_same_classes _ _ _ _ S0).
  apply Hag. by right.
Qed.

Lemma playable_dims m : playable m → 0 < grid_width m ∧ 0 < grid_height m.
Proof.
  intros (_ & Hlen & Hcrew)%playable_crew_ok.
  destruct (schedule m) as [|a l] eqn:Hs; [done|].
  destruct (Hcrew a) as (u & p & ap & c & _ & [[? ?] [? ?]] & _);
    [by left|lia].
Qed.

(** X7. From a state of a run, with fuel for the nested loops, a turn
    never raises: the activation of the six agents always completes,
    and when the spawn draw is not below 0.05 the whole turn does. *)
Theorem step_never_raises fuel m :
  reachable m → (5 ≤ fuel)%nat →
  step fuel m ≠ Raise
  ∧ ∃ m1,
      schedule_step fuel (set_turn_counter (turn_counter m + 1) m) = Done m1
      ∧ (lt_0_05 (rnd_random (random m1)).1 = false →
         ∃ m', step fuel m = Done m').
Proof.
  intros Hr Hfuel. pose proof (reachable_playable m Hr) as Hp.
  set (m0 := set_turn_counter (turn_counter m + 1) m).
  assert (Hp0 : playable m0).
  { eapply playable_occurs; [exact Hp|]. apply occ_ledger.
    unfold bookkeeping. repeat split; try done; simpl; lia. }
  assert (H1 : ∃ m1, schedule_step fuel m0 = Done m1).
  { unfold schedule_step.
    pose proof (rnd_shuffle_perm (schedule m0) (random m0)) as Hperm.
    destruct (rnd_shuffle _ _) as [order r']. simpl in Hperm.
    apply activate_total; [done|]. intros a Ha.
    destruct (playable_world_ok m0 Hp0) as (_ & _ & _ & W4 & _).
    change (heap (set_schedule order (set_random r' m0))) with (heap m0).
    apply W4.
    rewrite Hperm in Ha. exact Ha. }
  destruct H1 as [m1 H1].
  assert (Hp1 : playable m1)
    by (eapply playable_rtc; [exact Hp0|by eapply schedule_step_occurs]).
  pose proof (playable_world_ok m1 Hp1) as Hw1.
  assert (Hp2 : playable (escalate m1))
    by (eapply playable_occurs; [exact Hp1|apply occ_escalate]).
  destruct (playable_dims _ Hp2) as [HW HH].
  assert (Hrand : random (escalate m1) = random m1)
    by (by rewrite (escalate_summary m1 Hw1)).
  assert (Hsp : spawn fuel (escalate m1) ≠ Raise
                ∧ (lt_0_05 (rnd_random (random m1)).1 = false →
                   ∃ m2, spawn fuel (escalate m1) = Done m2)).
  { unfold spawn. rewrite Hrand.
    destruct (rnd_random (random m1)) as [k r']. simpl.
    destruct (lt_0_05 k); [|split; [done|by eauto]].
    split; [|done].
    pose proof (get_available_cell_no_raise fuel
                  (set_random r' (escalate m1)) HW HH) as Hno.
    destruct (get_available_cell fuel _) as [[q m2]| |]; simpl; try done.
    by destruct (negb _). }
  destruct Hsp as [Hno Hdone].
  unfold step. fold m0. rewrite H1. simpl. unfold advance_disturbances.
  split.
  - destruct (spawn fuel (escalate m1)); done.
  - exists m1. split; [done|]. intros Hdraw.
    destruct (Hdone Hdraw) as [m2 ->]. simpl. by eauto.
Qed.

(** ** The candidate list is the list of the legal actions *)

(** X8. An action with its cost is a candidate of [possible_actions]
    exactly when the rule table allows it: a move, a break, a rescue,
    an investigation, a containment, a gate toggle or a drop-off, each
    with its own guard and cost within the points left. *)
Theorem possible_actions_legal m p ap c a cost :
  (a, cost) ∈ possible_actions m p ap c ↔ legal m p ap c a cost.
Proof.
  split; [apply possible_actions_inv|].
  unfold possible_actions. rewrite !elem_of_app.
  destruct a as [t|x|x| |x|g|g|t]; simpl.
  - intros (Ht & Hcan & -> & Hle). left.
    apply list_elem_of_In, in_flat_map. exists t.
    split; [by apply list_elem_of_In|]. rewrite Hcan.
    unfold holds in Hle |- *.
    rewrite (proj2 (Z.leb_le _ _) Hle). by left.
  - intros (-> & Hx & -> & Hle). right. left. simpl. rewrite Hx.
    rewrite (proj2 (Z.leb_le _ _) Hle). by left.
  - intros (Hx & -> & Hle). do 2 right. left. rewrite Hx.
    rewrite (proj2 (Z.leb_le _ _) Hle). by left.
  - intros (-> & Hp & -> & Hle). do 3 right. left.
    rewrite (bool_decide_eq_true_2 _ Hp), (proj2 (Z.leb_le _ _) Hle). by left.
  - intros (Hx & Hsev & Hle). do 4 right. left. rewrite Hx.
    destruct Hsev as [[Hs ->]|[Hs ->]]; rewrite Hs.
    + rewrite bool_decide_eq_true_2 by done.
      rewrite (proj2 (Z.leb_le _ _) Hle). by left.
    + rewrite bool_decide_eq_false_2 by done. simpl.
      rewrite ?bool_decide_eq_true_2 by done.
      rewrite (proj2 (Z.leb_le _ _) Hle). by left.
  - intros (Hg & Ho & -> & Hle). do 5 right. left. rewrite Hg, Ho.
    rewrite (proj2 (Z.leb_le _ _) Hle). by left.
  - intros (Hg & Ho & -> & Hle). do 5 right. left. rewrite Hg, Ho.
    rewrite (proj2 (Z.leb_le _ _) Hle). by left.
  - intros (Ht & Hw & -> & Hle). do 6 right.
    rewrite (proj2 (Z.leb_le _ _) Hle).
    apply list_elem_of_In, in_flat_map. exists t.
    split; [by apply list_elem_of_In|]. rewrite Hw. by left.
Qed.

(** ** The registry: [remove_entity] *)

Lemma list_remove_first_snoc x (l : list loc) :
  x ∉ l → list_remove_first x (l ++ [x]) = l.
Proof.
  induction l as [|y l IH]; simpl.
  - intros _. by rewrite decide_True.
  - rewrite not_elem_of_cons. intros [Hxy Hx].
    rewrite decide_False by done. by rewrite IH.
Qed.

Lemma od_store_keys_same {V} (d : list (Pos * V)) p (v w : V) :
  od_lookup p d = Some w → od_keys (od_store p v d) = od_keys d.
Proof.
  unfold od_keys. induction d as [|[k u] d IH]; simpl; [done|].
  case_decide as Hk; simpl; [by subst|]. intros Hl. f_equal. by apply IH.
Qed.

(** X9. [remove_entity] at its edges: removing an entity that is not in
    the cell (or from a cell with no entry) leaves the model unchanged;
    the registry keeps its keys and every other cell; removing a present
    entity drops its first occurrence only, so a cell without duplicates
    no longer holds it; and removing what was just appended gives the
    cell back. *)
Theorem remove_entity_edge_cases m e p :
  (e ∉ default [] (od_lookup p (cell_contents m)) → remove_entity e p m = m)
  ∧ od_keys (cell_contents (remove_entity e p m)) = od_keys (cell_contents m)
  ∧ (∀ q, q ≠ p →
          od_lookup q (cell_contents (remove_entity e p m))
          = od_lookup q (cell_contents m))
  ∧ (∀ L, od_lookup p (cell_contents m) = Some L → e ∈ L →
          od_lookup p (cell_contents (remove_entity e p m))
          = Some (list_remove_first e L)
          ∧ L ≡ₚ e :: list_remove_first e L
          ∧ (NoDup L → e ∉ list_remove_first e L))
  ∧ (e ∉ default [] (od_lookup p (cell_contents m)) →
     od_lookup p (cell_contents (remove_entity e p (cell_append p e m)))
     = Some (default [] (od_lookup p (cell_contents m)))).
Proof.
  split; [|split; [|split; [|split]]].
  - unfold remove_entity. intros He.
    destruct (od_lookup p (cell_contents m)) as [L|]; [|done].
    by rewrite bool_decide_eq_false_2.
  - unfold remove_entity.
    destruct (od_lookup p (cell_contents m)) as [L|] eqn:HL; [|done].
    case_bool_decide; [|done]. simpl. by eapply od_store_keys_same.
  - intros q Hq. unfold remove_entity.
    destruct (od_lookup p (cell_contents m)) as [L|] eqn:HL; [|done].
    case_bool_decide; [|done]. simpl.
    by rewrite od_lookup_store, decide_False.
  - intros L HL He. unfold remove_entity.
    rewrite HL, bool_decide_eq_true_2 by done. simpl.
    rewrite od_lookup_store, decide_True by done.
    split; [done|]. split; [by apply list_remove_first_perm|].
    intros Hnd Hin.
    rewrite (list_remove_first_perm e L He) in Hnd.
    by apply NoDup_cons in Hnd as [Hnd _].
  - intros He. unfold remove_entity, cell_append. simpl.
    rewrite od_lookup_store, decide_True by done.
    rewrite bool_decide_eq_true_2
      by (apply elem_of_app; right; by apply list_elem_of_singleton).
    simpl. rewrite od_lookup_store, decide_True by done.
    by rewrite list_remove_first_snoc.
Qed.

(** ** The snapshot *)

Lemma comma_free_pretty_N_go x (acc : string) :
  comma_free acc → comma_free (pretty_N_go x acc).
Proof.
  revert acc. induction (N.lt_wf_0 x) as [x _ IH]; intros acc Hs.
  assert (x = 0 ∨ 0 < x)%N as [->|?] by lia.
  - by rewrite pretty_N_go_0.
  - rewrite pretty_N_go_step by done. apply IH.
    { by apply N.div_lt. }
    split; [|done]. unfold pretty_N_char. by repeat case_match.
Qed.

Lemma comma_free_pretty_Z (z : Z) : comma_free (pretty z).
Proof.
  assert (Hp : ∀ x : positive, comma_free (pretty x)).
  { intros x. unfold pretty, pretty_positive, pretty, pretty_N.
    case_decide; [done|]. by apply comma_free_pretty_N_go. }
  destruct z as [|x|x]; unfold pretty, pretty_Z; [done|apply Hp|].
  split; [done|apply Hp].
Qed.

Lemma comma_split a a' b b' :
  comma_free a → comma_free a' →
  a +:+ "," +:+ b = a' +:+ "," +:+ b' → a = a' ∧ b = b'.
Proof.
  revert a'. induction a as [|c a IH]; intros [|c' a']; simpl.
  - intros _ _ H. by simplify_eq/=.
  - intros _ [Hc' _] H. by simplify_eq/=.
  - intros [Hc _] _ H. by simplify_eq/=.
  - intros [_ Ha] [_ Ha'] H. injection H as -> H.
    by destruct (IH a' Ha Ha' H) as [-> ->].
Qed.

#[local] Instance wall_key_inj : Inj (=) (=) wall_key.
Proof.
  intros [x y] [x' y']. unfold wall_key. simpl. intros H.
  apply comma_split in H as [Hx Hy]; try apply comma_free_pretty_Z.
  by apply (inj pretty) in Hx, Hy; subst.
Qed.

(** X10. On a grid whose dimensions are not negative, the grid of
    [get_grid_state] has one row per line of the grid and one code per
    column, every code being one of 0, 2, 3, 4, 5, 6, 7, 8, 9, 10; the
    serialised wall table maps the key [x,y] to the walls of cell
    (x, y), and has no other key. *)
Theorem get_grid_state_shape m :
  0 ≤ grid_width m → 0 ≤ grid_height m →
  length (gs_grid (get_grid_state m)) = Z.to_nat (grid_height m)
  ∧ (∀ row, row ∈ gs_grid (get_grid_state m) →
            length row = Z.to_nat (grid_width m)
            ∧ ∀ v, v ∈ row → v ∈ [0; 2; 3; 4; 5; 6; 7; 8; 9; 10])
  ∧ (∀ p, gs_walls (get_grid_state m) !! wall_key p = walls m !! p)
  ∧ ∀ k w, gs_walls (get_grid_state m) !! k = Some w →
           ∃ p, k = wall_key p ∧ walls m !! p = Some w.
Proof.
  intros HW HH. split; [|split; [|split]].
  - simpl. by rewrite length_fmap, length_seqZ.
  - intros row Hrow. simpl in Hrow.
    apply list_elem_of_fmap in Hrow as (y & -> & _).
    split; [by rewrite length_fmap, length_seqZ|].
    intros v Hv. apply list_elem_of_fmap in Hv as (x & -> & _).
    unfold cell_code. repeat case_match; decide_tac.
  - intros p. change (gs_walls (get_grid_state m)) with
      (kmap (M2 := gmap string) wall_key (walls m)).
    apply (lookup_kmap wall_key).
  - intros k w. change (gs_walls (get_grid_state m)) with
      (kmap (M2 := gmap string) wall_key (walls m)).
    intros Hk. apply (lookup_kmap_Some wall_key) in Hk as (p & -> & Hp).
    by exists p.
Qed.

(** ** The constructor and the size of the grid *)

Lemma for_each_Done_elem {A St} (P : St → Prop) (body : St → A → outcome St) l :
  (∀ st x st', P st → body st x = Done st' → P st') →
  ∀ st st', P st → for_each body l st = Done st' →
    ∀ x, x ∈ l → ∃ st1 st2, P st1 ∧ body st1 x = Done st2.
Proof.
  intros Hbody. induction l as [|y l IH]; intros st st' Hst; simpl.
  - intros _ x Hx. by apply elem_of_nil in Hx.
  - intros H x Hx. apply bind_Done in H as (st1 & H1 & H).
    apply elem_of_cons in Hx as [->|Hx]; [by eauto|].
    eapply IH; [|exact H|exact Hx]. by eapply Hbody.
Qed.

Lemma bind_no_fuel {A B} (x : outcome A) (f : A → outcome B) :
  x ≠ OutOfFuel → (∀ a, f a ≠ OutOfFuel) → x ≫= f ≠ OutOfFuel.
Proof. destruct x as [a| |]; simpl; [by auto|done..]. Qed.

Lemma for_each_no_fuel {A St} (body : St → A → outcome St) l :
  (∀ st x, body st x ≠ OutOfFuel) → ∀ st, for_each body l st ≠ OutOfFuel.
Proof.
  intros Hbody. induction l as [|y l IH]; intros st; simpl; [done|].
  apply bind_no_fuel; [apply Hbody|apply IH].
Qed.

Lemma choice_no_fuel {A} (l : list A) (r : R) : choice l r ≠ OutOfFuel.
Proof.
  unfold choice. destruct l; [done|]. destruct (rnd_randbelow _ r).
  by destruct (_ !! _).
Qed.

Lemma RescueModel_init_no_fuel (seed : R) width height g :
  RescueModel_init seed width height g ≠ OutOfFuel.
Proof.
  unfold RescueModel_init, setup_fixed_grid.
  apply bind_no_fuel.
  - unfold setup_walls. apply for_each_no_fuel. intros m1 row.
    apply for_each_no_fuel. intros m2 col.
    destruct (_ ≫= _) as [str|]; [|done].
    apply bind_no_fuel; [|by intros ?].
    unfold flags_of_string, char_is_1.
    repeat (apply bind_no_fuel; [by destruct (String.get _ _)|intros ?]).
    done.
  - intros m1. apply bind_no_fuel.
    + apply for_each_no_fuel. intros [m2 g2] i. unfold setup_agent. simpl.
      apply bind_no_fuel; [apply choice_no_fuel|]. intros [p g3]. simpl.
      by destruct (_ && _).
    + intros [m2 g2]. apply for_each_no_fuel. intros [m3 g3] [[[r1 c1] r2] c2].
      unfold setup_door. simpl.
      apply bind_no_fuel; [exact (choice_no_fuel [true; false] g3)|].
      by intros [b g4].
Qed.

Lemma grid_walls_lookup (row col : nat) str :
  grid_walls !! row ≫= (.!! col) = Some str → (row < 6)%nat ∧ (col < 8)%nat.
Proof.
  destruct (grid_walls !! row) as [l|] eqn:Hrow; [|done]. simpl. intros Hcol.
  assert (Hlen : Forall (λ l : list string, length l = 8%nat) grid_walls)
    by (by repeat constructor).
  rewrite Forall_forall in Hlen.
  pose proof (Hlen l (list_elem_of_lookup_2 _ _ _ Hrow)) as Hl.
  apply lookup_lt_Some in Hrow, Hcol. rewrite Hl in Hcol.
  change (length grid_walls) with 6%nat in Hrow. done.
Qed.

Lemma setup_walls_bounds m m' :
  setup_walls m = Done m' →
  0 < grid_width m → 0 < grid_height m →
  grid_width m ≤ 8 ∧ grid_height m ≤ 6.
Proof.
  unfold setup_walls. intros H HW HH.
  match type of H with
  | for_each ?body _ _ = _ =>
      assert (Hinv : ∀ m1 row m2,
                grid_width m1 = grid_width m → body m1 row = Done m2 →
                grid_width m2 = grid_width m)
  end.
  { intros m1 row m2 H1 Hrow. simpl in Hrow.
    refine (for_each_inv (λ m0, grid_width m0 = grid_width m)
              _ _ _ _ _ H1 Hrow).
    intros m3 col m4 H3. destruct (_ ≫= _) as [str|]; [|done].
    intros Hw. apply bind_Done in Hw as (fl & _ & [= <-]). exact H3. }
  destruct (for_each_Done_elem (λ m0, grid_width m0 = grid_width m)
              _ _ Hinv (set_walls ∅ m) _ eq_refl H (grid_height m - 1))
    as (m1 & m2 & Hw1 & Hrow).
  { apply elem_of_seqZ. lia. }
  simpl in Hrow.
  destruct (for_each_Done_elem (λ _, True) _ _
              ltac:(done) _ _ I Hrow (grid_width m - 1))
    as (m3 & m4 & _ & Hcol).
  { apply elem_of_seqZ. lia. }
  simpl in Hcol.
  destruct (_ ≫= _) as [str|] eqn:Hstr; [|done].
  apply grid_walls_lookup in Hstr. lia.
Qed.

Lemma in_grid_test m p :
  in_grid m p →
  (0 <=? p.1) && (p.1 <? grid_width m) && (0 <=? p.2) && (p.2 <? grid_height m)
  = true.
Proof.
  intros [[? ?] [? ?]].
  repeat (apply andb_true_iff; split);
    first [by apply Z.leb_le | by apply Z.ltb_lt].
Qed.

Lemma setup_agents_total l :
  ∀ m (g : R),
    entry_points m ≠ [] → (∀ p, p ∈ entry_points m → in_grid m p) →
    ∃ m' g', for_each setup_agent l (m, g) = Done (m', g').
Proof.
  induction l as [|i l IH]; intros m g Hne Hin; cbn [for_each]; [by eauto|].
  destruct (choice_total (entry_points m) g Hne) as (p & g1 & Hch & Hp).
  assert (H1 : setup_agent (m, g) i = Done (enlist m p, g1)).
  { unfold setup_agent. simpl. rewrite Hch. simpl.
    by rewrite (in_grid_test m p (Hin p Hp)). }
  rewrite H1. simpl. by apply IH.
Qed.

Lemma setup_doors_total l :
  ∀ m (g : R), ∃ m' g', for_each setup_door l (m, g) = Done (m', g').
Proof.
  induction l as [|[[[r1 c1] r2] c2] l IH]; intros m g; cbn [for_each];
    [by eauto|].
  destruct (choice_total [true; false] g ltac:(done)) as (b & g1 & Hch & _).
  unfold setup_door at 1. simpl. simpl in Hch. rewrite Hch. simpl. apply IH.
Qed.

Lemma RescueModel_init_default (seed : R) g :
  ∃ m g', RescueModel_init seed 8 6 g = Done (m, g').
Proof.
  unfold RescueModel_init, setup_fixed_grid.
  destruct (setup_walls (blank_model seed 8 6)) as [m1| |] eqn:E;
    [|by vm_compute in E..].
  apply setup_walls_shape in E as (ws & ->). rewrite Done_bind.
  destruct (setup_agents_total (seq 0 num_agents)
              (set_entry_points
                 ((λ '(r, c), (c - 1, r - 1)) <$> entry_points_data)
                 (set_walls ws (blank_model seed 8 6))) g)
    as (m2 & g2 & H2).
  { done. }
  { intros p Hp. simpl in Hp.
    repeat (apply elem_of_cons in Hp as [->|Hp]); [..|by apply elem_of_nil in Hp];
      in_grid_tac. }
  rewrite H2, Done_bind. apply setup_doors_total.
Qed.

(** X11. The constructor and the size of the grid: on the default 8 by 6
    grid it always completes; whenever it completes, the width is from 1
    to 8 and the height from 1 to 6, the model is running at turn 0 with
    an empty collector, the entity counter is 27, and the six agents
    stand with 4 points and empty hands on entry points inside the grid;
    for a width above 8 or below 1, or a height above 6 or below 1, it
    raises. *)
Theorem RescueModel_init_bounds (seed : R) width height g :
  (width = 8 → height = 6 →
   ∃ m g', RescueModel_init seed width height g = Done (m, g'))
  ∧ (∀ m g', RescueModel_init seed width height g = Done (m, g') →
       1 ≤ width ≤ 8 ∧ 1 ≤ height ≤ 6
       ∧ grid_width m = width ∧ grid_height m = height
       ∧ random m = seed ∧ running m = true ∧ turn_counter m = 0
       ∧ datacollector m = [] ∧ next_entity_id m = 27
       ∧ length (schedule m) = 6%nat
       ∧ ∀ a, a ∈ schedule m →
           ∃ u p, heap m !! a = Some (TacticalAgent u p 4 false)
                  ∧ p ∈ entry_points m ∧ in_grid m p)
  ∧ (¬ (1 ≤ width ≤ 8 ∧ 1 ≤ height ≤ 6) →
     RescueModel_init seed width height g = Raise).
Proof.
  assert (Hdone : ∀ m g', RescueModel_init seed width height g = Done (m, g') →
            1 ≤ width ≤ 8 ∧ 1 ≤ height ≤ 6).
  { intros m g' Hi.
    pose proof (init_built _ _ _ _ _ _ Hi) as (ws & ps & bs & Hps & _ & Hin & _).
    destruct ps as [|p ps]; [done|].
    apply Forall_cons in Hin as [[_ [[? ?] [? ?]]] _].
    unfold RescueModel_init, setup_fixed_grid in Hi.
    apply bind_Done in Hi as (m1 & Hwalls & _).
    apply setup_walls_bounds in Hwalls; simpl in *; lia. }
  split; [|split].
  - intros -> ->. apply RescueModel_init_default.
  - intros m g' Hi. destruct (Hdone m g' Hi) as [HW HH].
    split; [done|]. split; [done|].
    pose proof (RescueModel_init_random _ _ _ _ _ _ Hi) as Hrand.
    pose proof (init_ledger _ _ _ _ _ _ Hi)
      as (Hrun & Ht & Hd & _ & _ & Hn & Hgw & Hgh & Hep).
    do 7 (split; [done|]).
    apply init_built in Hi as (ws & ps & bs & Hps & Hbs & Hin & ->).
    destruct ps as [|p1 [|p2 [|p3 [|p4 [|p5 [|p6 [|p7 ps]]]]]]]; try done.
    destruct bs as [|b1 [|b2 [|b3 [|b4 [|b5 [|b6 [|b7 [|b8 [|b9 bs]]]]]]]]];
      try done.
    set (m := built _ _ _ _ _ _) in *.
    assert (Hs : schedule m = [0; 1; 2; 3; 4; 5]%nat)
      by (vm_compute; reflexivity).
    rewrite Hs. split; [done|]. intros a Ha. rewrite Hep. unfold in_grid.
    rewrite Hgw, Hgh.
    repeat (apply Forall_cons in Hin as [[? ?] Hin]).
    repeat (apply elem_of_cons in Ha as [->|Ha]);
      [..|by apply elem_of_nil in Ha];
      eexists _, _; (split; [vm_compute; reflexivity|by split]).
  - intros Hout.
    pose proof (RescueModel_init_no_fuel seed width height g) as Hnf.
    destruct (RescueModel_init seed width height g) as [[m g']| |];
      [|done|done].
    destruct Hout. exact (Hdone m g' eq_refl).
Qed.

(** X13. In every state of a run the eight gates stay registered, and
    the single false alarm is either still registered or counted as
    investigated: the counter, and the figure [get_final_stats] reports,
    is 0 or 1. *)
Theorem gates_and_alarm_accounted_for m :
  reachable m →
  registered m CGate = 8
  ∧ false_alarms_investigated m + registered m CFalseAlarm = 1
  ∧ 0 ≤ false_alarms_investigated m ≤ 1
  ∧ 0 ≤ fs_false_alarms_investigated (get_final_stats m) ≤ 1.
Proof.
  intros Hr.
  destruct (playable_census_ok m (reachable_playable m Hr))
    as (_ & _ & _ & Ha & Hf & Hg).
  assert (0 ≤ registered m CFalseAlarm) by (unfold registered; lia).
  simpl. repeat split; try done; lia.
Qed.

(** ** A mild disturbance *)

(** X14. What the escalation does to a registered mild disturbance of a
    run: its timer is at most 3; the escalation adds one to the timer,
    or makes the disturbance active with timer 0 when the timer was 3;
    the cell keeps its contents, and the disturbance causes neither
    damage nor a loss. *)
Theorem mild_promotion m p L x u t :
  reachable m →
  od_lookup p (cell_contents m) = Some L → x ∈ L →
  heap m !! x = Some (Disturbance u mild t) →
  0 ≤ t ≤ 3
  ∧ heap (escalate m) !! x
    = Some (if bool_decide (t = 3) then Disturbance u active 0
            else Disturbance u mild (t + 1))
  ∧ od_lookup p (cell_contents (escalate m)) = Some L
  ∧ cell_damage (heap m) L = 0
  ∧ cell_lost (heap m) L = 0.
Proof.
  intros Hr HL Hx Hh. pose proof (reachable_playable m Hr) as Hp.
  pose proof (playable_world_ok m Hp) as Hw.
  assert (HLin : L ∈ (cell_contents m).*2) by (by eapply od_lookup_elem_of).
  assert (Hreg : x ∈ concat (cell_contents m).*2) by (by eapply elem_of_concat).
  destruct (playable_calm m Hp x u mild t Hreg Hh) as [[_ Ht]|[? _]]; [|done].
  assert (Hquiet : ∀ y, y ∈ L → explodes (heap m) y = false).
  { intros y Hy. destruct (explodes (heap m) y) eqn:He; [|done]. exfalso.
    pose proof (explodes_instance _ _ He) as Hky.
    destruct Hw as (_ & _ & _ & _ & W5). destruct (W5 L HLin) as [_ Hone].
    assert (Hkx : isinstance (heap m) CDisturbance x = true)
      by (unfold isinstance; by rewrite Hh).
    pose proof (singleton_filter _ L x (proj1 (list_elem_of_In _ _) Hx)
                  Hkx Hone) as E1.
    pose proof (singleton_filter _ L y (proj1 (list_elem_of_In _ _) Hy)
                  Hky Hone) as E2.
    rewrite E1 in E2. injection E2 as <-.
    unfold explodes in He. by rewrite Hh in He. }
  assert (Hex : existsb (explodes (heap m)) L = false).
  { destruct (existsb _ L) eqn:E; [|done].
    apply existsb_exists in E as (y & Hy & He).
    apply list_elem_of_In in Hy. by rewrite (Hquiet y Hy) in He. }
  split; [done|]. split; [|split; [|split]].
  - rewrite (escalate_lookup m x Hw), bool_decide_eq_true_2, Hh by done.
    simpl. f_equal. case_bool_decide as H3.
    + subst t. done.
    + replace (4 <=? t + 1) with false by (symmetry; apply Z.leb_gt; lia).
      done.
  - rewrite (escalate_summary m Hw), with_hazard_cell_contents.
    rewrite od_lookup_fmap, HL. simpl. unfold escalated_cell. by rewrite Hex.
  - unfold cell_damage. rewrite bfilter_none; [done|]. exact Hquiet.
  - unfold cell_lost. by rewrite Hex.
Qed.

(** ** The spawn draw *)

(** X15. The spawn step either only advances the generator, or places
    one new mild disturbance with timer 0, the next identifier and a
    fresh address on a cell of the grid that held neither a closed gate
    nor a disturbance. *)
Theorem spawn_cases fuel m m' :
  spawn fuel m = Done m' →
  (∃ r, m' = set_random r m)
  ∨ ∃ r p,
      in_grid m p
      ∧ has_closed_gate m (get_contents_at m p) = false
      ∧ holds m CDisturbance p = false
      ∧ m' = cell_append p (fresh (dom (heap m)))
               (set_heap
                  (<[fresh (dom (heap m))
                     := Disturbance (next_entity_id m + 1) mild 0]> (heap m))
                  (set_next_entity_id (next_entity_id m + 1)
                     (set_random r m))).
Proof.
  unfold spawn. destruct (rnd_random (random m)) as [k r'].
  destruct (lt_0_05 k); [|intros [= <-]; left; by exists r'].
  intros H. apply bind_Done in H as ([p m1] & H1 & H).
  apply get_available_cell_Done in H1 as (r & -> & Hin & Hgate).
  rewrite set_random_twice in H.
  destruct (negb _) eqn:Hfree; [|injection H as <-; left; by exists r].
  injection H as <-. apply negb_true_iff in Hfree.
  right. exists r, p.
  split; [exact Hin|]. split; [exact Hgate|]. split; [exact Hfree|].
  reflexivity.
Qed.

(** ** The wall map covers the grid *)

Lemma setup_walls_row (row : Z) cols :
  ∀ m m',
    for_each
      (λ m col,
         match grid_walls !! Z.to_nat row ≫= (.!! Z.to_nat col) with
         | Some cell_walls_str =>
             w ← flags_of_string cell_walls_str;
             Done (set_walls (<[(col, row) := w]> (walls m)) m)
         | None => Raise
         end) cols m = Done m' →
    grid_width m' = grid_width m
    ∧ ∀ p, is_Some (walls m' !! p)
           ↔ is_Some (walls m !! p) ∨ (p.2 = row ∧ p.1 ∈ cols).
Proof.
  induction cols as [|col cols IH]; intros m m'; cbn [for_each].
  - intros [= <-]. split; [done|]. intros q. split; [by left|].
    intros [?|[_ Hq]]; [done|by apply elem_of_nil in Hq].
  - intros H. apply bind_Done in H as (m1 & H1 & H).
    destruct (_ ≫= _) as [str|]; [|done].
    apply bind_Done in H1 as (fl & _ & [= <-]).
    apply IH in H as [HW Hdom]. split; [exact HW|].
    intros q. rewrite Hdom. simpl. rewrite lookup_insert_is_Some, elem_of_cons.
    destruct q as [qx qy]. simpl. split.
    + intros [[[= <- <-]|[_ ?]]|[? ?]]; auto.
    + intros [?|[-> [->|?]]]; auto.
      destruct (decide ((col, row) = (qx, qy))); auto.
Qed.

Lemma setup_walls_rows rows :
  ∀ m m',
    for_each
      (λ m row,
         for_each
           (λ m col,
              match grid_walls !! Z.to_nat row ≫= (.!! Z.to_nat col) with
              | Some cell_walls_str =>
                  w ← flags_of_string cell_walls_str;
                  Done (set_walls (<[(col, row) := w]> (walls m)) m)
              | None => Raise
              end)
           (seqZ 0 (grid_width m)) m) rows m = Done m' →
    grid_width m' = grid_width m
    ∧ ∀ p, is_Some (walls m' !! p)
           ↔ is_Some (walls m !! p)
             ∨ (p.2 ∈ rows ∧ 0 ≤ p.1 < grid_width m).
Proof.
  induction rows as [|row rows IH]; intros m m'; cbn [for_each].
  - intros [= <-]. split; [done|]. intros q. split; [by left|].
    intros [?|[Hq _]]; [done|by apply elem_of_nil in Hq].
  - intros H. apply bind_Done in H as (m1 & H1 & H).
    apply setup_walls_row in H1 as [HW1 Hdom1].
    apply IH in H as [HW Hdom]. split; [congruence|].
    intros q. rewrite Hdom, Hdom1, HW1, elem_of_cons, elem_of_seqZ.
    split.
    + intros [[Hq|[Hq1 Hq2]]|[Hq1 Hq2]].
      * by left.
      * right. split; [by left|lia].
      * right. split; [by right|lia].
    + intros [Hq|[[Hq1|Hq1] Hq2]].
      * left. by left.
      * left. right. split; [done|lia].
      * right. split; [done|lia].
Qed.

Lemma setup_walls_dom m m' :
  setup_walls m = Done m' →
  ∀ p, is_Some (walls m' !! p) ↔ in_grid m p.
Proof.
  unfold setup_walls. intros H. apply setup_walls_rows in H as [_ Hdom].
  intros q. rewrite Hdom. simpl. rewrite lookup_empty, elem_of_seqZ.
  unfold in_grid. split.
  - intros [[? ?]|[? ?]]; [done|lia].
  - intros [? ?]. right. lia.
Qed.

Lemma fold_left_walls {A} (f : RescueModel R → A → RescueModel R) l m :
  (∀ m0 x, walls (f m0 x) = walls m0) → walls (fold_left f l m) = walls m.
Proof.
  intros Hf. revert m. induction l as [|x l IH]; intros m; simpl; [done|].
  by rewrite IH, Hf.
Qed.

Lemma init_walls (seed : R) width height g m g' :
  RescueModel_init seed width height g = Done (m, g') →
  ∃ m1, setup_walls (blank_model seed width height) = Done m1
        ∧ walls m = walls m1.
Proof.
  unfold RescueModel_init, setup_fixed_grid. intros H.
  apply bind_Done in H as (m1 & H1 & H). exists m1. split; [exact H1|].
  apply bind_Done in H as ([m2 g2] & H2 & H).
  apply setup_agents_shape in H2 as (ps & _ & _ & ->).
  apply setup_doors_shape in H as (bs & _ & ->).
  rewrite !fold_left_walls; [done|..]; intros m0 x;
    repeat (destruct x as [x ?]); reflexivity.
Qed.

(** X16. In every state of a run the wall table has an entry for a cell
    exactly when the cell is on the grid. *)
Theorem walls_cover_grid m :
  reachable m → ∀ p, is_Some (walls m !! p) ↔ in_grid m p.
Proof.
  induction 1 as [seed width height g m g' Hinit|fuel m m' Hr IH Hstep];
    intros q.
  - pose proof (init_ledger _ _ _ _ _ _ Hinit)
      as (_ & _ & _ & _ & _ & _ & HW & HH & _).
    apply init_walls in Hinit as (m1 & H1 & ->).
    rewrite (setup_walls_dom _ _ H1). unfold in_grid. by rewrite HW, HH.
  - apply step_occurs in Hstep as (m2 & H2 & _ & _ & _ & ->).
    pose proof (rtc_occurs_ledger_le _ _ H2) as (_ & _ & _ & _ & _ & Hdom & _).
    pose proof (rtc_occurs_frame _ _ H2) as (_ & HW & HH & _).
    assert (E : ∃ b, check_game_over m2 = set_running b m2).
    { unfold check_game_over. destruct (_ || _); [by exists false|].
      exists (running m2). by destruct m2. }
    destruct E as [b ->]. simpl.
    rewrite <- !elem_of_dom, Hdom, elem_of_dom, IH.
    unfold in_grid. simpl. by rewrite HW, HH.
Qed.

End Runs.

(** * The run on the fixed scenario *)

(** The model built with both generators on the empty tape is a state of
    a run, and so is the model after its first turn. *)
Ltac reachable_initial :=
  apply (reachable_init [] 8 6 [] initial_model []); vm_compute; reflexivity.

Ltac reachable_first_turn :=
  apply (reachable_step 10 initial_model after_first_turn);
    [reachable_initial|vm_compute; reflexivity].

Lemma hostages_accounted_for_witness :
  reachable initial_model
  ∧ hostages_rescued initial_model + carriers initial_model
    + registered initial_model CHostage + hostages_lost initial_model = 2
  ∧ running initial_model = true
  ∧ fs_result (get_final_stats initial_model) = "TIEMPO AGOTADO".
Proof.
  assert (Hr : reachable initial_model) by reachable_initial.
  destruct (hostages_accounted_for initial_model Hr) as (H1 & _ & _ & H4 & H5).
  split; [exact Hr|]. split; [exact H1|]. split; [|exact H5].
  apply H4. apply Z.ltb_lt. vm_compute. reflexivity.
Defined.

Lemma snapshots_match_turns_witness :
  reachable after_first_turn
  ∧ Z.of_nat (length (datacollector after_first_turn)) = 1
  ∧ last (datacollector after_first_turn)
    = Some (get_grid_state after_first_turn).
Proof.
  assert (Hr : reachable after_first_turn) by reachable_first_turn.
  destruct (snapshots_match_turns after_first_turn Hr) as (H1 & _ & H3).
  split; [exact Hr|]. split; [exact H1|].
  apply H3. apply Z.ltb_lt. vm_compute. reflexivity.
Defined.

Lemma run_bounded_witness :
  run 1 10 initial_model = Done after_first_turn
  ∧ turn_counter after_first_turn = turn_counter initial_model + 1.
Proof.
  assert (Hrun : run 1 10 initial_model = Done after_first_turn)
    by (vm_compute; reflexivity).
  destruct (run_bounded 1 10 initial_model after_first_turn Hrun)
    as (_ & [Hstop|Hturns] & _).
  - vm_compute in Hstop. discriminate Hstop.
  - split; [exact Hrun|exact Hturns].
Defined.

Lemma agents_stay_on_grid_witness :
  reachable initial_model
  ∧ length (schedule initial_model) = 6%nat
  ∧ ∃ u p ap c,
      heap initial_model !! 0%nat = Some (TacticalAgent u p ap c)
      ∧ in_grid initial_model p.
Proof.
  assert (Hr : reachable initial_model) by reachable_initial.
  destruct (agents_stay_on_grid initial_model Hr) as (_ & _ & _ & Hlen & Hcrew).
  split; [exact Hr|]. split; [exact Hlen|].
  destruct (Hcrew 0%nat) as (u & p & ap & c & Hh & Hin & _); [decide_tac|].
  exists u, p, ap, c. split; [exact Hh|exact Hin].
Defined.

Lemma no_grave_disturbance_witness :
  reachable initial_model
  ∧ cell_code initial_model (1, 1) = 4
  ∧ ∀ p, cell_code initial_model p ≠ 8.
Proof.
  assert (Hr : reachable initial_model) by reachable_initial.
  destruct (no_grave_disturbance initial_model Hr) as (_ & H2 & _).
  split; [exact Hr|]. split; [vm_compute; reflexivity|exact H2].
Defined.

Lemma entity_ids_unique_witness :
  reachable initial_model
  ∧ next_entity_id initial_model = 27
  ∧ ∀ x y ox oy,
      heap initial_model !! x = Some ox → heap initial_model !! y = Some oy →
      unique_id_of ox = unique_id_of oy → x = y.
Proof.
  assert (Hr : reachable initial_model) by reachable_initial.
  destruct (entity_ids_unique initial_model Hr) as (_ & _ & H3).
  split; [exact Hr|]. split; [vm_compute; reflexivity|exact H3].
Defined.

Lemma step_never_raises_witness :
  reachable initial_model ∧ step 10 initial_model ≠ Raise.
Proof.
  assert (Hr : reachable initial_model) by reachable_initial.
  assert (Hfuel : (5 ≤ 10)%nat) by (apply Nat.leb_le; reflexivity).
  split; [exact Hr|].
  exact (proj1 (step_never_raises 10 initial_model Hr Hfuel)).
Defined.

Lemma get_grid_state_shape_witness :
  length (gs_grid (get_grid_state initial_model)) = 6%nat
  ∧ gs_walls (get_grid_state initial_model) !! "2,0"%string
    = walls initial_model !! (2, 0).
Proof.
  assert (HW : 0 ≤ grid_width initial_model)
    by (apply Z.leb_le; vm_compute; reflexivity).
  assert (HH : 0 ≤ grid_height initial_model)
    by (apply Z.leb_le; vm_compute; reflexivity).
  destruct (get_grid_state_shape initial_model HW HH) as (H1 & _ & H3 & _).
  split; [exact H1|exact (H3 (2, 0))].
Defined.

Lemma turn_is_monotone_witness :
  step 10 initial_model = Done after_first_turn
  ∧ turn_counter after_first_turn = turn_counter initial_model + 1
  ∧ schedule after_first_turn ≡ₚ schedule initial_model.
Proof.
  assert (Hstep : step 10 initial_model = Done after_first_turn)
    by (vm_compute; reflexivity).
  pose proof (turn_is_monotone 10 initial_model after_first_turn Hstep) as H.
  split; [exact Hstep|]. split; [apply H|apply H].
Defined.

Lemma gates_and_alarm_accounted_for_witness :
  reachable initial_model
  ∧ registered initial_model CGate = 8
  ∧ false_alarms_investigated initial_model
    + registered initial_model CFalseAlarm = 1.
Proof.
  assert (Hr : reachable initial_model) by reachable_initial.
  destruct (gates_and_alarm_accounted_for initial_model Hr) as (H1 & H2 & _).
  split; [exact Hr|]. split; [exact H1|exact H2].
Defined.

Lemma mild_promotion_witness :
  reachable initial_model
  ∧ heap initial_model !! 9%nat = Some (Disturbance 10 mild 0)
  ∧ heap (escalate initial_model) !! 9%nat = Some (Disturbance 10 mild 1)
  ∧ od_lookup (1, 1) (cell_contents (escalate initial_model)) = Some [9%nat].
Proof.
  assert (Hr : reachable initial_model) by reachable_initial.
  assert (HL : od_lookup (1, 1) (cell_contents initial_model) = Some [9%nat])
    by (vm_compute; reflexivity).
  assert (Hx : 9%nat ∈ [9%nat]) by decide_tac.
  assert (Hh : heap initial_model !! 9%nat = Some (Disturbance 10 mild 0))
    by (vm_compute; reflexivity).
  destruct (mild_promotion initial_model (1, 1) [9%nat] 9%nat 10 0 Hr HL Hx Hh)
    as (_ & H2 & H3 & _).
  split; [exact Hr|]. split; [exact Hh|]. split; [exact H2|exact H3].
Defined.

Lemma spawn_cases_witness :
  ∃ m', spawn 10 initial_model = Done m'
        ∧ ((∃ r, m' = set_random r initial_model)
           ∨ ∃ p, in_grid initial_model p
                    ∧ has_closed_gate initial_model
                        (get_contents_at initial_model p) = false
                    ∧ holds initial_model CDisturbance p = false
                    ∧ next_entity_id m' = 28).
Proof.
  destruct (spawn 10 initial_model) as [m'| |] eqn:E;
    [|vm_compute in E; discriminate E..].
  exists m'. split; [reflexivity|].
  destruct (spawn_cases 10 initial_model m' E)
    as [[r Hm]|(r & p & H1 & H2 & H3 & Hm)].
  - left. exists r. exact Hm.
  - right. exists p. split; [exact H1|]. split; [exact H2|].
    split; [exact H3|]. rewrite Hm. vm_compute. reflexivity.
Defined.

Lemma walls_cover_grid_witness :
  reachable initial_model
  ∧ is_Some (walls initial_model !! (7, 5))
  ∧ walls initial_model !! (8, 5) = None.
Proof.
  assert (Hr : reachable initial_model) by reachable_initial.
  split; [exact Hr|]. split.
  - apply (walls_cover_grid initial_model Hr (7, 5)). in_grid_tac.
  - vm_compute. reflexivity.
Defined.

